(** * cmux workspace session supervisor: script orchestrator and editor server

    A shallow embedding of
    - [apps/www/lib/routes/sandboxes/startDevAndMaintenanceScript.ts]
      (the launcher [runMaintenanceAndDevScripts] and the orchestrator
      program it generates), and
    - the VS Code serve-web supervisor ([ensureVSCodeServeWeb],
      [stopVSCodeServeWeb] and their helpers), and
    - the screenshot collector of [apps/worker/src/screenshotCollector]
      ([startScreenshotCollection], its log, its prompt and its request to
      Codex),
    together with the properties stated about them. *)

From Stdlib Require Import List ZArith NArith String Ascii Bool Lia.
From Stdlib Require Import DecimalString DecimalZ DecimalPos.
Import ListNotations.

Set Implicit Arguments.

(** ** JavaScript strings and the string primitives the code uses *)

Module JS.

(** A JavaScript string is a sequence of UTF-16 code units. *)
Definition jsstring := list N.

(** A literal of the source, written with ASCII characters only. *)
Definition lit (s : string) : jsstring :=
  map N_of_ascii (list_ascii_of_string s).

Arguments lit : simpl never.

Definition LF : N := 10%N.

(** ECMAScript [WhiteSpace] and [LineTerminator] code points, the ones
    [String.prototype.trim] and [parseInt] strip. *)
Definition isWhiteSpace (c : N) : bool :=
  ((9 <=? c) && (c <=? 13) || (c =? 32) || (c =? 160) || (c =? 5760)
   || (8192 <=? c) && (c <=? 8202) || (c =? 8232) || (c =? 8233)
   || (c =? 8239) || (c =? 8287) || (c =? 12288) || (c =? 65279))%N.

Fixpoint trimStart (s : jsstring) : jsstring :=
  match s with
  | [] => []
  | c :: r => if isWhiteSpace c then trimStart r else s
  end.

Definition trimEnd (s : jsstring) : jsstring := rev (trimStart (rev s)).

Definition trim (s : jsstring) : jsstring := trimEnd (trimStart s).

(** Truthiness of a string: the empty string is falsy. *)
Definition truthy (s : jsstring) : bool :=
  match s with [] => false | _ :: _ => true end.

(** Truthiness of [string | null] and [string | undefined]. *)
Definition truthy_opt (o : option jsstring) : bool :=
  match o with Some s => truthy s | None => false end.

Fixpoint startsWith (p s : jsstring) : bool :=
  match p, s with
  | [], _ => true
  | _ :: _, [] => false
  | a :: p', b :: s' => (a =? b)%N && startsWith p' s'
  end.

(** [s.includes(p)] *)
Fixpoint includes (p s : jsstring) : bool :=
  startsWith p s ||
  match s with
  | [] => false
  | _ :: r => includes p r
  end.

(** [s.split(sep)] for a one-code-unit separator. *)
Fixpoint split (sep : N) (s : jsstring) : list jsstring :=
  match s with
  | [] => [[]]
  | c :: r =>
      if (c =? sep)%N then [] :: split sep r
      else match split sep r with
           | [] => [[c]]
           | l :: ls => (c :: l) :: ls
           end
  end.

(** [a.join(sep)] *)
Fixpoint join (sep : jsstring) (l : list jsstring) : jsstring :=
  match l with
  | [] => []
  | x :: r =>
      match r with
      | [] => x
      | _ :: _ => x ++ sep ++ join sep r
      end
  end.

(** [a.slice(-n)]: the last [n] elements, all of them when there are fewer. *)
Definition slice_last {A : Type} (n : nat) (l : list A) : list A :=
  skipn (List.length l - n) l.

Definition isDigit (c : N) : bool := ((48 <=? c) && (c <=? 57))%N.

Fixpoint digitsValue (acc : Z) (s : jsstring) : Z :=
  match s with
  | [] => acc
  | c :: r =>
      if isDigit c then digitsValue (10 * acc + (Z.of_N c - 48)) r else acc
  end.

(** [Number.parseInt(s, 10)]: leading white space is skipped, then an
    optional sign, then the longest run of decimal digits, whatever
    follows them; [None] is [NaN].  Numbers are integers here: the value is
    exact (the source's doubles agree with it up to 2^53). *)
Definition parseInt10 (s : jsstring) : option Z :=
  let t := trimStart s in
  let '(sign, body) :=
    match t with
    | 45%N :: r => ((-1)%Z, r)
    | 43%N :: r => (1%Z, r)
    | _ => (1%Z, t)
    end in
  match body with
  | c :: _ => if isDigit c then Some (sign * digitsValue 0 body)%Z else None
  | [] => None
  end.

(** [a === b] on strings. *)
Fixpoint eqb (a b : jsstring) : bool :=
  match a, b with
  | [], [] => true
  | x :: a', y :: b' => (x =? y)%N && eqb a' b'
  | _, _ => false
  end.

(** [String(n)] / [`${n}`] for an integer (below 10^21 in absolute value,
    where JavaScript switches to exponent notation). *)
Definition numberToString (n : Z) : jsstring :=
  lit (NilZero.string_of_int (Z.to_int n)).

End JS.

Import JS.

(** ** Effects: a state, exception and process-exit monad with a trace

    The programs below talk to a world they do not control (a remote shell,
    a file system, a clock, an HTTP endpoint, a child process).  The world is
    an abstract state [W] with one handler per operation; every operation a
    program performs is recorded, newest first, in [trace].  [G] is the
    program's own module-level mutable state. *)

Module Eff.

(** A thrown JavaScript value: an [Error] object, an [Error] object with
    a [code] property (a system error such as [ENOENT]), or anything else,
    given by its string form. *)
Inductive exn : Type :=
| ErrorObj (message : jsstring)
| ErrnoError (code message : jsstring)
| ThrownValue (str : jsstring).

(** [error instanceof Error ? error.message : String(error)] *)
Definition exn_message (e : exn) : jsstring :=
  match e with
  | ErrorObj m => m
  | ErrnoError _ m => m
  | ThrownValue s => s
  end.

(** [String(error)] / [`${error}`] *)
Definition exn_toString (e : exn) : jsstring :=
  match e with
  | ErrorObj [] | ErrnoError _ [] => lit "Error"
  | ErrorObj m | ErrnoError _ m => lit "Error: " ++ m
  | ThrownValue s => s
  end.

(** [error && typeof error === "object" && "code" in error &&
    error.code === "ENOENT"] *)
Definition isENOENT (e : exn) : bool :=
  match e with
  | ErrnoError c _ => eqb c (lit "ENOENT")
  | _ => false
  end.

(** What an awaited operation of the world does: it returns or it throws. *)
Inductive outcome (A : Type) : Type :=
| Returned (a : A)
| Raised (e : exn).
Arguments Raised {A} e.

Inductive res (A : Type) : Type :=
| Ok (a : A)
| Throw (e : exn)
| Exit (code : Z).
Arguments Throw {A} e.
Arguments Exit {A} code.

Section Monad.
Variables G W Ev : Type.

Record St : Type := mkSt { prog : G; world : W; trace : list Ev }.

Definition M (A : Type) : Type := St -> res A * St.

Definition ret {A} (a : A) : M A := fun s => (Ok a, s).

Definition bind {A B} (m : M A) (k : A -> M B) : M B :=
  fun s =>
    match m s with
    | (Ok a, s') => k a s'
    | (Throw e, s') => (Throw e, s')
    | (Exit c, s') => (Exit c, s')
    end.

Definition throw {A} (e : exn) : M A := fun s => (Throw e, s).

(** [process.exit(code)]: ends the process; no [catch] sees it. *)
Definition exit {A} (code : Z) : M A := fun s => (Exit code, s).

(** [try { m } catch (e) { h e }] *)
Definition try_catch {A} (m : M A) (h : exn -> M A) : M A :=
  fun s =>
    match m s with
    | (Throw e, s') => h e s'
    | r => r
    end.

Definition emit (e : Ev) : M unit :=
  fun s => (Ok tt, mkSt (prog s) (world s) (e :: trace s)).

(** Ask the world; the answer may depend on, and change, its state. *)
Definition ask {R} (f : W -> R * W) : M R :=
  fun s => let '(r, w) := f (world s) in (Ok r, mkSt (prog s) w (trace s)).

Definition tell (f : W -> W) : M unit :=
  fun s => (Ok tt, mkSt (prog s) (f (world s)) (trace s)).

(** An operation that returns or throws. *)
Definition perform {R} (f : W -> outcome R * W) : M R :=
  bind (ask f) (fun o => match o with Returned r => ret r | Raised e => throw e end).

Definition getG : M G := fun s => (Ok (prog s), s).

Definition modifyG (f : G -> G) : M unit :=
  fun s => (Ok tt, mkSt (f (prog s)) (world s) (trace s)).

(** Three shapes of behaviour, each with a bound [P] on the events the
    computation adds to the trace:
    - [returns P m]: [m] always returns normally;
    - [safe P m]: [m] returns or throws, it never ends the process;
    - [exits P m]: [m] always ends the process. *)
Definition returns {A} (P : Ev -> Prop) (m : M A) : Prop :=
  forall s, exists a s' l,
    m s = (Ok a, s') /\ trace s' = l ++ trace s /\ Forall P l.

Definition safe {A} (P : Ev -> Prop) (m : M A) : Prop :=
  forall s, exists r s' l,
    m s = (r, s') /\ trace s' = l ++ trace s /\ Forall P l
    /\ (forall c, r <> Exit c).

Definition exits {A} (P : Ev -> Prop) (m : M A) : Prop :=
  forall s, exists c s' l,
    m s = (Exit c, s') /\ trace s' = l ++ trace s /\ Forall P l.

End Monad.

Arguments returns {G W Ev A} P m.
Arguments safe {G W Ev A} P m.
Arguments exits {G W Ev A} P m.
Arguments ret {G W Ev A} a.
Arguments bind {G W Ev A B} m k.
Arguments throw {G W Ev A} e.
Arguments exit {G W Ev A} code.
Arguments try_catch {G W Ev A} m h.
Arguments emit {G W Ev} e.
Arguments ask {G W Ev R} f.
Arguments tell {G W Ev} f.
Arguments perform {G W Ev R} f.
Arguments getG {G W Ev}.
Arguments modifyG {G W Ev} f.

End Eff.

Import Eff.

Declare Scope eff_scope.
Delimit Scope eff_scope with eff.
Notation "x <- m ;; k" := (bind m (fun x => k))
  (at level 61, m at next level, right associativity) : eff_scope.
Notation "m ;; k" := (bind m (fun _ => k))
  (at level 61, right associativity) : eff_scope.
Open Scope eff_scope.

(** [tr'] extends [tr]: the events of [tr] happened, then possibly more. *)
Definition extends {Ev : Type} (tr' tr : list Ev) : Prop :=
  exists l, tr' = l ++ tr.

(** ** The launcher: [runMaintenanceAndDevScripts] *)

Module Launcher.

Definition DQ : jsstring := [34%N].
Definition NL : jsstring := [LF].

Definition WORKSPACE_ROOT : jsstring := lit "/root/workspace".
Definition CMUX_RUNTIME_DIR : jsstring := lit "/var/tmp/cmux-scripts".
Definition MAINTENANCE_WINDOW_NAME : jsstring := lit "maintenance".
Definition MAINTENANCE_SCRIPT_FILENAME : jsstring := lit "maintenance.sh".
Definition DEV_WINDOW_NAME : jsstring := lit "dev".
Definition DEV_SCRIPT_FILENAME : jsstring := lit "dev.sh".

Record ScriptIdentifier : Type := {
  windowName : jsstring;
  scriptPath : jsstring
}.

Record ScriptIdentifiers : Type := {
  maintenance : ScriptIdentifier;
  dev : ScriptIdentifier
}.

Record OrchestratorScriptConfig : Type := {
  workspaceRoot : jsstring;
  runtimeDir : jsstring;
  maintenanceScriptPath : jsstring;
  devScriptPath : jsstring;
  maintenanceWindowName : jsstring;
  devWindowName : jsstring;
  maintenanceExitCodePath : jsstring;
  maintenanceErrorLogPath : jsstring;
  devExitCodePath : jsstring;
  devErrorLogPath : jsstring;
  hasMaintenanceScript : bool;
  hasDevScript : bool;
  convexUrl : jsstring;
  taskRunJwt : jsstring
}.

Definition allocateScriptIdentifiers : ScriptIdentifiers :=
  {| maintenance :=
       {| windowName := MAINTENANCE_WINDOW_NAME;
          scriptPath := CMUX_RUNTIME_DIR ++ lit "/" ++ MAINTENANCE_SCRIPT_FILENAME |};
     dev :=
       {| windowName := DEV_WINDOW_NAME;
          scriptPath := CMUX_RUNTIME_DIR ++ lit "/" ++ DEV_SCRIPT_FILENAME |} |}.

(** The paths [runMaintenanceAndDevScripts] derives from the run id. *)
Definition orchestratorScriptPathOf (runId : jsstring) : jsstring :=
  CMUX_RUNTIME_DIR ++ lit "/orchestrator_" ++ runId ++ lit ".ts".
Definition maintenanceExitCodePathOf (runId : jsstring) : jsstring :=
  CMUX_RUNTIME_DIR ++ lit "/maintenance_" ++ runId ++ lit ".exit-code".
Definition maintenanceErrorLogPathOf (runId : jsstring) : jsstring :=
  CMUX_RUNTIME_DIR ++ lit "/maintenance_" ++ runId ++ lit ".log".
Definition devExitCodePathOf (runId : jsstring) : jsstring :=
  CMUX_RUNTIME_DIR ++ lit "/dev_" ++ runId ++ lit ".exit-code".
Definition devErrorLogPathOf (runId : jsstring) : jsstring :=
  CMUX_RUNTIME_DIR ++ lit "/dev_" ++ runId ++ lit ".log".
(** The file the setup command redirects the orchestrator's output to. *)
Definition orchestratorLogPathOf (runId : jsstring) : jsstring :=
  CMUX_RUNTIME_DIR ++ lit "/orchestrator_" ++ runId ++ lit ".log".

(** The paths that carry the run id. *)
Definition runScopedPaths (runId : jsstring) : list jsstring :=
  [ orchestratorScriptPathOf runId;
    maintenanceExitCodePathOf runId;
    maintenanceErrorLogPathOf runId;
    devExitCodePathOf runId;
    devErrorLogPathOf runId;
    orchestratorLogPathOf runId ].

(** The script files of a run: they come from the identifiers alone. *)
Definition scriptPaths (ids : ScriptIdentifiers) : list jsstring :=
  [ scriptPath (maintenance ids); scriptPath (dev ids) ].

(** Every file path a run with identifiers [ids] and run id [runId]
    writes or polls. *)
Definition generatedPaths (ids : ScriptIdentifiers) (runId : jsstring)
  : list jsstring :=
  scriptPaths ids ++ runScopedPaths runId.

(** [Boolean(text && text.trim().length > 0)] *)
Definition hasScript (text : option jsstring) : bool :=
  match text with
  | None => false
  | Some t => truthy t && (0 <? List.length (trim t))%nat
  end.

Definition maintenanceScriptContentOf (script : jsstring) : jsstring :=
  lit "#!/bin/zsh" ++ NL ++
  lit "set -eux" ++ NL ++
  lit "cd " ++ WORKSPACE_ROOT ++ NL ++
  NL ++
  lit "echo " ++ DQ ++ lit "=== Maintenance Script Started at \$(date) ===" ++ DQ ++ NL ++
  script ++ NL ++
  lit "echo " ++ DQ ++ lit "=== Maintenance Script Completed at \$(date) ===" ++ DQ ++ NL.

Definition devScriptContentOf (script : jsstring) : jsstring :=
  lit "#!/bin/zsh" ++ NL ++
  lit "set -ux" ++ NL ++
  lit "cd " ++ WORKSPACE_ROOT ++ NL ++
  NL ++
  lit "echo " ++ DQ ++ lit "=== Dev Script Started at \$(date) ===" ++ DQ ++ NL ++
  script ++ NL.

(** The shell text [setupAndRunCommand], kept as the data it is built
    from: which files it writes (path and content), which exit-code file
    it removes, and the orchestrator it starts in the background (the
    orchestrator script is given by the configuration its template is
    filled with; the schema check of that configuration cannot fail on
    values of these types).  The text reaches the instance as the argument
    of [zsh -lc], quoted by a helper of the repository. *)
Record SetupAndRunCommand : Type := {
  writeMaintenance : option (jsstring * jsstring);
  removeExitCode : option jsstring;
  writeDev : option (jsstring * jsstring);
  orchestratorPath : jsstring;
  orchestratorConfig : OrchestratorScriptConfig;
  orchestratorLog : jsstring
}.

(** The result of [instance.exec]. *)
Record ExecResult : Type := {
  exit_code : Z;
  stdout : option jsstring;
  stderr : option jsstring
}.

Inductive Event : Type :=
| EConsoleLog (msg : jsstring)
| EConsoleError (msg : jsstring)
| ENewRunId
| EExec (cmd : SetupAndRunCommand).

Definition START_MARKER : jsstring :=
  lit "[ORCHESTRATOR] Started successfully in background (PID:".

Section WithWorld.
Variable W : Type.

(** The remote instance and the sources of the run id. *)
Record Env : Type := {
  (** [`${Date.now().toString(36)}_${Math.random().toString(36).slice(2, 10)}`] *)
  newRunId : W -> jsstring * W;
  exec : SetupAndRunCommand -> W -> outcome ExecResult * W
}.

Variable env : Env.

Local Abbreviation M := (M unit W Event).

Record Args : Type := {
  maintenanceScript : option jsstring;
  devScript : option jsstring;
  identifiers : option ScriptIdentifiers;
  argConvexUrl : option jsstring;
  argTaskRunJwt : option jsstring
}.

(** [x ?? d] *)
Definition orElse {A} (o : option A) (d : A) : A :=
  match o with Some a => a | None => d end.

Definition option_trim (o : option jsstring) : jsstring :=
  match o with Some s => trim s | None => [] end.

Definition hasMaintenance (a : Args) : bool := hasScript (maintenanceScript a).
Definition hasDev (a : Args) : bool := hasScript (devScript a).

(** [identifiers ?? allocateScriptIdentifiers()] *)
Definition idsOf (a : Args) : ScriptIdentifiers :=
  orElse (identifiers a) allocateScriptIdentifiers.

(** The argument of [buildOrchestratorScript]. *)
Definition configOf (a : Args) (runId : jsstring) : OrchestratorScriptConfig :=
  let ids := idsOf a in
  {| workspaceRoot := WORKSPACE_ROOT;
     runtimeDir := CMUX_RUNTIME_DIR;
     maintenanceScriptPath := scriptPath (maintenance ids);
     devScriptPath := scriptPath (dev ids);
     maintenanceWindowName := windowName (maintenance ids);
     devWindowName := windowName (dev ids);
     maintenanceExitCodePath := maintenanceExitCodePathOf runId;
     maintenanceErrorLogPath := maintenanceErrorLogPathOf runId;
     devExitCodePath := devExitCodePathOf runId;
     devErrorLogPath := devErrorLogPathOf runId;
     hasMaintenanceScript := hasMaintenance a;
     hasDevScript := hasDev a;
     convexUrl := orElse (argConvexUrl a) [];
     taskRunJwt := orElse (argTaskRunJwt a) [] |}.

Definition setupAndRunCommandOf (a : Args) (runId : jsstring) : SetupAndRunCommand :=
  let ids := idsOf a in
  let maintenanceScriptContent :=
    if hasMaintenance a
    then Some (maintenanceScriptContentOf (orElse (maintenanceScript a) []))
    else None in
  let devScriptContent :=
    if hasDev a
    then Some (devScriptContentOf (orElse (devScript a) []))
    else None in
  let written (c : option jsstring) (path : jsstring) :=
    match c with
    | Some content => if truthy content then Some (path, content) else None
    | None => None
    end in
  {| writeMaintenance := written maintenanceScriptContent (scriptPath (maintenance ids));
     removeExitCode :=
       if truthy_opt maintenanceScriptContent
       then Some (maintenanceExitCodePathOf runId) else None;
     writeDev := written devScriptContent (scriptPath (dev ids));
     orchestratorPath := orchestratorScriptPathOf runId;
     orchestratorConfig := configOf a runId;
     orchestratorLog := orchestratorLogPathOf runId |}.

Definition runMaintenanceAndDevScripts (a : Args) : M unit :=
  if negb (hasMaintenance a) && negb (hasDev a) then
    emit (EConsoleLog (lit "[runMaintenanceAndDevScripts] No maintenance or dev scripts provided; skipping start"))
  else
    emit ENewRunId;;
    runId <- ask (newRunId env);;
    let setupAndRunCommand := setupAndRunCommandOf a runId in
    try_catch
      (emit (EExec setupAndRunCommand);;
       result <- perform (exec env setupAndRunCommand);;
       let out := option_trim (stdout result) in
       let err := option_trim (stderr result) in
       if negb (exit_code result =? 0)%Z then
         throw (ErrorObj
                  (lit "Failed to start orchestrator: exit code "
                   ++ numberToString (exit_code result)
                   ++ (if truthy err then lit " | stderr: " ++ err else [])))
       else if negb (includes START_MARKER out) then
         throw (ErrorObj (lit "Orchestrator did not confirm successful start"))
       else
         emit (EConsoleLog (lit "[runMaintenanceAndDevScripts] Orchestrator started successfully")))
      (fun error =>
         let message := exn_message error in
         emit (EConsoleError (lit "[runMaintenanceAndDevScripts] Failed to start orchestrator: " ++ message));;
         throw (ErrorObj message)).

(** The text is absent or consists of white space only. *)
Definition absentOrBlank (text : option jsstring) : bool :=
  match text with
  | None => true
  | Some t => forallb isWhiteSpace t
  end.

(** The raw standard output contains the marker. *)
Definition stdoutContains (marker : jsstring) (r : ExecResult) : bool :=
  match stdout r with
  | Some out => includes marker out
  | None => false
  end.

Definition isExec (e : Event) : bool :=
  match e with EExec _ => true | _ => false end.

(** The launcher raises an exception. *)
Definition throws {A} (r : res A * St unit W Event) : Prop :=
  exists e, fst r = Throw e.

End WithWorld.

(** The paths that appear in a setup command. *)
Definition commandPaths (c : SetupAndRunCommand) : list jsstring :=
  [ maintenanceScriptPath (orchestratorConfig c);
    devScriptPath (orchestratorConfig c);
    orchestratorPath c;
    maintenanceExitCodePath (orchestratorConfig c);
    maintenanceErrorLogPath (orchestratorConfig c);
    devExitCodePath (orchestratorConfig c);
    devErrorLogPath (orchestratorConfig c);
    orchestratorLog c ].

(** *** Inputs for running the launcher *)

(** A remote instance whose setup command succeeds but prints nothing. *)
Definition silentEnv : Env unit :=
  {| newRunId := fun w => (lit "mh2k9x1a_4fj20dkq", w);
     exec := fun _ w =>
       (Returned {| exit_code := 0; stdout := Some (lit "  "); stderr := None |}, w) |}.

Definition devOnlyArgs : Args :=
  {| maintenanceScript := None;
     devScript := Some (lit "sleep 9999");
     identifiers := None;
     argConvexUrl := None;
     argTaskRunJwt := None |}.

Definition blankArgs : Args :=
  {| maintenanceScript := Some (lit "  " ++ [LF]);
     devScript := None;
     identifiers := None;
     argConvexUrl := None;
     argTaskRunJwt := None |}.

Definition launcherStart : St unit unit Event := mkSt tt tt [].

End Launcher.

(** ** The orchestrator program generated by [buildOrchestratorScript]

    The generated TypeScript is embedded as the program it is, with the
    constants the template fills in taken from the configuration. *)

Module Orchestrator.
Import Launcher.

Inductive ShellCmd : Type :=
| TmuxHasSession                               (* tmux has-session -t cmux 2>/dev/null *)
| TmuxNewWindow (name : jsstring)              (* tmux new-window -t cmux: -n NAME -d *)
| TmuxSendKeys (target keys : jsstring)        (* tmux send-keys -t TARGET KEYS C-m *)
| TmuxListWindows                              (* tmux list-windows -t cmux *)
| RmForce (path : jsstring).                   (* rm -f PATH *)

Record ShellOutput : Type := {
  exitCode : Z;
  text : jsstring
}.

Record Request : Type := {
  url : jsstring;
  method : jsstring;
  headers : list (jsstring * jsstring);
  (** the object given to [JSON.stringify], in insertion order *)
  body : list (jsstring * jsstring)
}.

Record Response : Type := {
  status : Z
}.

(** [response.ok] *)
Definition ok (r : Response) : bool :=
  ((200 <=? status r) && (status r <=? 299))%Z.

Inductive Event : Type :=
| EConsoleLog (args : list jsstring)
| EConsoleError (args : list jsstring)
| EShell (cmd : ShellCmd)
| EFileExists (path : jsstring)
| EFileText (path : jsstring)
| ESleep (ms : Z)
| EFetch (req : Request)
| EResponseText.

Record MaintenanceResult : Type := {
  mExitCode : Z;
  mError : option jsstring
}.

Record DevResult : Type := {
  dError : option jsstring
}.

(** The three outcomes of the maintenance stage. *)
Inductive Status : Type := StOk | StFailed | StTimedOut.

Definition TIMEOUT_EXIT_CODE : Z := 124.

Definition maintenanceStatus (r : MaintenanceResult) : Status :=
  match mError r with
  | None => StOk
  | Some _ => if (mExitCode r =? TIMEOUT_EXIT_CODE)%Z then StTimedOut else StFailed
  end.

Definition isFetch (e : Event) : bool :=
  match e with EFetch _ => true | _ => false end.

Definition isShell (e : Event) : bool :=
  match e with EShell _ => true | _ => false end.

(** Console output and the reading of a response body already received:
    the actions that touch nothing outside the process. *)
Definition isLogOnly (e : Event) : bool :=
  match e with
  | EConsoleLog _ | EConsoleError _ | EResponseText => true
  | _ => false
  end.

(** The requests sent, oldest first. *)
Definition fetches (tr : list Event) : list Request :=
  flat_map (fun e => match e with EFetch r => [r] | _ => [] end) (rev tr).

Definition boolToString (b : bool) : jsstring :=
  if b then lit "true" else lit "false".

Section WithWorld.
Variable W : Type.

Record Env : Type := {
  (** Bun's [$`...`]: resolves to the output or throws *)
  shell : ShellCmd -> W -> outcome ShellOutput * W;
  (** [Bun.file(p).exists()] *)
  fileExists : jsstring -> W -> bool * W;
  (** [Bun.file(p).text()] *)
  fileText : jsstring -> W -> outcome jsstring * W;
  (** [Bun.sleep(ms)]: the world moves on *)
  sleep : Z -> W -> W;
  fetch : Request -> W -> outcome Response * W;
  (** [response.text()] of the response just received *)
  responseText : W -> outcome jsstring * W
}.

Variable env : Env.
Variable cfg : OrchestratorScriptConfig.

Local Abbreviation M := (M unit W Event).

Definition console_log (msg : jsstring) : M unit := emit (EConsoleLog [msg]).
Definition console_error (msg : jsstring) : M unit := emit (EConsoleError [msg]).
Definition console_error2 (msg : jsstring) (e : exn) : M unit :=
  emit (EConsoleError [msg; exn_toString e]).

Definition sh (c : ShellCmd) : M ShellOutput :=
  emit (EShell c);; perform (shell env c).

Definition exists_ (p : jsstring) : M bool :=
  emit (EFileExists p);; ask (fileExists env p).

Definition text_ (p : jsstring) : M jsstring :=
  emit (EFileText p);; perform (fileText env p).

Definition Bun_sleep (ms : Z) : M unit :=
  emit (ESleep ms);; tell (sleep env ms).

(** [await response.text()] *)
Definition response_text : M jsstring :=
  emit EResponseText;; perform (responseText env).

(** The [for (let i = 0; i < 20; i++)] loop of [waitForTmuxSession];
    [n] is the number of iterations left, the result says whether the
    function returned from inside the loop. *)
Fixpoint waitForTmuxSession_loop (n : nat) : M bool :=
  match n with
  | O => ret false
  | S n' =>
      found <- try_catch
                 (result <- sh TmuxHasSession;;
                  if (exitCode result =? 0)%Z
                  then console_log (lit "[ORCHESTRATOR] tmux session found");; ret true
                  else ret false)
                 (fun _ => ret false);;
      if (found : bool) then ret true
      else Bun_sleep 500;; waitForTmuxSession_loop n'
  end.

Definition waitForTmuxSession : M unit :=
  found <- waitForTmuxSession_loop 20;;
  if (found : bool) then ret tt
  else
    result <- sh TmuxHasSession;;
    if negb (exitCode result =? 0)%Z
    then throw (ErrorObj (lit "Error: cmux session does not exist"))
    else ret tt.

Definition createWindow (name : jsstring) : M unit :=
  try_catch
    (console_log (lit "[ORCHESTRATOR] Creating " ++ name ++ lit " window...");;
     sh (TmuxNewWindow name);;
     console_log (lit "[ORCHESTRATOR] " ++ name ++ lit " window created"))
    (fun error =>
       console_error2 (lit "[ORCHESTRATOR] Failed to create " ++ name ++ lit " window:") error;;
       throw error).

Definition createWindows : M unit :=
  waitForTmuxSession;;
  (if hasMaintenanceScript cfg then createWindow (maintenanceWindowName cfg) else ret tt);;
  (if hasDevScript cfg then createWindow (devWindowName cfg) else ret tt).

(** The keys typed into the window; [execShell] is the maintenance
    variant, which replaces the shell afterwards. *)
Definition runKeys (script log exitp : jsstring) (execShell : bool) : jsstring :=
  lit "zsh '" ++ script ++ lit "' 2>&1 | tee '" ++ log
  ++ lit "'; echo ${pipestatus[1]} > '" ++ exitp ++ lit "'"
  ++ (if execShell then lit "; exec zsh" else []).

(** [tmux send-keys -t cmux:WINDOW "zsh 'SCRIPT' 2>&1 | tee 'LOG'; echo
    ${pipestatus[1]} > 'EXIT'; exec zsh" C-m] for the maintenance window. *)
Definition maintenanceSendKeys : ShellCmd :=
  TmuxSendKeys (lit "cmux:" ++ maintenanceWindowName cfg)
    (runKeys (maintenanceScriptPath cfg) (maintenanceErrorLogPath cfg)
             (maintenanceExitCodePath cfg) true).

(** The same for the dev window, without [exec zsh]. *)
Definition devSendKeys : ShellCmd :=
  TmuxSendKeys (lit "cmux:" ++ devWindowName cfg)
    (runKeys (devScriptPath cfg) (devErrorLogPath cfg)
             (devExitCodePath cfg) false).

(** The [while (attempts < maxAttempts)] loop of [runMaintenanceScript];
    [left] is [maxAttempts - attempts].  Returns the final [attempts]. *)
Fixpoint waitForExitCode (left : nat) (attempts : Z) : M Z :=
  match left with
  | O => ret attempts
  | S left' =>
      present <- exists_ (maintenanceExitCodePath cfg);;
      if (present : bool) then ret attempts
      else Bun_sleep 1000;; waitForExitCode left' (attempts + 1)%Z
  end.

(** The last 100 lines of an error log, or [""] when there is no log or
    reading it throws. *)
Definition readErrorDetails (logPath tag : jsstring) : M jsstring :=
  try_catch
    (present <- exists_ logPath;;
     if (present : bool) then
       logContent <- text_ logPath;;
       let lines := split LF (trim logContent) in
       let relevantLines := slice_last 100 lines in
       ret (join [LF] relevantLines)
     else ret [])
    (fun logError =>
       console_error2 (tag ++ lit " Failed to read error log:") logError;;
       ret []).

Definition maxAttempts : nat := 600.

(** First part of the [try] block of [runMaintenanceScript]: type the
    command into the window, then poll for the exit-code file.  Returns the
    final value of [attempts]. *)
Definition launchAndWait : M Z :=
  console_log (lit "[MAINTENANCE] Starting maintenance script...");;
  sh maintenanceSendKeys;;
  Bun_sleep 2000;;
  console_log (lit "[MAINTENANCE] Waiting for script to complete...");;
  waitForExitCode maxAttempts 0.

Definition timedOutResult : MaintenanceResult :=
  {| mExitCode := 124;
     mError := Some (lit "Maintenance script timed out after 10 minutes") |}.

Definition maintenanceFailureMessage (code : Z) : jsstring :=
  lit "Maintenance script failed with exit code " ++ numberToString code.

(** Last part of the [try] block of [runMaintenanceScript]: the exit-code
    file is there; read it, remove it and interpret its content. *)
Definition interpretExitCode : M MaintenanceResult :=
  exitCodeText <- text_ (maintenanceExitCodePath cfg);;
  let exitCodeRaw := trim exitCodeText in
  let parsed := parseInt10 exitCodeRaw in
  sh (RmForce (maintenanceExitCodePath cfg));;
  match parsed with
  | None =>
      console_error (lit "[MAINTENANCE] Invalid exit code value: " ++ exitCodeRaw);;
      ret {| mExitCode := 1;
             mError := Some (lit "Maintenance script exit code missing or invalid") |}
  | Some code =>
      console_log (lit "[MAINTENANCE] Script completed with exit code " ++ numberToString code);;
      if negb (code =? 0)%Z then
        errorDetails <- readErrorDetails (maintenanceErrorLogPath cfg) (lit "[MAINTENANCE]");;
        let errorMessage :=
          if truthy errorDetails then errorDetails
          else maintenanceFailureMessage code in
        ret {| mExitCode := code; mError := Some errorMessage |}
      else ret {| mExitCode := 0; mError := None |}
  end.

Definition runMaintenanceScript : M MaintenanceResult :=
  if negb (hasMaintenanceScript cfg) then
    console_log (lit "[MAINTENANCE] No maintenance script to run");;
    ret {| mExitCode := 0; mError := None |}
  else
    try_catch
      (attempts <- launchAndWait;;
       if (attempts >=? Z.of_nat maxAttempts)%Z then
         console_error (lit "[MAINTENANCE] Script timed out after 10 minutes");;
         ret timedOutResult
       else interpretExitCode)
      (fun error =>
         let errorMessage := exn_message error in
         console_error (lit "[MAINTENANCE] Error: " ++ errorMessage);;
         ret {| mExitCode := 1;
                mError := Some (lit "Maintenance script execution failed: " ++ errorMessage) |}).

Definition REPORT_PATH : jsstring :=
  lit "/http/api/task-runs/report-environment-error".

Definition reportRequest (maintenanceError devError : option jsstring) : Request :=
  {| url := convexUrl cfg ++ REPORT_PATH;
     method := lit "POST";
     headers := [ (lit "Content-Type", lit "application/json");
                  (lit "Authorization", lit "Bearer " ++ taskRunJwt cfg) ];
     body :=
       (match maintenanceError with
        | Some e => if truthy e then [(lit "maintenanceError", e)] else []
        | None => []
        end)
       ++
       (match devError with
        | Some e => if truthy e then [(lit "devError", e)] else []
        | None => []
        end) |}.

Definition reportErrorToConvex (maintenanceError devError : option jsstring) : M unit :=
  if negb (truthy (taskRunJwt cfg)) || negb (truthy (convexUrl cfg)) then
    console_log (lit "[ORCHESTRATOR] Skipping Convex error reporting: missing configuration")
  else if negb (truthy_opt maintenanceError) && negb (truthy_opt devError) then
    console_log (lit "[ORCHESTRATOR] No errors to report")
  else
    try_catch
      (console_log (lit "[ORCHESTRATOR] Reporting errors to Convex HTTP action...");;
       let req := reportRequest maintenanceError devError in
       emit (EFetch req);;
       response <- perform (fetch env req);;
       console_log (lit "[ORCHESTRATOR] Convex response status: " ++ numberToString (status response));;
       if negb (ok response) then
         errorText <- response_text;;
         console_error (lit "[ORCHESTRATOR] Failed to report errors to Convex: " ++ numberToString (status response));;
         console_error (lit "[ORCHESTRATOR] Response body: " ++ errorText)
       else
         responseData <- response_text;;
         console_log (lit "[ORCHESTRATOR] Successfully reported errors to Convex: " ++ responseData))
      (fun error =>
         console_error2 (lit "[ORCHESTRATOR] Exception while reporting errors to Convex:") error).

Definition startDevScript : M DevResult :=
  if negb (hasDevScript cfg) then
    console_log (lit "[DEV] No dev script to run");;
    ret {| dError := None |}
  else
    try_catch
      (console_log (lit "[DEV] Starting dev script...");;
       sh devSendKeys;;
       Bun_sleep 2000;;
       windowCheck <- sh TmuxListWindows;;
       if negb (includes (devWindowName cfg) (text windowCheck)) then
         let error := lit "Dev window not found after starting script" in
         console_error (lit "[DEV] ERROR: " ++ error);;
         ret {| dError := Some error |}
       else
         console_log (lit "[DEV] Checking for early exit...");;
         Bun_sleep 5000;;
         present <- exists_ (devExitCodePath cfg);;
         early <-
           (if (present : bool) then
              exitCodeText <- text_ (devExitCodePath cfg);;
              let exitCodeRaw := trim exitCodeText in
              let parsed := parseInt10 exitCodeRaw in
              sh (RmForce (devExitCodePath cfg));;
              match parsed with
              | None =>
                  console_error (lit "[DEV] Invalid exit code value: " ++ exitCodeRaw);;
                  ret (Some {| dError := Some (lit "Dev script exit code missing or invalid") |})
              | Some code =>
                  if negb (code =? 0)%Z then
                    console_error (lit "[DEV] Script exited early with code " ++ numberToString code);;
                    errorDetails <- readErrorDetails (devErrorLogPath cfg) (lit "[DEV]");;
                    let errorMessage :=
                      if truthy errorDetails then errorDetails
                      else lit "Dev script failed with exit code " ++ numberToString code in
                    ret (Some {| dError := Some errorMessage |})
                  else ret None
              end
            else ret None);;
         match early with
         | Some r => ret r
         | None =>
             console_log (lit "[DEV] Script started successfully");;
             ret {| dError := None |}
         end)
      (fun error =>
         let errorMessage := exn_message error in
         console_error (lit "[DEV] Error: " ++ errorMessage);;
         ret {| dError := Some (lit "Dev script execution failed: " ++ errorMessage) |}).

(** [Boolean(maintenanceResult.error || devResult.error)] *)
Definition hasError (maintenanceResult : MaintenanceResult) (devResult : DevResult) : bool :=
  truthy_opt (mError maintenanceResult) || truthy_opt (dError devResult).

(** End of the main function: report, then signal the outcome. *)
Definition reportAndExit (maintenanceResult : MaintenanceResult) (devResult : DevResult) : M unit :=
  console_log (lit "[ORCHESTRATOR] Checking if should report errors - maintenance: "
               ++ boolToString (truthy_opt (mError maintenanceResult))
               ++ lit ", dev: " ++ boolToString (truthy_opt (dError devResult)));;
  (if hasError maintenanceResult devResult
   then reportErrorToConvex (mError maintenanceResult) (dError devResult)
   else console_log (lit "[ORCHESTRATOR] No errors to report"));;
  (if hasError maintenanceResult devResult then exit 1 else ret tt);;
  console_log (lit "[ORCHESTRATOR] Orchestrator completed successfully");;
  exit 0.

Definition logMaintenanceOutcome (maintenanceResult : MaintenanceResult) : M unit :=
  if truthy_opt (mError maintenanceResult)
  then console_error (lit "[ORCHESTRATOR] Maintenance completed with error: "
                      ++ orElse (mError maintenanceResult) [])
  else console_log (lit "[ORCHESTRATOR] Maintenance completed successfully").

Definition logDevOutcome (devResult : DevResult) : M unit :=
  if truthy_opt (dError devResult)
  then console_error (lit "[ORCHESTRATOR] Dev script failed: " ++ orElse (dError devResult) [])
  else console_log (lit "[ORCHESTRATOR] Dev script started successfully").

Definition preamble : M unit :=
  console_log (lit "[ORCHESTRATOR] Starting orchestrator...");;
  console_log (lit "[ORCHESTRATOR] CONVEX_URL: " ++ convexUrl cfg);;
  console_log (lit "[ORCHESTRATOR] TASK_RUN_JWT present: " ++ boolToString (truthy (taskRunJwt cfg))).

(** The immediately invoked main function. *)
Definition main : M unit :=
  try_catch
    (preamble;;
     createWindows;;
     maintenanceResult <- runMaintenanceScript;;
     logMaintenanceOutcome maintenanceResult;;
     devResult <- startDevScript;;
     logDevOutcome devResult;;
     reportAndExit maintenanceResult devResult)
    (fun error =>
       console_error (lit "[ORCHESTRATOR] Fatal error: " ++ exn_toString error);;
       exit 1).

(** Events other than an HTTP request. *)
Definition quiet (e : Event) : Prop := isFetch e = false.

(** The events of [n] unsuccessful polls for the maintenance exit-code
    file, newest first. *)
Definition pollEvents (n : nat) : list Event :=
  List.concat (repeat [ESleep 1000; EFileExists (maintenanceExitCodePath cfg)] n).

(** The last [n] lines of a log. *)
Definition lastLines (n : nat) (logContent : jsstring) : jsstring :=
  join [LF] (slice_last n (split LF (trim logContent))).


(** The error of a maintenance script that exited with [code], given what
    reading the log yielded. *)
Definition failureDetail (code : Z) (log : option jsstring) : jsstring :=
  match log with
  | Some c => if truthy (lastLines 100 c) then lastLines 100 c
              else maintenanceFailureMessage code
  | None => maintenanceFailureMessage code
  end.

(** The callback is configured: both the URL and the token are set. *)
Definition reportingConfigured : bool :=
  truthy (taskRunJwt cfg) && truthy (convexUrl cfg).

(** How the dev stage begins. *)
Definition devEntry : list Event :=
  if hasDevScript cfg
  then [EShell (devSendKeys); EConsoleLog [lit "[DEV] Starting dev script..."]]
  else [EConsoleLog [lit "[DEV] No dev script to run"]].

(** What the maintenance stage does when it times out, newest first. *)
Definition timeoutEvents : list Event :=
  EConsoleError [lit "[MAINTENANCE] Script timed out after 10 minutes"]
  :: pollEvents 600
  ++ [ EConsoleLog [lit "[MAINTENANCE] Waiting for script to complete..."];
       ESleep 2000;
       EShell (maintenanceSendKeys);
       EConsoleLog [lit "[MAINTENANCE] Starting maintenance script..."] ].

End WithWorld.

End Orchestrator.

(** ** A simulated workspace, for running the orchestrator on concrete inputs *)

Module Sim.
Import Launcher Orchestrator.

(** What happens in the workspace.  The state of the simulated world is the
    time slept so far, in milliseconds. *)
Record Workspace : Type := {
  sessionUp : bool;
  (** the maintenance exit-code file is there once this much time has
      passed; [None]: it never appears *)
  maintenanceDoneAfter : option Z;
  maintenanceExitText : jsstring;
  maintenanceLog : option jsstring;
  (** content of the dev exit-code file when the dev script exits early *)
  devExitText : option jsstring;
  devLog : option jsstring;
  windowList : jsstring;
  (** status of the control plane's answer, or a network failure *)
  reportStatus : outcome Z
}.

Definition fileOf (cfg : OrchestratorScriptConfig) (b : Workspace) (now : Z) (p : jsstring)
  : option jsstring :=
  if eqb p (maintenanceExitCodePath cfg) then
    match maintenanceDoneAfter b with
    | Some t => if (t <=? now)%Z then Some (maintenanceExitText b) else None
    | None => None
    end
  else if eqb p (maintenanceErrorLogPath cfg) then maintenanceLog b
  else if eqb p (devExitCodePath cfg) then devExitText b
  else if eqb p (devErrorLogPath cfg) then devLog b
  else None.

Definition simEnv (cfg : OrchestratorScriptConfig) (b : Workspace) : Env Z :=
  {| shell := fun c now =>
       (match c with
        | TmuxHasSession =>
            if sessionUp b then Returned {| exitCode := 0; text := [] |}
            else Raised (ErrorObj (lit "Failed with exit code 1"))
        | TmuxListWindows => Returned {| exitCode := 0; text := windowList b |}
        | _ => Returned {| exitCode := 0; text := [] |}
        end, now);
     fileExists := fun p now =>
       (match fileOf cfg b now p with Some _ => true | None => false end, now);
     fileText := fun p now =>
       (match fileOf cfg b now p with
        | Some c => Returned c
        | None => Raised (ErrorObj (lit "ENOENT: no such file or directory"))
        end, now);
     sleep := fun ms now => (now + ms)%Z;
     fetch := fun _ now =>
       (match reportStatus b with
        | Returned st => Returned {| status := st |}
        | Raised e => Raised e
        end, now);
     responseText := fun now => (Returned (lit "ok"), now) |}.

Definition runId : jsstring := lit "mh2k9x1a_4fj20dkq".

(** Scenario A of the specification: maintenance text [exit 3], dev text
    [sleep 9999]. *)
Definition scenarioArgs : Args :=
  {| maintenanceScript := Some (lit "exit 3");
     devScript := Some (lit "sleep 9999");
     identifiers := None;
     argConvexUrl := Some (lit "https://example.convex.site");
     argTaskRunJwt := Some (lit "jwt") |}.

Definition scenarioConfig : OrchestratorScriptConfig := configOf scenarioArgs runId.

Definition windows : jsstring :=
  lit "0: zsh* (1 panes)" ++ [LF] ++ lit "1: maintenance- (1 panes)" ++ [LF]
  ++ lit "2: dev (1 panes)".

(** Maintenance exits with status 3 after three seconds. *)
Definition failingWorkspace : Workspace :=
  {| sessionUp := true;
     maintenanceDoneAfter := Some 3000%Z;
     maintenanceExitText := lit "3" ++ [LF];
     maintenanceLog := Some (lit "+ cd /root/workspace" ++ [LF] ++ lit "+ exit 3" ++ [LF]);
     devExitText := None;
     devLog := None;
     windowList := windows;
     reportStatus := Returned 200%Z |}.

(** Maintenance never writes its exit code. *)
Definition hangingWorkspace : Workspace :=
  {| sessionUp := true;
     maintenanceDoneAfter := None;
     maintenanceExitText := [];
     maintenanceLog := None;
     devExitText := None;
     devLog := None;
     windowList := windows;
     reportStatus := Returned 200%Z |}.

(** Maintenance succeeds at once. *)
Definition cleanWorkspace : Workspace :=
  {| sessionUp := true;
     maintenanceDoneAfter := Some 0%Z;
     maintenanceExitText := lit "0" ++ [LF];
     maintenanceLog := Some (lit "+ true" ++ [LF]);
     devExitText := None;
     devLog := None;
     windowList := windows;
     reportStatus := Returned 200%Z |}.

(** The exit-code file holds no number. *)
Definition garbledWorkspace : Workspace :=
  {| sessionUp := true;
     maintenanceDoneAfter := Some 0%Z;
     maintenanceExitText := lit "oops" ++ [LF];
     maintenanceLog := None;
     devExitText := None;
     devLog := None;
     windowList := windows;
     reportStatus := Returned 200%Z |}.

(** Maintenance fails and the control plane rejects the report. *)
Definition rejectingWorkspace : Workspace :=
  {| sessionUp := true;
     maintenanceDoneAfter := Some 3000%Z;
     maintenanceExitText := lit "3" ++ [LF];
     maintenanceLog := None;
     devExitText := None;
     devLog := None;
     windowList := windows;
     reportStatus := Returned 401%Z |}.

Definition start : St unit Z Event := mkSt tt 0%Z [].

Definition failingEnv : Env Z := simEnv scenarioConfig failingWorkspace.
Definition hangingEnv : Env Z := simEnv scenarioConfig hangingWorkspace.
Definition cleanEnv : Env Z := simEnv scenarioConfig cleanWorkspace.
Definition garbledEnv : Env Z := simEnv scenarioConfig garbledWorkspace.
Definition rejectingEnv : Env Z := simEnv scenarioConfig rejectingWorkspace.

(** The state in which the main function has created the windows. *)
Definition windowsReady (env : Env Z) : St unit Z Event :=
  snd (createWindows env scenarioConfig (snd (preamble scenarioConfig start))).


(** The dev command has been typed into the dev window. *)
Definition devStarted (tr : list Event) : bool :=
  existsb (fun e =>
             match e with
             | EShell (TmuxSendKeys target _) => eqb target (lit "cmux:dev")
             | _ => false
             end) tr.

End Sim.

(** ** The VS Code serve-web supervisor *)

Module ServeWeb.

Definition SOCKET_READY_TIMEOUT_MS : Z := 15000.
Definition WARMUP_WINDOW_MS : Z := 10000.

(** A [ChildProcess] object: [killed] is set by a successful [kill()],
    [exitCode] and [signalCode] by the runtime when the process ends. *)
Record ChildProcess : Type := {
  pid : option Z;
  killed : bool;
  exitCode : option Z;
  signalCode : option jsstring
}.

(** [process] is a reference into the heap of child process objects. *)
Record VSCodeServeWebHandle : Type := {
  process : nat;
  executable : jsstring;
  socketPath : jsstring
}.

(** The module-level variables, the heap of child process objects, and
    the removals started by [stopVSCodeServeWeb] whose promise has not
    settled yet. *)
Record Globals : Type := {
  resolvedVSCodeExecutable : option jsstring;
  currentServeWebBaseUrl : option jsstring;
  currentServeWebSocketPath : option jsstring;
  heap : list ChildProcess;
  pendingUnlinks : list jsstring
}.

Inductive AccessMode : Type := F_OK | X_OK.

(** What the runtime tells the listeners of a child process. *)
Inductive ChildEvent : Type :=
| ChildExit (code : option Z) (signal : option jsstring)
| ChildError (error : exn).

Inductive Level : Type := Info | Warn | Error | Debug.

Inductive Event : Type :=
| ELog (level : Level) (args : list jsstring)
| EExecFile (command : jsstring) (args : list jsstring)
| EAccess (path : jsstring) (mode : AccessMode)
| EUnlink (path : jsstring)
| ESpawn (command : jsstring) (args : list jsstring)
| EUnref (child : nat)
| EKill (child : nat)
| EHttpGet (socket : jsstring)
| ESetTimeout (ms : Z)
| EChildExit (child : nat)
| EChildError (child : nat).

(** An event together with what the two accessors would have returned at
    the moment it happened. *)
Record Obs : Type := {
  event : Event;
  seenBaseUrl : option jsstring;
  seenSocketPath : option jsstring
}.

(** The world: a clock (milliseconds) and the rest. *)
Record World (W : Type) : Type := {
  clock : Z;
  rest : W
}.

Definition isKill (o : Obs) : bool :=
  match event o with EKill _ => true | _ => false end.

Definition isUnlinkOf (p : jsstring) (o : Obs) : bool :=
  match event o with EUnlink q => eqb p q | _ => false end.

(** The accessors returned [null] when the event happened. *)
Definition sawNothing (o : Obs) : bool :=
  match seenBaseUrl o, seenSocketPath o with
  | None, None => true
  | _, _ => false
  end.

Definition update {A} (i : nat) (f : A -> A) (l : list A) : list A :=
  firstn i l ++ match nth_error l i with
                | Some x => f x :: skipn (S i) l
                | None => []
                end.

Definition setBaseUrl (v : option jsstring) (g : Globals) : Globals :=
  {| resolvedVSCodeExecutable := resolvedVSCodeExecutable g;
     currentServeWebBaseUrl := v;
     currentServeWebSocketPath := currentServeWebSocketPath g;
     heap := heap g;
     pendingUnlinks := pendingUnlinks g |}.

Definition setSocketPath (v : option jsstring) (g : Globals) : Globals :=
  {| resolvedVSCodeExecutable := resolvedVSCodeExecutable g;
     currentServeWebBaseUrl := currentServeWebBaseUrl g;
     currentServeWebSocketPath := v;
     heap := heap g;
     pendingUnlinks := pendingUnlinks g |}.

Definition setResolved (v : option jsstring) (g : Globals) : Globals :=
  {| resolvedVSCodeExecutable := v;
     currentServeWebBaseUrl := currentServeWebBaseUrl g;
     currentServeWebSocketPath := currentServeWebSocketPath g;
     heap := heap g;
     pendingUnlinks := pendingUnlinks g |}.

Definition setHeap (h : list ChildProcess) (g : Globals) : Globals :=
  {| resolvedVSCodeExecutable := resolvedVSCodeExecutable g;
     currentServeWebBaseUrl := currentServeWebBaseUrl g;
     currentServeWebSocketPath := currentServeWebSocketPath g;
     heap := h;
     pendingUnlinks := pendingUnlinks g |}.

Definition setPending (p : list jsstring) (g : Globals) : Globals :=
  {| resolvedVSCodeExecutable := resolvedVSCodeExecutable g;
     currentServeWebBaseUrl := currentServeWebBaseUrl g;
     currentServeWebSocketPath := currentServeWebSocketPath g;
     heap := heap g;
     pendingUnlinks := p |}.

Definition markKilled (c : ChildProcess) : ChildProcess :=
  {| pid := pid c; killed := true; exitCode := exitCode c; signalCode := signalCode c |}.

Definition markExited (code : option Z) (signal : option jsstring) (c : ChildProcess)
  : ChildProcess :=
  {| pid := pid c; killed := killed c; exitCode := code; signalCode := signal |}.

(** The part of the state a caller can see: the two cached values and the
    child process objects. *)
Definition visible (g : Globals)
  : option jsstring * option jsstring * list ChildProcess :=
  (currentServeWebBaseUrl g, currentServeWebSocketPath g, heap g).

Section WithWorld.
Variable W : Type.

Record Env : Type := {
  (** [process.platform], [process.pid], [process.env.SHELL],
      [process.env.CMUX_VSCODE_PUBLIC_HOST], [os.tmpdir()] *)
  platform : jsstring;
  processPid : Z;
  envSHELL : option jsstring;
  envPublicHost : option jsstring;
  tmpdir : jsstring;
  (** whether the logger has a [debug] method *)
  hasDebug : bool;
  (** [execFileAsync(command, args)]: the standard output *)
  execFile : jsstring -> list jsstring -> W -> outcome jsstring * W;
  access : jsstring -> AccessMode -> W -> outcome unit * W;
  unlink : jsstring -> W -> outcome unit * W;
  (** [spawn]: the pid of the new process, if it could be started *)
  spawn : jsstring -> list jsstring -> W -> outcome (option Z) * W;
  (** [child.kill()]: whether the signal was delivered *)
  kill : nat -> W -> outcome bool * W;
  (** the warm-up request over the socket *)
  httpGet : jsstring -> jsstring -> W -> outcome unit * W;
  (** how long the function stays suspended at an [await], beyond the
      timer it may be waiting for *)
  elapsed : W -> N * W;
  (** the child process events that arrive while it is suspended *)
  childEvents : W -> list (nat * ChildEvent) * W
}.

Variable env : Env.

Local Abbreviation M := (M Globals (World W) Obs).

(** [process.env.CMUX_VSCODE_PUBLIC_HOST?.trim() || "cmux-vscode.local"] *)
Definition LOCAL_VSCODE_HOST : jsstring :=
  match envPublicHost env with
  | Some h => if truthy (trim h) then trim h else lit "cmux-vscode.local"
  | None => lit "cmux-vscode.local"
  end.



(** Record an event, with what the accessors return right now. *)
Definition note (e : Event) : M unit :=
  g <- getG;;
  emit {| event := e;
          seenBaseUrl := currentServeWebBaseUrl g;
          seenSocketPath := currentServeWebSocketPath g |}.

Definition askW {R} (f : W -> R * W) : M R :=
  ask (fun w => let '(r, w') := f (rest w) in (r, {| clock := clock w; rest := w' |})).

Definition tick (ms : Z) : M unit :=
  tell (fun w => {| clock := clock w + ms; rest := rest w |}).

(** [Date.now()] *)
Definition Date_now : M Z :=
  fun s => (Ok (clock (world s)), s).

Definition logger_info (msg : jsstring) : M unit := note (ELog Info [msg]).
Definition logger_warn (msg : jsstring) : M unit := note (ELog Warn [msg]).
Definition logger_warn2 (msg : jsstring) (e : exn) : M unit :=
  note (ELog Warn [msg; exn_toString e]).
Definition logger_error2 (msg : jsstring) (e : exn) : M unit :=
  note (ELog Error [msg; exn_toString e]).
(** [logger.debug?.(msg, error)] *)
Definition logger_debug2 (msg : jsstring) (e : exn) : M unit :=
  if hasDebug env then note (ELog Debug [msg; exn_toString e]) else ret tt.

Definition getChild (ref : nat) : M (option ChildProcess) :=
  g <- getG;; ret (nth_error (heap g) ref).

Definition setChild (ref : nat) (f : ChildProcess -> ChildProcess) : M unit :=
  modifyG (fun g => setHeap (update ref f (heap g)) g).

(** The listener [child.on("error", ...)] of [ensureVSCodeServeWeb]. *)
Definition onError (error : exn) : M unit :=
  logger_error2 (lit "VS Code serve-web process error:") error.

(** The listener [child.on("exit", ...)] of [ensureVSCodeServeWeb]. *)
Definition onExit (code : option Z) (signal : option jsstring) : M unit :=
  let exitMessage :=
    lit "VS Code serve-web process exited"
    ++ (match code with
        | Some n => lit " with code " ++ numberToString n
        | None => []
        end)
    ++ (match signal with
        | Some sg => if truthy sg then lit " due to signal " ++ sg else []
        | None => []
        end)
    ++ lit "." in
  (match code, truthy_opt signal with
   | Some 0%Z, false => logger_info exitMessage
   | _, _ => logger_warn exitMessage
   end);;
  g <- getG;;
  (if truthy_opt (currentServeWebBaseUrl g) then
     logger_info (lit "Clearing cached VS Code serve-web base URL");;
     modifyG (setBaseUrl None)
   else ret tt);;
  modifyG (setSocketPath None).

(** [.catch] callback of the removal started by [stopVSCodeServeWeb]. *)
Definition unlinkRejected (path : jsstring) (error : exn) : M unit :=
  if isENOENT error then ret tt
  else logger_warn2 (lit "Failed to remove VS Code serve-web socket at " ++ path ++ lit ":") error.

(** The runtime delivers one child process event: it updates the child
    object, then calls the listener. *)
Definition deliver (ev : nat * ChildEvent) : M unit :=
  let '(ref, e) := ev in
  c <- getChild ref;;
  match c with
  | None => ret tt
  | Some _ =>
      match e with
      | ChildExit code signal =>
          setChild ref (markExited code signal);;
          note (EChildExit ref);;
          onExit code signal
      | ChildError error =>
          note (EChildError ref);;
          onError error
      end
  end.

Fixpoint deliverAll (evs : list (nat * ChildEvent)) : M unit :=
  match evs with
  | [] => ret tt
  | ev :: r => deliver ev;; deliverAll r
  end.

(** The removals in flight settle: each promise is fulfilled or rejected
    and its callback runs. *)
Fixpoint settleAll (paths : list jsstring) : M unit :=
  match paths with
  | [] => ret tt
  | p :: r =>
      o <- askW (unlink env p);;
      (match o with
       | Returned _ => ret tt
       | Raised error => unlinkRejected p error
       end);;
      settleAll r
  end.

Definition settlePending : M unit :=
  g <- getG;;
  modifyG (setPending []);;
  settleAll (pendingUnlinks g).

(** The function is suspended: time passes and the event loop runs the
    callbacks that are due. *)
Definition yield : M unit :=
  dt <- askW (elapsed env);;
  tick (Z.of_N dt);;
  settlePending;;
  evs <- askW (childEvents env);;
  deliverAll evs.

(** [await op] *)
Definition await {R} (op : W -> outcome R * W) : M R :=
  o <- askW op;;
  yield;;
  match o with
  | Returned r => ret r
  | Raised e => throw e
  end.

(** [await new Promise((resolve) => setTimeout(resolve, ms))] *)
Definition setTimeout (ms : Z) : M unit :=
  note (ESetTimeout ms);;
  tick ms;;
  yield.

Definition dropTrailingCR (s : jsstring) : jsstring :=
  match rev s with
  | 13%N :: r => rev r
  | _ => s
  end.

(** [s.split(/\r?\n/)] *)
Definition splitLines (s : jsstring) : list jsstring :=
  let parts := split LF s in
  map dropTrailingCR (removelast parts) ++ [last parts []].

(** [stdout.split(/\r?\n/).map((line) => line.trim()).find((line) =>
    line.length > 0)] *)
Definition candidateOf (out : jsstring) : option jsstring :=
  find truthy (map trim (splitLines out)).

Definition isWin32 : bool := eqb (platform env) (lit "win32").

Definition lookups : list (jsstring * list jsstring) :=
  if isWin32 then
    [ (lit "where", [lit "code.cmd"]);
      (lit "where", [lit "code.exe"]);
      (lit "where", [lit "code"]) ]
  else [ (lit "/usr/bin/env", [lit "which"; lit "code"]) ].

(** The [for (const { command, args } of lookups)] loop. *)
Fixpoint tryLookups (l : list (jsstring * list jsstring)) : M unit :=
  match l with
  | [] => ret tt
  | (command, args) :: r =>
      found <-
        try_catch
          (note (EExecFile command args);;
           out <- await (execFile env command args);;
           match candidateOf out with
           | Some candidate =>
               modifyG (setResolved (Some candidate));;
               logger_info (lit "Resolved VS Code CLI executable: " ++ candidate);;
               ret true
           | None => ret false
           end)
          (fun error =>
             logger_debug2 (lit "VS Code CLI lookup with " ++ command ++ lit " failed:") error;;
             ret false);;
      if (found : bool) then ret tt else tryLookups r
  end.

Definition resolveVSCodeExecutable : M (option jsstring) :=
  g <- getG;;
  if truthy_opt (resolvedVSCodeExecutable g) then ret (resolvedVSCodeExecutable g)
  else
    tryLookups lookups;;
    g <- getG;;
    (match envSHELL env with
     | Some shell =>
         if negb (truthy_opt (resolvedVSCodeExecutable g)) && truthy shell then
           try_catch
             (note (EExecFile shell [lit "-lc"; lit "command -v code"]);;
              out <- await (execFile env shell [lit "-lc"; lit "command -v code"]);;
              match candidateOf out with
              | Some candidate =>
                  modifyG (setResolved (Some candidate));;
                  logger_info (lit "Resolved VS Code CLI executable via shell lookup: " ++ candidate)
              | None => ret tt
              end)
             (fun error =>
                logger_debug2 (lit "VS Code CLI SHELL lookup failed (" ++ shell ++ lit "):") error)
         else ret tt
     | None => ret tt
     end);;
    g <- getG;;
    ret (resolvedVSCodeExecutable g).

Definition getVSCodeExecutable : M (option jsstring) :=
  logger_info (lit "Attempting to resolve VS Code CLI executable for serve-web.");;
  executable <- resolveVSCodeExecutable;;
  match executable with
  | None => ret None
  | Some exe =>
      if negb (truthy exe) then ret None
      else
        try_catch
          ((if negb isWin32
            then note (EAccess exe X_OK);; await (access env exe X_OK)
            else ret tt);;
           ret (Some exe))
          (fun error =>
             logger_error2 (lit "VS Code CLI at " ++ exe ++ lit " is not executable:") error;;
             ret None)
  end.

(** [path.join(tmpdir(), `cmux-vscode-${process.pid}-${Date.now()}.sock`)] *)
Definition createSocketPath : M jsstring :=
  now <- Date_now;;
  ret (tmpdir env ++ lit "/cmux-vscode-" ++ numberToString (processPid env)
       ++ lit "-" ++ numberToString now ++ lit ".sock").

Definition removeStaleSocket (path : jsstring) : M unit :=
  try_catch
    (note (EUnlink path);;
     await (unlink env path);;
     logger_info (lit "Removed stale VS Code serve-web socket at " ++ path))
    (fun error =>
       if isENOENT error then ret tt
       else logger_debug2 (lit "Failed to remove stale VS Code serve-web socket:") error).

Definition socketTimeoutError (path : jsstring) : exn :=
  ErrorObj (lit "VS Code serve-web socket " ++ path ++ lit " was not ready within "
            ++ numberToString SOCKET_READY_TIMEOUT_MS ++ lit " ms").

(** The [while (Date.now() < deadline)] loop of [waitForSocket].  Every
    iteration that continues lasts at least 100 ms, so the loop runs at
    most [deadline - now] times: [fuel] starts at that bound and never
    runs out (lemma [waitForSocket_loop_fuel]). *)
Fixpoint waitForSocket_loop (fuel : nat) (path : jsstring) (deadline : Z) : M unit :=
  now <- Date_now;;
  if (now <? deadline)%Z then
    match fuel with
    | O => throw (ThrownValue (lit "unreachable"))
    | S fuel' =>
        ready <-
          try_catch
            (note (EAccess path F_OK);;
             await (access env path F_OK);;
             ret true)
            (fun error =>
               if isENOENT error then setTimeout 100;; ret false
               else throw error);;
        if (ready : bool) then ret tt
        else waitForSocket_loop fuel' path deadline
    end
  else throw (socketTimeoutError path).

Definition waitForSocket (path : jsstring) : M unit :=
  now <- Date_now;;
  let deadline := (now + SOCKET_READY_TIMEOUT_MS)%Z in
  waitForSocket_loop (Z.to_nat SOCKET_READY_TIMEOUT_MS) path deadline.

(** The [while (Date.now() < warmupDeadline)] loop of
    [warmUpVSCodeServeWeb]; the result says whether a request completed. *)
Fixpoint warmUp_loop (fuel : nat) (path : jsstring) (deadline : Z) : M bool :=
  now <- Date_now;;
  if (now <? deadline)%Z then
    match fuel with
    | O => throw (ThrownValue (lit "unreachable"))
    | S fuel' =>
        done <-
          try_catch
            (note (EHttpGet path);;
             await (httpGet env path LOCAL_VSCODE_HOST);;
             logger_info (lit "VS Code serve-web warm-up succeeded.");;
             ret true)
            (fun error =>
               logger_debug2 (lit "VS Code serve-web warm-up attempt failed:") error;;
               setTimeout 500;;
               ret false);;
        if (done : bool) then ret true
        else warmUp_loop fuel' path deadline
    end
  else ret false.

Definition warmUpVSCodeServeWeb (path : jsstring) : M unit :=
  now <- Date_now;;
  let warmupDeadline := (now + WARMUP_WINDOW_MS)%Z in
  done <- warmUp_loop (Z.to_nat WARMUP_WINDOW_MS) path warmupDeadline;;
  if (done : bool) then ret tt
  else logger_warn (lit "VS Code serve-web did not respond with HTTP 200 during warm-up window.").

(** [child.kill()]: a delivered signal marks the child as killed. *)
Definition child_kill (ref : nat) : M bool :=
  note (EKill ref);;
  delivered <- perform (fun w =>
                 let '(r, w') := kill env ref (rest w) in
                 (r, {| clock := clock w; rest := w' |}));;
  (if (delivered : bool) then setChild ref markKilled else ret tt);;
  ret delivered.

(** [!child.killed && child.exitCode === null] *)
Definition notKilledNoExitCode (c : ChildProcess) : bool :=
  negb (killed c) && match exitCode c with None => true | Some _ => false end.

(** The [catch] block of [ensureVSCodeServeWeb]; [child] is [null] when
    the failure came before [spawn] returned. *)
Definition launchFailed (child : option nat) (path : jsstring) (error : exn)
  : M (option VSCodeServeWebHandle) :=
  logger_error2 (lit "Failed to launch VS Code serve-web via unix socket:") error;;
  (match child with
   | Some ref =>
       c <- getChild ref;;
       match c with
       | Some c =>
           if notKilledNoExitCode c then
             try_catch
               (child_kill ref;; ret tt)
               (fun killError =>
                  logger_warn2 (lit "Failed to terminate VS Code serve-web after launch failure:")
                    killError)
           else ret tt
       | None => ret tt
       end
   | None => ret tt
   end);;
  try_catch
    (note (EUnlink path);; await (unlink env path))
    (fun _ => ret tt);;
  modifyG (setBaseUrl None);;
  modifyG (setSocketPath None);;
  ret None.

Definition serveWebArgs (path : jsstring) : list jsstring :=
  [ lit "serve-web"; lit "--accept-server-license-terms";
    lit "--without-connection-token"; lit "--socket-path"; path ].

(** First part of the [try] block: up to the assignment of [child].  (The
    piping of the child's output to the logger, which only logs, is left
    out.) *)
Definition spawnServeWeb (exe path : jsstring) : M nat :=
  removeStaleSocket path;;
  logger_info (lit "Starting VS Code serve-web using executable " ++ exe
               ++ lit " with socket " ++ path ++ lit "...");;
  note (ESpawn exe (serveWebArgs path));;
  p <- perform (fun w =>
         let '(r, w') := spawn env exe (serveWebArgs path) (rest w) in
         (r, {| clock := clock w; rest := w' |}));;
  g <- getG;;
  let ref := List.length (heap g) in
  modifyG (setHeap (heap g ++ [{| pid := p; killed := false;
                                  exitCode := None; signalCode := None |}]));;
  ret ref.

(** The rest of the [try] block: the listeners are attached (from here on
    [deliver] calls them), then the socket is awaited. *)
Definition awaitServeWeb (ref : nat) (exe path : jsstring)
  : M (option VSCodeServeWebHandle) :=
  note (EUnref ref);;
  waitForSocket path;;
  modifyG (setSocketPath (Some path));;
  let baseUrl := lit "http://" ++ LOCAL_VSCODE_HOST in
  modifyG (setBaseUrl (Some baseUrl));;
  c <- getChild ref;;
  logger_info (lit "VS Code serve-web ready at " ++ baseUrl ++ lit " (pid "
               ++ (match c with
                   | Some {| pid := Some n |} => numberToString n
                   | _ => lit "unknown"
                   end) ++ lit ").");;
  warmUpVSCodeServeWeb path;;
  ret (Some {| process := ref; executable := exe; socketPath := path |}).

(** [let child = null; try { ... } catch (error) { ... }]: the handler
    sees the child when the failure comes after [spawn] returned. *)
Definition launch (exe path : jsstring) : M (option VSCodeServeWebHandle) :=
  try_catch
    (ref <- spawnServeWeb exe path;;
     try_catch (awaitServeWeb ref exe path) (launchFailed (Some ref) path))
    (launchFailed None path).

Definition ensureVSCodeServeWeb : M (option VSCodeServeWebHandle) :=
  logger_info (lit "Ensuring VS Code serve-web availability...");;
  executable <- getVSCodeExecutable;;
  match executable with
  | None =>
      logger_warn (lit "VS Code CLI executable unavailable; serve-web will not be launched.");;
      ret None
  | Some exe =>
      if negb (truthy exe) then
        logger_warn (lit "VS Code CLI executable unavailable; serve-web will not be launched.");;
        ret None
      else if isWin32 then
        logger_warn (lit "Unix socket mode for VS Code serve-web is unavailable on Windows; skipping launch.");;
        ret None
      else
        path <- createSocketPath;;
        launch exe path
  end.

(** [child.killed || child.exitCode !== null || child.signalCode !== null] *)
Definition gone (c : ChildProcess) : bool :=
  killed c
  || match exitCode c with Some _ => true | None => false end
  || match signalCode c with Some _ => true | None => false end.

Definition stopVSCodeServeWeb (handle : option VSCodeServeWebHandle) : M unit :=
  match handle with
  | None => ret tt
  | Some h =>
      modifyG (setBaseUrl None);;
      modifyG (setSocketPath None);;
      (* void unlink(socketPath).catch(...): started now, settled later *)
      note (EUnlink (socketPath h));;
      modifyG (fun g => setPending (pendingUnlinks g ++ [socketPath h]) g);;
      c <- getChild (process h);;
      match c with
      | None => ret tt
      | Some c =>
          if gone c then ret tt
          else
            logger_info (lit "Stopping VS Code serve-web process...");;
            try_catch
              (child_kill (process h);; ret tt)
              (fun error =>
                 logger_error2 (lit "Failed to stop VS Code serve-web process:") error)
      end
  end.

(** The observation recorded for event [e] in state [s]. *)
Definition obsOf (e : Event) (s : St Globals (World W) Obs) : Obs :=
  {| event := e;
     seenBaseUrl := currentServeWebBaseUrl (prog s);
     seenSocketPath := currentServeWebSocketPath (prog s) |}.

(** The [kill()] the [catch] block of [ensureVSCodeServeWeb] issues. *)
Definition expectedKill (child : option nat) (g : Globals) : list Event :=
  match child with
  | Some ref =>
      match nth_error (heap g) ref with
      | Some c => if notKilledNoExitCode c then [EKill ref] else []
      | None => []
      end
  | None => []
  end.

(** The kill [stopVSCodeServeWeb] issues, and the heap it leaves. *)
Definition stopKill (ref : nat) (g : Globals) : list Event :=
  match nth_error (heap g) ref with
  | Some c => if gone c then [] else [EKill ref]
  | None => []
  end.

Definition heapAfterStop (ref : nat) (s : St Globals (World W) Obs) : list ChildProcess :=
  match nth_error (heap (prog s)) ref with
  | Some c =>
      if gone c then heap (prog s)
      else match fst (kill env ref (rest (world s))) with
           | Returned true => update ref markKilled (heap (prog s))
           | _ => heap (prog s)
           end
  | None => heap (prog s)
  end.

(** Events other than a [kill()]. *)
Definition notKill (o : Obs) : Prop := isKill o = false.

(** The clock never goes back during [m]. *)
Definition monotone {A} (m : M A) : Prop :=
  forall s r s', m s = (r, s') -> (clock (world s) <= clock (world s'))%Z.

(** One round of the loop of [warmUpVSCodeServeWeb]. *)
Definition probeOnce (path : jsstring) : M bool :=
  try_catch
    (note (EHttpGet path);;
     await (httpGet env path LOCAL_VSCODE_HOST);;
     logger_info (lit "VS Code serve-web warm-up succeeded.");;
     ret true)
    (fun error =>
       logger_debug2 (lit "VS Code serve-web warm-up attempt failed:") error;;
       setTimeout 500;;
       ret false).

(** One round of the loop of [waitForSocket]. *)
Definition pollSocket (path : jsstring) : M bool :=
  try_catch
    (note (EAccess path F_OK);;
     await (access env path F_OK);;
     ret true)
    (fun error =>
       if isENOENT error then setTimeout 100;; ret false
       else throw error).

End WithWorld.

End ServeWeb.

(** ** A simulated host, for running the supervisor on concrete inputs *)

Module HostSim.
Import ServeWeb.

(** The state of the simulated host is the number of times the supervisor
    has been suspended so far. *)
Record Host : Type := {
  (** what [child.kill()] does *)
  killOutcome : outcome bool;
  (** the suspension during which the first child exits with code 1 *)
  crashAt : option nat;
  (** the suspension from which on the socket file is there *)
  socketAt : option nat;
  (** whether the warm-up request is answered *)
  probeAnswered : bool
}.

Definition hostEnv (h : Host) : Env nat :=
  {| platform := lit "linux";
     processPid := 4242;
     envSHELL := None;
     envPublicHost := None;
     tmpdir := lit "/tmp";
     hasDebug := false;
     execFile := fun _ _ w => (Returned (lit "/usr/bin/code" ++ [LF]), w);
     access := fun _ mode w =>
       (match mode with
        | X_OK => Returned tt
        | F_OK =>
            match socketAt h with
            | Some k =>
                if (k <=? w)%nat then Returned tt
                else Raised (ErrnoError (lit "ENOENT") (lit "no such file or directory"))
            | None => Raised (ErrnoError (lit "ENOENT") (lit "no such file or directory"))
            end
        end, w);
     unlink := fun _ w =>
       (Raised (ErrnoError (lit "ENOENT") (lit "no such file or directory")), w);
     spawn := fun _ _ w => (Returned (Some 5151%Z), w);
     kill := fun _ w => (killOutcome h, w);
     httpGet := fun _ _ w =>
       (if probeAnswered h then Returned tt
        else Raised (ErrorObj (lit "connect ECONNREFUSED")), w);
     elapsed := fun w => (0%N, S w);
     childEvents := fun w =>
       (match crashAt h with
        | Some k => if (k =? w)%nat then [(0%nat, ChildExit (Some 1%Z) None)] else []
        | None => []
        end, w) |}.

(** The server comes up; signals are delivered. *)
Definition healthy : Host :=
  {| killOutcome := Returned true; crashAt := None;
     socketAt := Some 4%nat; probeAnswered := true |}.

(** The server comes up; [kill()] reports that no signal was delivered. *)
Definition unkillable : Host :=
  {| killOutcome := Returned false; crashAt := None;
     socketAt := Some 4%nat; probeAnswered := true |}.

(** The server comes up; [kill()] throws. *)
Definition killThrows : Host :=
  {| killOutcome := Raised (ErrnoError (lit "EINVAL") (lit "kill EINVAL"));
     crashAt := None; socketAt := Some 4%nat; probeAnswered := true |}.

(** The server starts but never creates its socket. *)
Definition hung : Host :=
  {| killOutcome := Returned true; crashAt := None;
     socketAt := None; probeAnswered := false |}.

(** The server exits with code 1 soon after it was started. *)
Definition crashing : Host :=
  {| killOutcome := Returned true; crashAt := Some 5%nat;
     socketAt := None; probeAnswered := false |}.

Definition boot : St Globals (World nat) Obs :=
  mkSt {| resolvedVSCodeExecutable := None;
          currentServeWebBaseUrl := None;
          currentServeWebSocketPath := None;
          heap := [];
          pendingUnlinks := [] |}
       {| clock := 1700000000000; rest := 0%nat |}
       [].

(** The state in which [ensureVSCodeServeWeb] has brought the server up,
    and the handle it returned. *)
Definition serving (h : Host) : St Globals (World nat) Obs :=
  snd (ensureVSCodeServeWeb (hostEnv h) boot).

Definition theHandle : VSCodeServeWebHandle :=
  {| process := 0;
     executable := lit "/usr/bin/code";
     socketPath := lit "/tmp/cmux-vscode-4242-1700000000000.sock" |}.

(** The [kill()] calls recorded in a trace, oldest first. *)
Definition kills (tr : list Obs) : list Event :=
  List.map event (filter isKill (rev tr)).

End HostSim.

(** ** More shapes of behaviour *)

Module EffMore.

Section Behaviours.
Variables G W Ev : Type.

(** [stops P m]: [m] never returns normally; it throws or ends the
    process. *)
Definition stops {A} (P : Ev -> Prop) (m : M G W Ev A) : Prop :=
  forall s, exists r s' l,
    m s = (r, s') /\ trace s' = l ++ trace s /\ Forall P l
    /\ (forall a, r <> Ok a).

(** [results Q m]: whatever [m] returns satisfies [Q]. *)
Definition results {A} (Q : A -> Prop) (m : M G W Ev A) : Prop :=
  forall s r s', m s = (r, s') -> match r with Ok a => Q a | _ => True end.

(** [related R m]: [R] relates the state before [m] to the state after. *)
Definition related {A} (R : St G W Ev -> St G W Ev -> Prop) (m : M G W Ev A) : Prop :=
  forall s r s', m s = (r, s') -> R s s'.

End Behaviours.

Arguments stops {G W Ev A} P m.
Arguments results {G W Ev A} Q m.
Arguments related {G W Ev A} R m.

End EffMore.

(** ** What a run of the orchestrator touches *)

Module OrchestratorObs.
Import Launcher Orchestrator.

(** The time the program asked [Bun.sleep] for, in milliseconds. *)
Fixpoint slept (tr : list Event) : Z :=
  match tr with
  | [] => 0
  | ESleep ms :: r => ms + slept r
  | _ :: r => slept r
  end.

(** The events of [n] unsuccessful probes for the tmux session, newest
    first. *)
Definition probeEvents (n : nat) : list Event :=
  List.concat (repeat [ESleep 500; EShell TmuxHasSession] n).

(** Nothing is typed into a window and no request is sent. *)
Definition idle (e : Event) : Prop :=
  match e with
  | EShell (TmuxSendKeys _ _) | EFetch _ => False
  | _ => True
  end.

(** The paths of the files the program looks for, reads or removes,
    oldest first. *)
Definition touched (tr : list Event) : list jsstring :=
  flat_map (fun e => match e with
                     | EFileExists p | EFileText p | EShell (RmForce p) => [p]
                     | _ => []
                     end) (rev tr).

Section WithConfig.
Variable cfg : OrchestratorScriptConfig.

(** The files of the run the configuration names. *)
Definition ownFiles : list jsstring :=
  [ maintenanceExitCodePath cfg; maintenanceErrorLogPath cfg;
    devExitCodePath cfg; devErrorLogPath cfg ].

(** The event concerns only the windows and files of this run: a window
    is created or typed into only for a script that is present, and with
    the command of that script; a file looked for or read is one of the
    run's own; a file removed is one of its exit-code files; a request goes
    to the report endpoint. *)
Definition confined (e : Event) : Prop :=
  match e with
  | EShell (TmuxNewWindow name) =>
      (hasMaintenanceScript cfg = true /\ name = maintenanceWindowName cfg)
      \/ (hasDevScript cfg = true /\ name = devWindowName cfg)
  | EShell (TmuxSendKeys target keys) =>
      (hasMaintenanceScript cfg = true
       /\ TmuxSendKeys target keys = maintenanceSendKeys cfg)
      \/ (hasDevScript cfg = true /\ TmuxSendKeys target keys = devSendKeys cfg)
  | EShell (RmForce p) => p = maintenanceExitCodePath cfg \/ p = devExitCodePath cfg
  | EFileExists p | EFileText p => In p ownFiles
  | EFetch req => url req = convexUrl cfg ++ REPORT_PATH
  | _ => True
  end.

(** Both fields of a stage result tell the same story: the exit code is 0
    exactly when there is no error, and an error is never the empty
    string. *)
Definition coherentResult (r : MaintenanceResult) : Prop :=
  (mExitCode r = 0%Z <-> mError r = None)
  /\ (forall e, mError r = Some e -> truthy e = true).

Definition coherentDevResult (d : DevResult) : Prop :=
  forall e, dError d = Some e -> truthy e = true.




End WithConfig.

Section WithWorld.
Variable W : Type.

(** [m] asks for at most [n] milliseconds of sleep. *)
Definition sleepsAtMost {A} (n : Z) (m : M unit W Event A) : Prop :=
  forall s r s', m s = (r, s') -> (slept (trace s') <= slept (trace s) + n)%Z.

(** The environment [env] with the outcome of some shell commands fixed
    by [f]. *)
Definition overrideShell (f : ShellCmd -> option (outcome ShellOutput)) (env : Env W)
  : Env W :=
  {| shell := fun c w =>
       match f c with
       | Some o => (o, w)
       | None => shell env c w
       end;
     fileExists := fileExists env;
     fileText := fileText env;
     sleep := sleep env;
     fetch := fetch env;
     responseText := responseText env |}.

End WithWorld.

(** A workspace in which nothing can be removed. *)
Definition noRemoval (c : ShellCmd) : option (outcome ShellOutput) :=
  match c with
  | RmForce _ => Some (Raised (ErrorObj (lit "Failed with exit code 1")))
  | _ => None
  end.

(** A workspace without a tmux session. *)
Definition noSession : Sim.Workspace :=
  {| Sim.sessionUp := false;
     Sim.maintenanceDoneAfter := None;
     Sim.maintenanceExitText := [];
     Sim.maintenanceLog := None;
     Sim.devExitText := None;
     Sim.devLog := None;
     Sim.windowList := [];
     Sim.reportStatus := Returned 200%Z |}.


Definition noSessionEnv : Env Z := Sim.simEnv Sim.scenarioConfig noSession.


(** Maintenance succeeds at once, but its exit-code file cannot be
    removed. *)
Definition stuckEnv : Env Z := overrideShell noRemoval Sim.cleanEnv.

(** The configuration of another run of the same scripts. *)
Definition otherRunConfig : OrchestratorScriptConfig :=
  configOf Sim.scenarioArgs (lit "mh2k9x1b_9zq81mmc").

End OrchestratorObs.

(** ** The run identifier *)

Module RunId.

(** The digits of [Number.prototype.toString(36)]: [0]-[9], then
    [a]-[z]. *)
Definition digit36 (d : Z) : N :=
  if (d <? 10)%Z then Z.to_N (48 + d) else Z.to_N (87 + d).

(** The digits of [n], most significant first, in front of [acc]; [fuel]
    bounds the number of further digits. *)
Fixpoint toString36_loop (fuel : nat) (n : Z) (acc : jsstring) : jsstring :=
  let acc' := digit36 (n mod 36) :: acc in
  match fuel with
  | O => acc'
  | S f => if (n / 36 =? 0)%Z then acc' else toString36_loop f (n / 36) acc'
  end.

(** [n.toString(36)] for an integer [n >= 0] (which [Date.now()] is).  A
    number has at most [log2 n + 1] digits in base 36. *)
Definition toString36 (n : Z) : jsstring :=
  toString36_loop (Z.to_nat (Z.log2 n)) n [].

(** [`${Date.now().toString(36)}_${Math.random().toString(36).slice(2, 10)}`],
    given the clock reading and the digits taken from the random number. *)
Definition runIdOf (now : Z) (random : jsstring) : jsstring :=
  toString36 now ++ lit "_" ++ random.

(** The value of a character as a base-36 digit. *)
Definition digitValue36 (c : N) : Z :=
  if (c <? 58)%N then Z.of_N c - 48 else Z.of_N c - 87.

(** The number a string of base-36 digits denotes. *)
Definition value36 (s : jsstring) : Z :=
  fold_left (fun acc c => 36 * acc + digitValue36 c)%Z s 0%Z.

End RunId.

(** ** More remote instances, for running the launcher *)

Module LauncherSim.
Import Launcher.

(** An instance on which the setup command fails: [bun] is not
    installed. *)
Definition refusingEnv : Env unit :=
  {| newRunId := fun w => (lit "mh2k9x1a_4fj20dkq", w);
     exec := fun _ w =>
       (Returned {| exit_code := 127;
                    stdout := Some [];
                    stderr := Some (lit "zsh: command not found: bun" ++ [LF]) |}, w) |}.

End LauncherSim.

(** ** What the supervisor does to the processes and to its cache *)

Module ServeWebObs.
Import ServeWeb.


Definition isExecFile (o : Obs) : bool :=
  match event o with EExecFile _ _ => true | _ => false end.

(** What the event loop does on its own while a function is suspended:
    it delivers child process events and it logs. *)
Definition background (o : Obs) : bool :=
  match event o with
  | ELog _ _ | EChildExit _ | EChildError _ => true
  | _ => false
  end.



(** The two cached values go together: both are [null], or the socket
    path is set and the base URL is a non-empty string. *)
Definition paired (baseUrl socketPath : option jsstring) : Prop :=
  match baseUrl, socketPath with
  | None, None => True
  | Some u, Some _ => truthy u = true
  | _, _ => False
  end.

Definition coherent (g : Globals) : Prop :=
  paired (currentServeWebBaseUrl g) (currentServeWebSocketPath g).

(** What the accessors returned when the event happened went together. *)
Definition coherentObs (o : Obs) : Prop := paired (seenBaseUrl o) (seenSocketPath o).

Section WithWorld.
Variable W : Type.

(** The cache stays coherent from [s] to [s'], at every event in
    between too. *)
Definition staysCoherent (s s' : St Globals (World W) Obs) : Prop :=
  coherent (prog s) ->
  coherent (prog s') /\ exists l, trace s' = l ++ trace s /\ Forall coherentObs l.

(** No child process object is dropped. *)
Definition keepsChildren (s s' : St Globals (World W) Obs) : Prop :=
  (List.length (heap (prog s)) <= List.length (heap (prog s')))%nat.

(** What the event loop leaves alone while a function is suspended: the
    resolved executable and the number of child process objects. *)
Definition stable (s s' : St Globals (World W) Obs) : Prop :=
  resolvedVSCodeExecutable (prog s') = resolvedVSCodeExecutable (prog s)
  /\ List.length (heap (prog s')) = List.length (heap (prog s)).

End WithWorld.

End ServeWebObs.

(** ** More simulated hosts *)

Module HostCases.
Import ServeWeb HostSim.

(** The host [h], on which the file [code] resolves to cannot be
    executed. *)
Definition notExecutable (h : Host) : Env nat :=
  let env := hostEnv h in
  {| platform := platform env;
     processPid := processPid env;
     envSHELL := envSHELL env;
     envPublicHost := envPublicHost env;
     tmpdir := tmpdir env;
     hasDebug := hasDebug env;
     execFile := execFile env;
     access := fun p mode w =>
       match mode with
       | X_OK => (Raised (ErrnoError (lit "EACCES") (lit "permission denied")), w)
       | F_OK => access env p mode w
       end;
     unlink := unlink env;
     spawn := spawn env;
     kill := kill env;
     httpGet := httpGet env;
     elapsed := elapsed env;
     childEvents := childEvents env |}.

(** The state in which the executable has been resolved. *)
Definition resolved (env : Env nat) : St Globals (World nat) Obs :=
  snd (resolveVSCodeExecutable env boot).

End HostCases.

(** ** Waiting for the base URL *)

Module ServeWebWait.
Import ServeWeb.

Section WithWorld.
Variable W : Type.
Variable env : Env W.

(** What the other tasks of the process (a launch in progress, say) do to
    the module's variables while the caller is suspended. *)
Variable others : W -> (Globals -> Globals) * W.

Local Abbreviation M := (M Globals (World W) Obs).

(** [await new Promise((resolve) => setTimeout(resolve, ms))], with the
    other tasks running meanwhile. *)
Definition sleepAmongOthers (ms : Z) : M unit :=
  setTimeout env ms;;
  f <- askW others;;
  modifyG f.

(** The [while (Date.now() < deadline)] loop.  Every round lasts 200 ms
    or more, so one unit of [fuel] per millisecond to the deadline is
    enough. *)
Fixpoint waitForBaseUrl_loop (fuel : nat) (deadline : Z) : M (option jsstring) :=
  now <- Date_now (W := W);;
  if (now <? deadline)%Z then
    match fuel with
    | O => throw (ThrownValue (lit "unreachable"))
    | S fuel' =>
        g <- getG;;
        if truthy_opt (currentServeWebBaseUrl g) then ret (currentServeWebBaseUrl g)
        else sleepAmongOthers 200;; waitForBaseUrl_loop fuel' deadline
    end
  else g <- getG;; ret (currentServeWebBaseUrl g).

(** [timeoutMs] not given is [None]: the default is 15 seconds. *)
Definition timeoutOf (timeoutMs : option Z) : Z :=
  match timeoutMs with
  | Some t => t
  | None => 15000
  end.

Definition waitForVSCodeServeWebBaseUrl (timeoutMs : option Z) : M (option jsstring) :=
  g <- getG;;
  if truthy_opt (currentServeWebBaseUrl g) then ret (currentServeWebBaseUrl g)
  else
    now <- Date_now (W := W);;
    let deadline := (now + timeoutOf timeoutMs)%Z in
    waitForBaseUrl_loop (Z.to_nat (timeoutOf timeoutMs)) deadline.

End WithWorld.

(** A launch that completes during the third suspension of the caller. *)
Definition launchCompletes (w : nat) : (Globals -> Globals) * nat :=
  (if (w =? 3)%nat
   then fun g => setBaseUrl (Some (lit "http://cmux-vscode.local"))
                   (setSocketPath (Some (socketPath HostSim.theHandle)) g)
   else fun g => g, w).

End ServeWebWait.

(** ** The lines of the child's output *)

Module StreamLines.
Import ServeWeb.

(** [s.indexOf(c)]; [None] is -1. *)
Fixpoint indexOf (c : N) (s : jsstring) : option nat :=
  match s with
  | [] => None
  | x :: r => if (x =? c)%N then Some 0%nat else option_map S (indexOf c r)
  end.

(** The [while (newlineIndex !== -1)] loop of the [data] listener of
    [pipeStreamLines]: the lines passed to [onLine], in order, and what
    stays buffered.  Every round shortens the buffer, so its length is fuel
    enough. *)
Fixpoint drain (fuel : nat) (buffered : jsstring) : list jsstring * jsstring :=
  match indexOf LF buffered with
  | None => ([], buffered)
  | Some newlineIndex =>
      match fuel with
      | O => ([], buffered)
      | S fuel' =>
          let line := dropTrailingCR (firstn newlineIndex buffered) in
          let '(lines, rest) := drain fuel' (skipn (S newlineIndex) buffered) in
          (line :: lines, rest)
      end
  end.

(** The [data] listener: [buffered += chunk.toString()], then the loop. *)
Definition onData (buffered chunk : jsstring) : list jsstring * jsstring :=
  let buffered := buffered ++ chunk in
  drain (List.length buffered) buffered.

(** The [end] listener. *)
Definition onEnd (buffered : jsstring) : list jsstring :=
  if (0 <? List.length buffered)%nat then [dropTrailingCR buffered] else [].

(** The listeners over the life of a stream that delivers [chunks] and
    then ends: the lines passed to [onLine], in order. *)
Fixpoint listen (buffered : jsstring) (chunks : list jsstring) : list jsstring :=
  match chunks with
  | [] => onEnd buffered
  | chunk :: r =>
      let '(lines, buffered') := onData buffered chunk in
      lines ++ listen buffered' r
  end.

(** [pipeStreamLines(stream, onLine)]; a stream that is [null] or
    [undefined] is [None]. *)
Definition pipeStreamLines (stream : option (list jsstring)) : list jsstring :=
  match stream with
  | None => []
  | Some chunks => listen [] chunks
  end.




End StreamLines.

(** ** The screenshot collector: [startScreenshotCollection]

    [apps/worker/src/screenshotCollector]: the collector itself, its log
    file ([logToScreenshotCollector]), the prompt ([formatFileList],
    [buildScreenshotPrompt]) and the request to Codex
    ([runScreenshotAnalysis]).  The functions it imports from elsewhere
    ([log], [runCommandCapture], [resolveMergeBase], [parseFileList],
    [filterTextFiles], [readPrDescription]), the Codex SDK, [JSON.parse],
    [JSON.stringify] and the schema check are operations of the world:
    nothing is assumed of them. *)

Module Collector.

(** What is thrown.  The collector tells [null] and [undefined] from the
    other values ([error ?? ...]). *)
Inductive thrown : Type :=
| ThrownNull
| ThrownUndefined
| Thrown (e : exn).

(** [error instanceof Error ? error.message : String(error ?? fallback)] *)
Definition messageOr (fallback : jsstring) (error : thrown) : jsstring :=
  match error with
  | Thrown e => exn_message e
  | ThrownNull | ThrownUndefined => fallback
  end.

(** [error instanceof Error ? error.message : String(error)] *)
Definition messageOf (error : thrown) : jsstring :=
  match error with
  | Thrown e => exn_message e
  | ThrownNull => lit "null"
  | ThrownUndefined => lit "undefined"
  end.

(** What an operation of the world does. *)
Inductive answer (A : Type) : Type :=
| Gives (a : A)
| Throws (t : thrown).
Arguments Throws {A} t.

(** What a computation does: it returns, it throws, or it is still
    reading a stream of events that has not ended. *)
Inductive result (A : Type) : Type :=
| Done (a : A)
| Failed (t : thrown)
| Unfinished.
Arguments Failed {A} t.
Arguments Unfinished {A}.

Section Monad.
Variables G W Ev : Type.

Definition C (A : Type) : Type := St G W Ev -> result A * St G W Ev.

Definition done {A} (a : A) : C A := fun s => (Done a, s).

Definition andThen {A B} (m : C A) (k : A -> C B) : C B :=
  fun s =>
    match m s with
    | (Done a, s') => k a s'
    | (Failed t, s') => (Failed t, s')
    | (Unfinished, s') => (Unfinished, s')
    end.

Definition fail {A} (t : thrown) : C A := fun s => (Failed t, s).

Definition unfinished {A} : C A := fun s => (Unfinished, s).

(** [try { m } catch (error) { h error }] *)
Definition tryCatch {A} (m : C A) (h : thrown -> C A) : C A :=
  fun s =>
    match m s with
    | (Failed t, s') => h t s'
    | r => r
    end.

(** An operation of the world: it is recorded, then the world answers. *)
Definition call {A} (e : Ev) (f : W -> answer A * W) : C A :=
  fun s =>
    let '(r, w) := f (world s) in
    let s' := mkSt (prog s) w (e :: trace s) in
    match r with
    | Gives a => (Done a, s')
    | Throws t => (Failed t, s')
    end.

(** Reading the world. *)
Definition read {A} (f : W -> A * W) : C A :=
  fun s => let '(a, w) := f (world s) in (Done a, mkSt (prog s) w (trace s)).

Definition getLocals : C G := fun s => (Done (prog s), s).

Definition setLocals (g : G) : C unit :=
  fun s => (Done tt, mkSt g (world s) (trace s)).

End Monad.

Arguments done {G W Ev A} a.
Arguments andThen {G W Ev A B} m k.
Arguments fail {G W Ev A} t.
Arguments unfinished {G W Ev A}.
Arguments tryCatch {G W Ev A} m h.
Arguments call {G W Ev A} e f.
Arguments read {G W Ev A} f.
Arguments getLocals {G W Ev}.
Arguments setLocals {G W Ev} g.

Declare Scope collector_scope.
Delimit Scope collector_scope with collector.
Notation "x <- m ;; k" := (andThen m (fun x => k))
  (at level 61, m at next level, right associativity) : collector_scope.
Notation "m ;; k" := (andThen m (fun _ => k))
  (at level 61, right associativity) : collector_scope.
Local Open Scope collector_scope.

(** *** [logger.ts] *)

Definition SCREENSHOT_COLLECTOR_LOG_PATH : jsstring :=
  lit "/var/log/cmux/screenshot-collector".
Definition SCREENSHOT_COLLECTOR_DIRECTORY_URL : jsstring :=
  lit "http://localhost:39378/?folder=/var/log/cmux".

(** [dirname(SCREENSHOT_COLLECTOR_LOG_PATH)] *)
Definition SCREENSHOT_COLLECTOR_LOG_DIRECTORY : jsstring := lit "/var/log/cmux".

(** *** [prompt.ts] *)

Record PromptConfig : Type := {
  baseBranch : jsstring;
  mergeBase : jsstring;
  formattedFileList : jsstring;
  prDescription : option jsstring
}.

(** [files.map((file, index) => `${index + 1}. ${file}`)], from [index] on *)
Fixpoint numbered (index : nat) (files : list jsstring) : list jsstring :=
  match files with
  | [] => []
  | file :: r =>
      (numberToString (Z.of_nat index + 1) ++ lit ". " ++ file) :: numbered (S index) r
  end.

Definition formatFileList (files : list jsstring) : jsstring :=
  join [LF] (numbered 0 files).

Definition buildScreenshotPrompt (config : PromptConfig) : jsstring :=
  let sections :=
    [ lit "You are a release engineer evaluating repository changes to determine if screenshots need refreshing before sharing updates.";
      lit "Repository base branch: " ++ baseBranch config;
      lit "Merge base commit: " ++ mergeBase config;
      match prDescription config with
      | Some description =>
          if truthy description
          then lit "Pull request description:" ++ [LF] ++ description
          else lit "Pull request description: <none provided>"
      | None => lit "Pull request description: <none provided>"
      end;
      lit "Changed files since base:" ++ [LF] ++ formattedFileList config;
      join [LF]
        [ lit "Return a JSON object matching { hasUiChanges: boolean; uiChangesToScreenshotInstructions: string }.";
          lit "Set hasUiChanges to true when the listed files imply UI changes that should be captured.";
          lit "If hasUiChanges is true, describe exactly which UI flows or screens to capture in uiChangesToScreenshotInstructions.";
          lit "If false, respond with " ++ [34%N] ++ lit "None" ++ [34%N] ++ lit "." ] ] in
  join [LF; LF] sections.

(** *** [analysis.ts] *)

Record ScreenshotAnalysis : Type := {
  hasUiChanges : bool;
  uiChangesToScreenshotInstructions : jsstring
}.

(** The items and events of the Codex SDK, as far as the code looks at
    them; [OtherItem] and [OtherEvent] are the [default] cases. *)
Inductive ThreadItem : Type :=
| AgentMessage (text : jsstring)
| CommandExecution (status : jsstring)
| FileChange (status : jsstring)
| McpToolCall (status : jsstring)
| Reasoning
| TodoList
| WebSearch
| ErrorItem
| OtherItem.

Inductive ThreadEvent : Type :=
| ThreadStarted
| TurnStarted
| TurnCompleted
| TurnFailed (message : jsstring)
| ItemStarted (item : ThreadItem)
| ItemUpdated (item : ThreadItem)
| ItemCompleted (item : ThreadItem)
| ErrorEvent (message : jsstring)
| OtherEvent.

Definition describeThreadItem (item : ThreadItem) : jsstring :=
  match item with
  | AgentMessage _ => lit "agent_message"
  | CommandExecution status => lit "command_execution:" ++ status
  | FileChange status => lit "file_change:" ++ status
  | McpToolCall status => lit "mcp_tool_call:" ++ status
  | Reasoning => lit "reasoning"
  | TodoList => lit "todo_list"
  | WebSearch => lit "web_search"
  | ErrorItem => lit "error"
  | OtherItem => lit "unknown"
  end.

Definition describeThreadEvent (event : ThreadEvent) : jsstring :=
  match event with
  | ThreadStarted => lit "[codex] thread.started"
  | TurnStarted => lit "[codex] turn.started"
  | TurnCompleted => lit "[codex] turn.completed"
  | TurnFailed message => lit "[codex] turn.failed: " ++ message
  | ItemStarted item => lit "[codex] item.started:" ++ describeThreadItem item
  | ItemUpdated item => lit "[codex] item.updated:" ++ describeThreadItem item
  | ItemCompleted item => lit "[codex] item.completed:" ++ describeThreadItem item
  | ErrorEvent message => lit "[codex] error: " ++ message
  | OtherEvent => lit "[codex] unknown-event"
  end.

(** *** The world *)

(** A value of the object passed to [log]. *)
Inductive Data : Type :=
| DString (s : jsstring)
| DStrings (l : list jsstring)
| DAnalysis (a : ScreenshotAnalysis).

Definition Payload : Type := list (jsstring * Data).

(** The operations the collector asks of the world. *)
Inductive Event : Type :=
| EMkdir (directory : jsstring)
| EAppendFile (path content : jsstring)
| ELog (level message : jsstring) (data : Payload)
| EResolveMergeBase (workspaceDir : jsstring)
| ERunCommandCapture (command : jsstring) (args : list jsstring) (cwd : jsstring)
| EParseFileList (output : jsstring)
| EFilterTextFiles (workspaceDir mergeBase : jsstring) (changedFiles : list jsstring)
| EReadPrDescription (workspaceDir : jsstring)
(** [new Codex({ apiKey }).startThread({ workingDirectory, model })
    .runStreamed(prompt, { outputSchema })] *)
| ERunStreamed (apiKey workingDirectory model prompt : jsstring)
(** an event of the turn, received by the [for await] loop *)
| ECodexEvent (event : ThreadEvent)
(** the loop is left by a [throw]: the iterator is closed *)
| ECloseStream.

(** The local variable [prDescription] of [startScreenshotCollection]. *)
Abbreviation Locals := (option jsstring).

Section WithWorld.
Variables W Json : Type.

Record Env : Type := {
  (** [new Date().toISOString()] *)
  isoNow : W -> jsstring * W;
  (** [fs.mkdir(directory, { recursive: true })] *)
  mkdir : jsstring -> W -> answer unit * W;
  (** [fs.appendFile(path, content, { encoding: "utf8" })] *)
  appendFile : jsstring -> jsstring -> W -> answer unit * W;
  log : jsstring -> jsstring -> Payload -> W -> answer unit * W;
  resolveMergeBase : jsstring -> W -> answer (jsstring * jsstring) * W;
  runCommandCapture : jsstring -> list jsstring -> jsstring -> W -> answer jsstring * W;
  parseFileList : jsstring -> W -> answer (list jsstring) * W;
  filterTextFiles : jsstring -> jsstring -> list jsstring -> W -> answer (list jsstring) * W;
  readPrDescription : jsstring -> W -> answer (option jsstring) * W;
  (** [process.env.OPENAI_API_KEY] *)
  OPENAI_API_KEY : W -> option jsstring;
  runStreamed : jsstring -> jsstring -> jsstring -> jsstring -> W -> answer unit * W;
  (** the next event of the turn; [None] when the stream has ended *)
  nextEvent : W -> answer (option ThreadEvent) * W;
  closeStream : W -> W;
  JSON_parse : jsstring -> answer Json;
  (** [screenshotAnalysisSchema.safeParse]: the data, or the message of
      the error *)
  safeParse : Json -> ScreenshotAnalysis + jsstring;
  JSON_stringify : ScreenshotAnalysis -> jsstring
}.

Variable env : Env.

Local Abbreviation M := (C Locals W Event).

Definition logToScreenshotCollector (message : jsstring) : M unit :=
  timestamp <- read (isoNow env);;
  let logMessage := timestamp ++ lit " " ++ message ++ [LF] in
  call (EMkdir SCREENSHOT_COLLECTOR_LOG_DIRECTORY)
    (mkdir env SCREENSHOT_COLLECTOR_LOG_DIRECTORY);;
  call (EAppendFile SCREENSHOT_COLLECTOR_LOG_PATH logMessage)
    (appendFile env SCREENSHOT_COLLECTOR_LOG_PATH logMessage).

(** [log(level, message, data)] of [../logger] *)
Definition log_ (level message : jsstring) (data : Payload) : M unit :=
  call (ELog level message data) (log env level message data).

(** One [iterator.next()] of the [for await] loop. *)
Definition nextOf : M (option ThreadEvent) :=
  fun s =>
    let '(r, w) := nextEvent env (world s) in
    match r with
    | Gives (Some event) =>
        (Done (Some event), mkSt (prog s) w (ECodexEvent event :: trace s))
    | Gives None => (Done None, mkSt (prog s) w (trace s))
    | Throws t => (Failed t, mkSt (prog s) w (trace s))
    end.

(** Leaving the loop by a [throw] closes the iterator first. *)
Definition leaveLoop {A} (t : thrown) : M A :=
  fun s => (Failed t, mkSt (prog s) (closeStream env (world s)) (ECloseStream :: trace s)).

(** The [for await (const event of turn.events)] loop; [agentMessage] is
    the variable it assigns.  It reads at most [fuel] events. *)
Fixpoint consumeEvents (logEvent : jsstring -> M unit) (fuel : nat)
    (agentMessage : jsstring) : M jsstring :=
  match fuel with
  | O => unfinished
  | S fuel' =>
      next <- nextOf;;
      match next with
      | None => done agentMessage
      | Some event =>
          tryCatch (logEvent (describeThreadEvent event)) leaveLoop;;
          consumeEvents logEvent fuel'
            match event with
            | ItemCompleted (AgentMessage text) => text
            | _ => agentMessage
            end
      end
  end.

Definition CODEX_MODEL : jsstring := lit "gpt-5-codex".

Definition noResponse : jsstring := lit "Codex did not return a structured response.".
Definition parseFailed (message : jsstring) : jsstring :=
  lit "Codex response JSON parse failed: " ++ message.
Definition validationFailed (message : jsstring) : jsstring :=
  lit "Codex response validation failed: " ++ message.

Definition runScreenshotAnalysis (fuel : nat) (apiKey workspaceDir prompt : jsstring)
    (logEvent : jsstring -> M unit) : M ScreenshotAnalysis :=
  logEvent (lit "Requesting Codex screenshot summary...");;
  call (ERunStreamed apiKey workspaceDir CODEX_MODEL prompt)
    (runStreamed env apiKey workspaceDir CODEX_MODEL prompt);;
  agentMessage <- consumeEvents logEvent fuel [];;
  let finalResponse := trim agentMessage in
  if (List.length finalResponse =? 0)%nat then
    logEvent noResponse;;
    fail (Thrown (ErrorObj noResponse))
  else
    match JSON_parse env finalResponse with
    | Throws parseError =>
        let message := messageOr (lit "unknown parse error") parseError in
        logEvent (parseFailed message);;
        fail (Thrown (ErrorObj (parseFailed message)))
    | Gives parsedJson =>
        match safeParse env parsedJson with
        | inr message =>
            logEvent (validationFailed message);;
            fail (Thrown (ErrorObj (validationFailed message)))
        | inl data => done data
        end
    end.

(** *** [startScreenshotCollection.ts] *)

Definition WORKSPACE_DIR : jsstring := lit "/root/workspace".

Definition INFO : jsstring := lit "INFO".
Definition ERROR : jsstring := lit "ERROR".

(** The [try] block that reads the pull request description, with its
    [catch]. *)
Definition readDescription : M unit :=
  tryCatch
    (description <- call (EReadPrDescription WORKSPACE_DIR)
                      (readPrDescription env WORKSPACE_DIR);;
     setLocals description;;
     match description with
     | Some d =>
         if truthy d then
           logToScreenshotCollector
             (lit "PR description detected ("
              ++ numberToString (Z.of_nat (List.length d)) ++ lit " characters)")
         else
           logToScreenshotCollector
             (lit "No PR description found; proceeding without additional context")
     | None =>
         logToScreenshotCollector
           (lit "No PR description found; proceeding without additional context")
     end)
    (fun descriptionError =>
       let message := messageOr (lit "unknown PR description error") descriptionError in
       logToScreenshotCollector (lit "Failed to read PR description: " ++ message);;
       log_ ERROR (lit "Failed to read PR description for screenshots")
         [(lit "error", DString message)]).

(** The body of the [try] block of [startScreenshotCollection]. *)
Definition collect (fuel : nat) : M unit :=
  logToScreenshotCollector (lit "start-screenshot-collection triggered");;
  log_ INFO (lit "Screenshot collection trigger recorded")
    [(lit "path", DString SCREENSHOT_COLLECTOR_LOG_PATH);
     (lit "openVSCodeUrl", DString SCREENSHOT_COLLECTOR_DIRECTORY_URL)];;
  logToScreenshotCollector (lit "Determining merge base from origin HEAD branch...");;
  resolved <- call (EResolveMergeBase WORKSPACE_DIR) (resolveMergeBase env WORKSPACE_DIR);;
  let '(baseBranch, mergeBase) := resolved in
  logToScreenshotCollector
    (lit "Using merge base " ++ mergeBase ++ lit " from " ++ baseBranch);;
  changedFilesOutput <-
    call (ERunCommandCapture (lit "git")
            [lit "diff"; lit "--name-only"; mergeBase ++ lit "..HEAD"] WORKSPACE_DIR)
      (runCommandCapture env (lit "git")
         [lit "diff"; lit "--name-only"; mergeBase ++ lit "..HEAD"] WORKSPACE_DIR);;
  changedFiles <- call (EParseFileList changedFilesOutput)
                    (parseFileList env changedFilesOutput);;
  if (List.length changedFiles =? 0)%nat then
    logToScreenshotCollector (lit "No changes detected relative to " ++ baseBranch);;
    log_ INFO (lit "No diff files detected for screenshot collection")
      [(lit "baseBranch", DString baseBranch); (lit "mergeBase", DString mergeBase)]
  else
    textFiles <- call (EFilterTextFiles WORKSPACE_DIR mergeBase changedFiles)
                   (filterTextFiles env WORKSPACE_DIR mergeBase changedFiles);;
    logToScreenshotCollector
      (lit "Found " ++ numberToString (Z.of_nat (List.length textFiles))
       ++ lit " text file(s) with diffs out of "
       ++ numberToString (Z.of_nat (List.length changedFiles)) ++ lit " total");;
    if (List.length textFiles =? 0)%nat then
      logToScreenshotCollector (lit "All changed files are binary; skipping");;
      log_ INFO (lit "Changed files are binary; skipping screenshot collection")
        [(lit "baseBranch", DString baseBranch); (lit "mergeBase", DString mergeBase);
         (lit "changedFiles", DStrings changedFiles)]
    else
      logToScreenshotCollector
        (lit "Text files queued for screenshots: " ++ join (lit ", ") textFiles);;
      let formattedFileList := formatFileList textFiles in
      logToScreenshotCollector
        (lit "Files included in screenshot prompt:" ++ [LF] ++ formattedFileList);;
      log_ INFO (lit "Changed text files identified for screenshot collection")
        [(lit "baseBranch", DString baseBranch); (lit "mergeBase", DString mergeBase);
         (lit "changedFiles", DStrings changedFiles);
         (lit "textFiles", DStrings textFiles)];;
      setLocals None;;
      readDescription;;
      prDescription <- getLocals;;
      openAiApiKey <- read (fun w => (OPENAI_API_KEY env w, w));;
      match openAiApiKey with
      | Some apiKey =>
          if truthy apiKey then
            let prompt :=
              buildScreenshotPrompt
                {| baseBranch := baseBranch;
                   mergeBase := mergeBase;
                   formattedFileList := formattedFileList;
                   prDescription := prDescription |} in
            logToScreenshotCollector (lit "Codex prompt:" ++ [LF] ++ prompt);;
            analysis <- runScreenshotAnalysis fuel apiKey WORKSPACE_DIR prompt
                          logToScreenshotCollector;;
            logToScreenshotCollector (lit "Codex response: " ++ JSON_stringify env analysis);;
            log_ INFO (lit "Codex screenshot analysis completed")
              [(lit "response", DAnalysis analysis);
               (lit "baseBranch", DString baseBranch);
               (lit "mergeBase", DString mergeBase)]
          else
            logToScreenshotCollector
              (lit "OPENAI_API_KEY missing; skipping Codex screenshot instructions");;
            log_ ERROR (lit "OPENAI_API_KEY is not set; cannot analyze diffs for screenshots")
              [(lit "baseBranch", DString baseBranch); (lit "mergeBase", DString mergeBase)]
      | None =>
          logToScreenshotCollector
            (lit "OPENAI_API_KEY missing; skipping Codex screenshot instructions");;
          log_ ERROR (lit "OPENAI_API_KEY is not set; cannot analyze diffs for screenshots")
            [(lit "baseBranch", DString baseBranch); (lit "mergeBase", DString mergeBase)]
      end.

(** The [catch] block of [startScreenshotCollection]. *)
Definition collectionFailed (error : thrown) : M unit :=
  let reason := messageOr (lit "unknown error") error in
  tryCatch
    (logToScreenshotCollector (lit "start-screenshot-collection failed: " ++ reason))
    (fun logError =>
       log_ ERROR (lit "Failed to write screenshot collector error log")
         [(lit "error", DString (messageOf logError))]);;
  log_ ERROR (lit "Failed to record screenshot collection trigger")
    [(lit "path", DString SCREENSHOT_COLLECTOR_LOG_PATH);
     (lit "openVSCodeUrl", DString SCREENSHOT_COLLECTOR_DIRECTORY_URL);
     (lit "error", DString reason)];;
  fail error.

Definition startScreenshotCollection (fuel : nat) : M unit :=
  tryCatch (collect fuel) collectionFailed.

End WithWorld.

End Collector.

(** ** What is observed of a run of the collector *)

Module CollectorObs.
Import Collector.

Definition isRequest (e : Event) : bool :=
  match e with ERunStreamed _ _ _ _ => true | _ => false end.

(** The events of the turn that were received, oldest first. *)
Definition received (l : list Event) : list ThreadEvent :=
  rev (flat_map (fun e => match e with ECodexEvent event => [event] | _ => [] end) l).

(** What was handed to [fs.appendFile], oldest first. *)
Definition appended (l : list Event) : list jsstring :=
  rev (flat_map (fun e => match e with EAppendFile _ content => [content] | _ => [] end) l).

(** A line of the log file that carries [message]. *)
Definition isEntry (message content : jsstring) : Prop :=
  exists timestamp, content = timestamp ++ lit " " ++ message ++ [LF].

(** The text of the last agent message that was completed; the empty
    string when there is none. *)
Definition assigned (agentMessage : jsstring) (event : ThreadEvent) : jsstring :=
  match event with
  | ItemCompleted (AgentMessage text) => text
  | _ => agentMessage
  end.

Definition lastAgentMessage (events : list ThreadEvent) : jsstring :=
  fold_left assigned events [].

(** The four ways in which the collector returns, as it logs them. *)
Definition outcomes : list (jsstring * jsstring) :=
  [ (INFO, lit "No diff files detected for screenshot collection");
    (INFO, lit "Changed files are binary; skipping screenshot collection");
    (ERROR, lit "OPENAI_API_KEY is not set; cannot analyze diffs for screenshots");
    (INFO, lit "Codex screenshot analysis completed") ].

Definition isOutcome (e : Event) : Prop :=
  match e with
  | ELog level message _ => In (level, message) outcomes
  | _ => False
  end.

(** The entry that records the failure of a run. *)
Definition failureEntry (error : thrown) : Event :=
  ELog ERROR (lit "Failed to record screenshot collection trigger")
    [(lit "path", DString SCREENSHOT_COLLECTOR_LOG_PATH);
     (lit "openVSCodeUrl", DString SCREENSHOT_COLLECTOR_DIRECTORY_URL);
     (lit "error", DString (messageOr (lit "unknown error") error))].

(** The entry that records that the description could not be read. *)
Definition descriptionEntry (error : thrown) : Event :=
  ELog ERROR (lit "Failed to read PR description for screenshots")
    [(lit "error", DString (messageOr (lit "unknown PR description error") error))].

Section WithWorld.
Variables W Json : Type.
Variable env : Env W Json.

(** [log] threw [t]. *)
Definition logThrew (t : thrown) : Prop :=
  exists level message data w, fst (log env level message data w) = Throws t.

(** The log can be written to: neither the file system nor [log] throws. *)
Definition logWorks : Prop :=
  (forall directory w, fst (mkdir env directory w) = Gives tt)
  /\ (forall path content w, fst (appendFile env path content w) = Gives tt)
  /\ (forall level message data w, fst (log env level message data w) = Gives tt).

(** What the last part of [runScreenshotAnalysis] makes of the agent's
    message: the analysis, or the message of the error it logs and
    throws. *)
Definition verdict (agentMessage : jsstring) : ScreenshotAnalysis + jsstring :=
  let finalResponse := trim agentMessage in
  if (List.length finalResponse =? 0)%nat then inr noResponse
  else
    match JSON_parse env finalResponse with
    | Throws parseError =>
        inr (parseFailed (messageOr (lit "unknown parse error") parseError))
    | Gives parsedJson =>
        match safeParse env parsedJson with
        | inl data => inl data
        | inr message => inr (validationFailed message)
        end
    end.

(** An operation of the file system or of the Codex SDK threw [t]. *)
Definition worldThrew (t : thrown) : Prop :=
  exists w,
    (exists d, fst (mkdir env d w) = Throws t)
    \/ (exists p c, fst (appendFile env p c w) = Throws t)
    \/ (exists k d m p, fst (runStreamed env k d m p w) = Throws t)
    \/ fst (nextEvent env w) = Throws t.

(** The operations that belong to the collector's task: it writes to its
    log file only, one line at a time; it works in the workspace; the only
    command it runs is [git diff --name-only]; it asks for the text files
    only among changed files; and it asks Codex only with an API key, about
    text files that changed, naming each of them in the prompt. *)
Definition proper (e : Event) : Prop :=
  match e with
  | EMkdir directory => directory = SCREENSHOT_COLLECTOR_LOG_DIRECTORY
  | EAppendFile path content =>
      path = SCREENSHOT_COLLECTOR_LOG_PATH /\ exists message, isEntry message content
  | ELog _ _ _ => True
  | EResolveMergeBase dir => dir = WORKSPACE_DIR
  | ERunCommandCapture command args cwd =>
      command = lit "git" /\ cwd = WORKSPACE_DIR
      /\ exists mergeBase,
           args = [lit "diff"; lit "--name-only"; mergeBase ++ lit "..HEAD"]
  | EParseFileList _ => True
  | EFilterTextFiles dir _ changedFiles => dir = WORKSPACE_DIR /\ changedFiles <> []
  | EReadPrDescription dir => dir = WORKSPACE_DIR
  | ERunStreamed apiKey dir model prompt =>
      truthy apiKey = true /\ (exists w, OPENAI_API_KEY env w = Some apiKey)
      /\ dir = WORKSPACE_DIR /\ model = CODEX_MODEL
      /\ exists baseBranch mergeBase changedFiles textFiles description w,
           fst (filterTextFiles env WORKSPACE_DIR mergeBase changedFiles w) = Gives textFiles
           /\ textFiles <> []
           /\ prompt = buildScreenshotPrompt
                         {| baseBranch := baseBranch;
                            mergeBase := mergeBase;
                            formattedFileList := formatFileList textFiles;
                            prDescription := description |}
           /\ forall file, In file textFiles -> includes file prompt = true
  | ECodexEvent _ => True
  | ECloseStream => True
  end.

(** [m] finishes, and does proper operations only, none of them a
    request to Codex. *)
Definition calm {A} (m : C Locals W Event A) : Prop :=
  forall s, exists r s' l,
    m s = (r, s') /\ trace s' = l ++ trace s
    /\ Forall proper l /\ filter isRequest l = [] /\ r <> Unfinished.

(** [m] does proper operations only, at most [n] of them requests to
    Codex; it stays unfinished only when [fuel] events have been
    received. *)
Definition tame {A} (n fuel : nat) (m : C Locals W Event A) : Prop :=
  forall s, exists r s' l,
    m s = (r, s') /\ trace s' = l ++ trace s
    /\ Forall proper l /\ (List.length (filter isRequest l) <= n)%nat
    /\ (r = Unfinished -> (fuel <= List.length (received l))%nat).

(** When [m] returns, the last thing it did satisfies [Q]. *)
Definition endsWith {A} (Q : Event -> Prop) (m : C Locals W Event A) : Prop :=
  forall s a s', m s = (Done a, s') -> exists e l, trace s' = e :: l /\ Q e.

End WithWorld.

End CollectorObs.

(** ** A simulated run of the collector *)

Module CollectorSim.
Import Collector.

(** What the collector meets. *)
Record Scenario : Type := {
  changed : list jsstring;
  texts : list jsstring;
  description : answer (option jsstring);
  apiKey : option jsstring;
  (** appending to the log file fails from this line on; [None]: never *)
  logFullAfter : option nat;
  turn : list ThreadEvent
}.

(** The state of the simulated world: the lines of the log file, newest
    first, and the events of the turn still to come. *)
Record World : Type := {
  logFile : list jsstring;
  pending : list ThreadEvent
}.

(** The toy JSON values of the simulation: an analysis, or something that
    does not match the schema. *)
Inductive Json : Type :=
| JAnalysis (a : ScreenshotAnalysis)
| JOther.

Definition noSpace : exn := ErrnoError (lit "ENOSPC") (lit "ENOSPC: no space left on device, write").

Definition envOf (b : Scenario) : Env World Json :=
  {| isoNow := fun w => (lit "2025-01-01T00:00:00.000Z", w);
     mkdir := fun _ w => (Gives tt, w);
     appendFile := fun _ content w =>
       match logFullAfter b with
       | Some n =>
           if (n <=? List.length (logFile w))%nat then (Throws (Thrown noSpace), w)
           else (Gives tt, {| logFile := content :: logFile w; pending := pending w |})
       | None => (Gives tt, {| logFile := content :: logFile w; pending := pending w |})
       end;
     log := fun _ _ _ w => (Gives tt, w);
     resolveMergeBase := fun _ w => (Gives (lit "main", lit "4f2a9c1"), w);
     runCommandCapture := fun _ _ _ w => (Gives (join [LF] (changed b)), w);
     parseFileList := fun _ w => (Gives (changed b), w);
     filterTextFiles := fun _ _ _ w => (Gives (texts b), w);
     readPrDescription := fun _ w => (description b, w);
     OPENAI_API_KEY := fun _ => apiKey b;
     runStreamed := fun _ _ _ _ w => (Gives tt, {| logFile := logFile w; pending := turn b |});
     nextEvent := fun w =>
       match pending w with
       | [] => (Gives None, w)
       | event :: r => (Gives (Some event), {| logFile := logFile w; pending := r |})
       end;
     closeStream := fun w => {| logFile := logFile w; pending := [] |};
     JSON_parse := fun s =>
       if eqb s (lit "{ui}") then
         Gives (JAnalysis {| hasUiChanges := true;
                             uiChangesToScreenshotInstructions := lit "Capture the settings page" |})
       else if eqb s (lit "{}") then Gives JOther
       else Throws (Thrown (ErrorObj (lit "Unexpected token")));
     safeParse := fun j =>
       match j with
       | JAnalysis a => inl a
       | JOther => inr (lit "Required")
       end;
     JSON_stringify := fun a =>
       if hasUiChanges a then lit "{ui}" else lit "{}" |}.

Definition start : St Locals World Event :=
  mkSt None {| logFile := []; pending := [] |} [].

(** A pull request that changes a page and a picture; Codex answers. *)
Definition uiChange : Scenario :=
  {| changed := [lit "src/Settings.tsx"; lit "logo.png"];
     texts := [lit "src/Settings.tsx"];
     description := Gives (Some (lit "Adds a settings page"));
     apiKey := Some (lit "sk-test");
     logFullAfter := None;
     turn := [ThreadStarted; TurnStarted;
              ItemCompleted (AgentMessage (lit "thinking"));
              ItemCompleted (CommandExecution (lit "completed"));
              ItemCompleted (AgentMessage (lit " {ui} "));
              TurnCompleted] |}.

(** The same, but Codex says nothing. *)
Definition silentCodex : Scenario :=
  {| changed := changed uiChange;
     texts := texts uiChange;
     description := Throws ThrownNull;
     apiKey := apiKey uiChange;
     logFullAfter := None;
     turn := [ThreadStarted; TurnStarted; TurnFailed (lit "rate limited")] |}.

(** The same as [uiChange], on a disk that is full from the start. *)
Definition diskFull : Scenario :=
  {| changed := changed uiChange;
     texts := texts uiChange;
     description := description uiChange;
     apiKey := apiKey uiChange;
     logFullAfter := Some 0%nat;
     turn := turn uiChange |}.

(** The runs of these scenarios; ten events are more than any of the
    turns delivers. *)
Definition uiRun := startScreenshotCollection (envOf uiChange) 10 start.
Definition silentRun := startScreenshotCollection (envOf silentCodex) 10 start.
Definition diskFullRun := startScreenshotCollection (envOf diskFull) 10 start.

(** The run of [uiChange] reading at most three events. *)
Definition shortRun := startScreenshotCollection (envOf uiChange) 3 start.

End CollectorSim.

(** * Properties *)


Example trim_ex : trim (lit "  3 " ++ [LF]) = lit "3".
Proof. reflexivity. Qed.

Example parseInt_ex1 : parseInt10 (lit "3") = Some 3%Z.
Proof. reflexivity. Qed.

Example parseInt_ex2 : parseInt10 (lit "12abc") = Some 12%Z.
Proof. reflexivity. Qed.

Example parseInt_ex3 : parseInt10 (lit "abc") = None.
Proof. reflexivity. Qed.

Example parseInt_ex4 : parseInt10 (lit "-7") = Some (-7)%Z.
Proof. reflexivity. Qed.

Example numberToString_ex : numberToString 124 = lit "124" /\ numberToString 0 = lit "0"
  /\ numberToString (-2) = lit "-2".
Proof. repeat split; reflexivity. Qed.

Example split_join_ex :
  join [LF] (slice_last 2 (split LF (lit "a" ++ [LF] ++ lit "b" ++ [LF] ++ lit "c")))
  = lit "b" ++ [LF] ++ lit "c".
Proof. reflexivity. Qed.

(** ** Run-scoped paths *)

Module LauncherPaths.
Import Launcher.

Lemma app_inv_last_neq (a b : jsstring) (x y : N) (sa sb : jsstring) :
  x <> y -> a ++ sa ++ [x] <> b ++ sb ++ [y].
Proof.
  intros Hxy H.
  rewrite !app_assoc in H.
  apply app_inj_tail in H. destruct H as [_ H]. contradiction.
Qed.

(** Two run-scoped paths built by the same template are equal only for
    equal run ids; paths built by different templates are never equal. *)
Ltac same_template :=
  let H := fresh in
  intro H; repeat (apply app_inv_head in H);
  apply app_inv_tail in H; congruence.

Ltac other_stem :=
  let H := fresh in
  intro H; apply app_inv_head in H; vm_compute in H; discriminate H.

Ltac other_suffix :=
  let H := fresh in
  intro H; repeat (apply app_inv_head in H);
  match type of H with
  | ?r1 ++ ?s1 = ?r2 ++ ?s2 =>
      let s1' := eval vm_compute in (removelast s1) in
      let s2' := eval vm_compute in (removelast s2) in
      let x := eval vm_compute in (last s1 0%N) in
      let y := eval vm_compute in (last s2 0%N) in
      change (r1 ++ s1' ++ [x] = r2 ++ s2' ++ [y]) in H;
      revert H; apply app_inv_last_neq; discriminate
  end.

Lemma runScopedPaths_disjoint (r1 r2 p : jsstring) :
  r1 <> r2 -> In p (runScopedPaths r1) -> ~ In p (runScopedPaths r2).
Proof.
  intros Hne H1 H2.
  unfold runScopedPaths in *. simpl in H1, H2.
  unfold orchestratorScriptPathOf, maintenanceExitCodePathOf,
    maintenanceErrorLogPathOf, devExitCodePathOf, devErrorLogPathOf,
    orchestratorLogPathOf in *.
  repeat (destruct H1 as [H1 | H1]); try contradiction; subst p;
  repeat (destruct H2 as [H2 | H2]); try contradiction; revert H2;
  first [ same_template | other_stem | other_suffix ].
Qed.

End LauncherPaths.

(** ** Facts about the string primitives *)

Module JSFacts.

Lemma trimStart_blank (s : jsstring) :
  forallb isWhiteSpace s = true -> trimStart s = [].
Proof.
  induction s as [|c r IH]; simpl; [reflexivity|].
  intros H. apply andb_prop in H. destruct H as [Hc Hr].
  rewrite Hc. auto.
Qed.

Lemma trimStart_nil_blank (s : jsstring) :
  trimStart s = [] -> forallb isWhiteSpace s = true.
Proof.
  induction s as [|c r IH]; simpl; [reflexivity|].
  destruct (isWhiteSpace c); [auto | discriminate].
Qed.

(** What [trimStart] removes is white space, and what it leaves does not
    start with white space. *)
Lemma trimStart_split (s : jsstring) :
  exists ws, s = ws ++ trimStart s /\ forallb isWhiteSpace ws = true.
Proof.
  induction s as [|c r [ws [E Hws]]]; simpl.
  - exists []. auto.
  - destruct (isWhiteSpace c) eqn:Hc.
    + exists (c :: ws). simpl. rewrite Hc, Hws. split; [congruence | reflexivity].
    + exists []. auto.
Qed.

Lemma forallb_rev {A} (f : A -> bool) (l : list A) :
  forallb f (rev l) = forallb f l.
Proof.
  induction l as [|x l IH]; simpl; [reflexivity|].
  rewrite forallb_app, IH. simpl. rewrite andb_true_r. apply andb_comm.
Qed.

Lemma trimEnd_split (s : jsstring) :
  exists ws, s = trimEnd s ++ ws /\ forallb isWhiteSpace ws = true.
Proof.
  destruct (trimStart_split (rev s)) as [ws [E Hws]].
  exists (rev ws). split.
  - unfold trimEnd. rewrite <- rev_app_distr, <- E, rev_involutive. reflexivity.
  - rewrite forallb_rev. exact Hws.
Qed.

Lemma trim_blank (s : jsstring) :
  forallb isWhiteSpace s = true -> trim s = [].
Proof.
  intros H. unfold trim. rewrite (trimStart_blank _ H). reflexivity.
Qed.

Lemma trim_nil_blank (s : jsstring) :
  trim s = [] -> forallb isWhiteSpace s = true.
Proof.
  unfold trim, trimEnd. intros H.
  apply (f_equal (@rev N)) in H. rewrite rev_involutive in H. simpl in H.
  apply trimStart_nil_blank in H. rewrite forallb_rev in H.
  destruct s as [|c r]; [reflexivity|].
  simpl in *. destruct (isWhiteSpace c) eqn:Hc.
  - simpl. apply trimStart_nil_blank.
    destruct (trimStart r) as [|d t] eqn:Ht; [reflexivity|].
    exfalso. clear -Ht H.
    assert (Hd : isWhiteSpace d = true) by (simpl in H; apply andb_prop in H; tauto).
    revert Ht Hd. clear H. induction r as [|x r IH]; simpl; [discriminate|].
    destruct (isWhiteSpace x) eqn:Hx; [auto|].
    intros E. inversion E; subst. congruence.
  - simpl in H. rewrite Hc in H. discriminate.
Qed.

Lemma startsWith_spec (p s : jsstring) :
  startsWith p s = true <-> exists b, s = p ++ b.
Proof.
  revert s. induction p as [|a p IH]; intros s; simpl.
  - split; [exists s; reflexivity | reflexivity].
  - destruct s as [|c s].
    + split; [discriminate | intros [b Hb]; discriminate].
    + rewrite andb_true_iff, N.eqb_eq, IH. split.
      * intros [-> [b ->]]. exists b. reflexivity.
      * intros [b Hb]. inversion Hb. split; [reflexivity | exists b; reflexivity].
Qed.

Lemma includes_spec (p s : jsstring) :
  includes p s = true <-> exists a b, s = a ++ p ++ b.
Proof.
  induction s as [|c s IH].
  - simpl. rewrite orb_false_r, startsWith_spec. split.
    + intros [b Hb]. exists [], b. exact Hb.
    + intros [a [b Hab]]. destruct a; [exists b; exact Hab | discriminate].
  - cbn [includes]. rewrite orb_true_iff, startsWith_spec, IH. split.
    + intros [[b Hb] | [a [b Hab]]].
      * exists [], b. exact Hb.
      * exists (c :: a), b. simpl. congruence.
    + intros [a [b Hab]]. destruct a as [|x a].
      * left. exists b. exact Hab.
      * right. inversion Hab. exists a, b. reflexivity.
Qed.

(** A leading or trailing white-space character cannot be part of an
    occurrence of a pattern that starts and ends with other characters. *)
Lemma includes_drop_head (m : jsstring) (c w : N) (s : jsstring) :
  isWhiteSpace c = false -> isWhiteSpace w = true ->
  includes (c :: m) (w :: s) = includes (c :: m) s.
Proof.
  intros Hc Hw. cbn [includes startsWith].
  destruct (N.eqb_spec c w) as [->|_]; [congruence | reflexivity].
Qed.

Lemma includes_drop_last (m : jsstring) (c w : N) (s : jsstring) :
  isWhiteSpace c = false -> isWhiteSpace w = true ->
  includes (m ++ [c]) (s ++ [w]) = includes (m ++ [c]) s.
Proof.
  intros Hc Hw. apply eq_true_iff_eq. rewrite !includes_spec. split.
  - intros [a [b Hab]]. destruct b as [|y b0] using rev_ind.
    + rewrite app_nil_r, app_assoc in Hab.
      apply app_inj_tail in Hab. destruct Hab as [_ E]. congruence.
    + clear IHb0. rewrite !app_assoc in Hab. apply app_inj_tail in Hab.
      destruct Hab as [E _]. exists a, b0. rewrite E, !app_assoc. reflexivity.
  - intros [a [b Hab]]. exists a, (b ++ [w]). rewrite Hab, <- !app_assoc. reflexivity.
Qed.

Lemma includes_trimStart (m : jsstring) (c : N) (s : jsstring) :
  isWhiteSpace c = false ->
  includes (c :: m) (trimStart s) = includes (c :: m) s.
Proof.
  intros Hc. induction s as [|w s IH]; [reflexivity|].
  cbn [trimStart]. destruct (isWhiteSpace w) eqn:Hw; [|reflexivity].
  rewrite IH. symmetry. apply includes_drop_head; assumption.
Qed.

Lemma includes_trimEnd (m : jsstring) (c : N) (s : jsstring) :
  isWhiteSpace c = false ->
  includes (m ++ [c]) (trimEnd s) = includes (m ++ [c]) s.
Proof.
  intros Hc. destruct (trimEnd_split s) as [ws [E Hws]].
  rewrite E at 2. clear E. generalize (trimEnd s) as t. intros t.
  induction ws as [|w ws IH] using rev_ind.
  - rewrite app_nil_r. reflexivity.
  - rewrite forallb_app in Hws. apply andb_prop in Hws. destruct Hws as [H1 H2].
    simpl in H2. rewrite andb_true_r in H2.
    rewrite app_assoc, includes_drop_last by assumption. auto.
Qed.

(** Trimming does not change whether a string contains a pattern that
    starts and ends with characters that are not white space. *)
Lemma includes_trim (m : jsstring) (c d : N) (s : jsstring) :
  isWhiteSpace c = false -> isWhiteSpace d = false ->
  includes (c :: m ++ [d]) (trim s) = includes (c :: m ++ [d]) s.
Proof.
  intros Hc Hd. unfold trim.
  change (c :: m ++ [d]) with ((c :: m) ++ [d]).
  rewrite includes_trimEnd by assumption.
  change ((c :: m) ++ [d]) with (c :: (m ++ [d])).
  apply includes_trimStart. assumption.
Qed.

End JSFacts.

(** ** The launcher *)

Module LauncherFacts.
Import Launcher JSFacts.

Lemma hasScript_absentOrBlank (t : option jsstring) :
  hasScript t = negb (absentOrBlank t).
Proof.
  destruct t as [t|]; [|reflexivity]. simpl.
  destruct (forallb isWhiteSpace t) eqn:Hb.
  - rewrite (trim_blank _ Hb). simpl. apply andb_false_r.
  - destruct t as [|c r]; [discriminate|]. simpl truthy. simpl andb.
    destruct (trim (c :: r)) as [|x y] eqn:Ht; [|reflexivity].
    apply trim_nil_blank in Ht. congruence.
Qed.

Lemma commandPaths_generated (a : Args) (runId : jsstring) :
  commandPaths (setupAndRunCommandOf a runId) = generatedPaths (idsOf a) runId.
Proof. reflexivity. Qed.

(** C4 as stated fails: the script files of a run are not scoped by the
    run identifier, so two runs with distinct identifiers share the path of
    the maintenance script (and of the dev script). *)
Lemma script_paths_shared_across_runs :
  ~ (forall r1 r2 : jsstring, r1 <> r2 ->
       forall p, In p (generatedPaths allocateScriptIdentifiers r1) ->
                 ~ In p (generatedPaths allocateScriptIdentifiers r2)).
Proof.
  intros H.
  apply (H (lit "mh2k9x1a_4fj20dkq") (lit "mh2k9x1b_9zq81mmc")
           ltac:(discriminate)
           (scriptPath (maintenance allocateScriptIdentifiers)));
  left; reflexivity.
Qed.

(** C4, amended: for two distinct run identifiers, every path that carries
    the run identifier (orchestrator file, exit-code files, log files) of
    one run differs from every such path of the other run. *)
Theorem run_scoped_paths_distinct (r1 r2 p1 p2 : jsstring) :
  r1 <> r2 ->
  In p1 (runScopedPaths r1) -> In p2 (runScopedPaths r2) -> p1 <> p2.
Proof.
  intros Hne H1 H2 E. subst p2.
  exact (LauncherPaths.runScopedPaths_disjoint Hne H1 H2).
Qed.

Lemma run_scoped_paths_distinct_witness :
  maintenanceErrorLogPathOf (lit "mh2k9x1a_4fj20dkq")
  <> maintenanceExitCodePathOf (lit "mh2k9x1b_9zq81mmc").
Proof.
  apply (@run_scoped_paths_distinct (lit "mh2k9x1a_4fj20dkq") (lit "mh2k9x1b_9zq81mmc")).
  - discriminate.
  - vm_compute. tauto.
  - vm_compute. tauto.
Defined.

Section WithWorld.
Variable W : Type.
Variable env : Env W.

(** C3: when both script texts are absent or consist of white space only,
    the launcher returns normally at once: it asks nothing of the remote
    instance (the world is untouched, no command is executed) and its only
    action is one local console message. *)
Theorem no_scripts_no_remote_command (a : Args) (s : St unit W Event) :
  absentOrBlank (maintenanceScript a) = true ->
  absentOrBlank (devScript a) = true ->
  exists msg,
    runMaintenanceAndDevScripts env a s
    = (Ok tt, mkSt (prog s) (world s) (EConsoleLog msg :: trace s))
    /\ existsb isExec (EConsoleLog msg :: trace s) = existsb isExec (trace s).
Proof.
  intros Hm Hd. unfold runMaintenanceAndDevScripts, hasMaintenance, hasDev.
  rewrite !hasScript_absentOrBlank, Hm, Hd. simpl.
  eexists. split; reflexivity.
Qed.

Lemma marker_trim (out : option jsstring) :
  includes START_MARKER (option_trim out)
  = match out with Some o => includes START_MARKER o | None => false end.
Proof.
  destruct out as [o|]; [|reflexivity]. simpl.
  set (m := lit "ORCHESTRATOR] Started successfully in background (PID").
  change START_MARKER with (91%N :: m ++ [58%N]).
  apply includes_trim; reflexivity.
Qed.

(** C10: once the remote setup command has been run, the launcher throws
    exactly when the command exited non-zero or its standard output lacks
    the confirmation marker; it also throws when running the command
    itself throws. *)
Theorem launcher_throws_iff_start_not_confirmed
    (a : Args) (s : St unit W Event) (runId : jsstring) (w1 : W) :
  hasMaintenance a || hasDev a = true ->
  newRunId env (world s) = (runId, w1) ->
  match exec env (setupAndRunCommandOf a runId) w1 with
  | (Returned r, _) =>
      throws (runMaintenanceAndDevScripts env a s)
      <-> (exit_code r <> 0%Z \/ stdoutContains START_MARKER r = false)
  | (Raised _, _) => throws (runMaintenanceAndDevScripts env a s)
  end.
Proof.
  intros Hhas Hid.
  assert (Hif : negb (hasMaintenance a) && negb (hasDev a) = false).
  { destruct (hasMaintenance a), (hasDev a); simpl in *; congruence. }
  unfold runMaintenanceAndDevScripts. rewrite Hif.
  unfold throws, bind, try_catch, emit, ask, perform, bind, ask. simpl.
  rewrite Hid. simpl.
  destruct (exec env (setupAndRunCommandOf a runId) w1) as [[r|e] w2]; simpl.
  - unfold stdoutContains. rewrite <- marker_trim.
    destruct (Z.eqb_spec (exit_code r) 0) as [Hz|Hz]; simpl.
    + destruct (includes START_MARKER (option_trim (stdout r))); simpl.
      * split; [intros [e He]; discriminate | intros [H|H]; congruence].
      * split; [auto | intros _; eexists; reflexivity].
    + split; [auto | intros _; eexists; reflexivity].
  - eexists; reflexivity.
Qed.

End WithWorld.

Lemma no_scripts_no_remote_command_witness :
  exists msg,
    runMaintenanceAndDevScripts silentEnv blankArgs launcherStart
    = (Ok tt, mkSt tt tt [EConsoleLog msg])
    /\ existsb isExec [EConsoleLog msg] = false.
Proof.
  apply (@no_scripts_no_remote_command unit silentEnv blankArgs launcherStart);
    reflexivity.
Defined.

Lemma launcher_throws_iff_start_not_confirmed_witness :
  throws (runMaintenanceAndDevScripts silentEnv devOnlyArgs launcherStart).
Proof.
  pose proof (@launcher_throws_iff_start_not_confirmed unit silentEnv devOnlyArgs
                launcherStart (lit "mh2k9x1a_4fj20dkq") tt eq_refl eq_refl) as H.
  simpl in H. apply H. right. reflexivity.
Defined.

(** A confirmed start raises nothing. *)
Example confirmed_start_returns :
  fst (runMaintenanceAndDevScripts
         {| newRunId := fun w => (lit "mh2k9x1a_4fj20dkq", w);
            exec := fun _ w =>
              (Returned {| exit_code := 0;
                           stdout := Some (START_MARKER ++ lit " 4242)" ++ [LF]);
                           stderr := Some [] |}, w) |}
         devOnlyArgs launcherStart)
  = Ok tt.
Proof. vm_compute. reflexivity. Qed.

End LauncherFacts.

(** ** Rules for the three behaviours *)

Module EffFacts.

Section Rules.
Variables G W Ev : Type.
Variable P : Ev -> Prop.

Local Abbreviation M := (M G W Ev).

Lemma returns_safe {A} (m : M A) : returns P m -> safe P m.
Proof.
  intros H s. destruct (H s) as (a & s' & l & E & T & F).
  exists (Ok a), s', l. repeat split; try assumption. discriminate.
Qed.

Lemma returns_ret {A} (a : A) : returns P (ret a : M A).
Proof. intros s. exists a, s, []. repeat split; constructor. Qed.

Lemma returns_emit (e : Ev) : P e -> returns P (emit e : M unit).
Proof.
  intros He s. exists tt, (mkSt (prog s) (world s) (e :: trace s)), [e].
  repeat split. constructor; [assumption | constructor].
Qed.

Lemma returns_ask {R} (f : W -> R * W) : returns P (ask f : M R).
Proof.
  intros s. unfold ask. destruct (f (world s)) as [r w].
  exists r, (mkSt (prog s) w (trace s)), []. repeat split. constructor.
Qed.

Lemma returns_tell (f : W -> W) : returns P (tell f : M unit).
Proof.
  intros s. exists tt, (mkSt (prog s) (f (world s)) (trace s)), [].
  repeat split. constructor.
Qed.

Lemma returns_getG : returns P (getG : M G).
Proof. intros s. exists (prog s), s, []. repeat split. constructor. Qed.

Lemma returns_modifyG (f : G -> G) : returns P (modifyG f : M unit).
Proof.
  intros s. exists tt, (mkSt (f (prog s)) (world s) (trace s)), [].
  repeat split. constructor.
Qed.

Lemma safe_throw {A} (e : exn) : safe P (throw e : M A).
Proof.
  intros s. exists (Throw e), s, []. repeat split; try constructor. discriminate.
Qed.

Lemma returns_bind {A B} (m : M A) (k : A -> M B) :
  returns P m -> (forall a, returns P (k a)) -> returns P (bind m k).
Proof.
  intros Hm Hk s. destruct (Hm s) as (a & s1 & l1 & E1 & T1 & F1).
  destruct (Hk a s1) as (b & s2 & l2 & E2 & T2 & F2).
  exists b, s2, (l2 ++ l1). unfold bind. rewrite E1, E2.
  repeat split.
  - rewrite T2, T1. apply app_assoc.
  - apply Forall_app. split; assumption.
Qed.

Lemma safe_bind {A B} (m : M A) (k : A -> M B) :
  safe P m -> (forall a, safe P (k a)) -> safe P (bind m k).
Proof.
  intros Hm Hk s. destruct (Hm s) as (r & s1 & l1 & E1 & T1 & F1 & N1).
  unfold bind. rewrite E1. destruct r as [a|e|c].
  - destruct (Hk a s1) as (r2 & s2 & l2 & E2 & T2 & F2 & N2).
    exists r2, s2, (l2 ++ l1). repeat split; try assumption.
    + rewrite T2, T1. apply app_assoc.
    + apply Forall_app. split; assumption.
  - exists (Throw e), s1, l1. repeat split; try assumption. discriminate.
  - exfalso. exact (N1 c eq_refl).
Qed.

Lemma exits_bind {A B} (m : M A) (k : A -> M B) :
  returns P m -> (forall a, exits P (k a)) -> exits P (bind m k).
Proof.
  intros Hm Hk s. destruct (Hm s) as (a & s1 & l1 & E1 & T1 & F1).
  destruct (Hk a s1) as (c & s2 & l2 & E2 & T2 & F2).
  exists c, s2, (l2 ++ l1). unfold bind. rewrite E1, E2.
  repeat split.
  - rewrite T2, T1. apply app_assoc.
  - apply Forall_app. split; assumption.
Qed.

Lemma exits_exit {A} (c : Z) : exits P (exit c : M A).
Proof. intros s. exists c, s, []. repeat split. constructor. Qed.

Lemma safe_perform {R} (f : W -> outcome R * W) : safe P (perform f : M R).
Proof.
  intros s. unfold perform, bind, ask. destruct (f (world s)) as [[r|e] w]; simpl.
  - exists (Ok r), (mkSt (prog s) w (trace s)), []. repeat split; try constructor. discriminate.
  - exists (Throw e), (mkSt (prog s) w (trace s)), []. repeat split; try constructor. discriminate.
Qed.

Lemma returns_try_catch {A} (m : M A) (h : exn -> M A) :
  safe P m -> (forall e, returns P (h e)) -> returns P (try_catch m h).
Proof.
  intros Hm Hh s. destruct (Hm s) as (r & s1 & l1 & E1 & T1 & F1 & N1).
  unfold try_catch. rewrite E1. destruct r as [a|e|c].
  - exists a, s1, l1. repeat split; assumption.
  - destruct (Hh e s1) as (a & s2 & l2 & E2 & T2 & F2).
    exists a, s2, (l2 ++ l1). repeat split; try assumption.
    + rewrite T2, T1. apply app_assoc.
    + apply Forall_app. split; assumption.
  - exfalso. exact (N1 c eq_refl).
Qed.

Lemma safe_try_catch {A} (m : M A) (h : exn -> M A) :
  safe P m -> (forall e, safe P (h e)) -> safe P (try_catch m h).
Proof.
  intros Hm Hh s. destruct (Hm s) as (r & s1 & l1 & E1 & T1 & F1 & N1).
  unfold try_catch. rewrite E1. destruct r as [a|e|c].
  - exists (Ok a), s1, l1. repeat split; assumption.
  - destruct (Hh e s1) as (r2 & s2 & l2 & E2 & T2 & F2 & N2).
    exists r2, s2, (l2 ++ l1). repeat split; try assumption.
    + rewrite T2, T1. apply app_assoc.
    + apply Forall_app. split; assumption.
  - exfalso. exact (N1 c eq_refl).
Qed.

End Rules.

(** A bound on the events can be weakened. *)
Lemma returns_weaken {G W Ev A} (P Q : Ev -> Prop) (m : M G W Ev A) :
  (forall e, P e -> Q e) -> returns P m -> returns Q m.
Proof.
  intros HPQ H s. destruct (H s) as (a & s' & l & E & T & F).
  exists a, s', l. repeat split; try assumption.
  eapply Forall_impl; eassumption.
Qed.

Lemma safe_weaken {G W Ev A} (P Q : Ev -> Prop) (m : M G W Ev A) :
  (forall e, P e -> Q e) -> safe P m -> safe Q m.
Proof.
  intros HPQ H s. destruct (H s) as (r & s' & l & E & T & F & N).
  exists r, s', l. repeat split; try assumption.
  eapply Forall_impl; eassumption.
Qed.

End EffFacts.

(** ** Lines of a log *)

Module LinesFacts.

Lemma split_not_nil (sep : N) (s : jsstring) : split sep s <> [].
Proof.
  destruct s as [|c r]; simpl; [discriminate|].
  destruct (c =? sep)%N; [discriminate|].
  destruct (split sep r); discriminate.
Qed.

Lemma split_single_empty (sep : N) (s : jsstring) : split sep s = [[]] -> s = [].
Proof.
  destruct s as [|c r]; [reflexivity|]. simpl.
  destruct (c =? sep)%N.
  - intros H. inversion H as [H']. exfalso. exact (split_not_nil _ _ H').
  - destruct (split sep r); discriminate.
Qed.

Lemma join_empty (sep : N) (l : list jsstring) :
  join [sep] l = [] -> l = [] \/ l = [[]].
Proof.
  destruct l as [|x [|y r]]; simpl.
  - auto.
  - intros ->. auto.
  - intros H. apply app_eq_nil in H. destruct H as [_ H]. discriminate H.
Qed.

Lemma slice_last_all {A} (n : nat) (l : list A) :
  (List.length l <= n)%nat -> slice_last n l = l.
Proof.
  intros H. unfold slice_last.
  replace (List.length l - n)%nat with 0%nat by lia. reflexivity.
Qed.

Lemma slice_last_length {A} (n : nat) (l : list A) :
  List.length (slice_last n l) = Nat.min n (List.length l).
Proof. unfold slice_last. rewrite length_skipn. lia. Qed.

(** [slice_last n l] is the end of [l]. *)
Lemma slice_last_suffix {A} (n : nat) (l : list A) :
  exists pre, l = pre ++ slice_last n l.
Proof.
  exists (firstn (List.length l - n) l). unfold slice_last.
  symmetry. apply firstn_skipn.
Qed.

(** Splitting at line feeds and joining again gives the text back. *)
Lemma join_split (sep : N) (s : jsstring) : join [sep] (split sep s) = s.
Proof.
  induction s as [|c r IH]; [reflexivity|]. simpl.
  destruct (N.eqb_spec c sep) as [->|Hne].
  - cbn [join]. destruct (split sep r) as [|x xs] eqn:E.
    + exfalso. exact (split_not_nil _ _ E).
    + rewrite IH. reflexivity.
  - destruct (split sep r) as [|x xs] eqn:E.
    + exfalso. exact (split_not_nil _ _ E).
    + cbn [join] in *. destruct xs; simpl in *; rewrite <- IH; reflexivity.
Qed.

End LinesFacts.

(** ** The orchestrator: which stages return, throw or end the process *)

Module OrchestratorFacts.
Import Launcher Orchestrator EffFacts.

Ltac behave_step :=
  match goal with
  | |- returns _ (ret _) => apply returns_ret
  | |- returns _ (emit _) => apply returns_emit; try reflexivity
  | |- returns _ (ask _) => apply returns_ask
  | |- returns _ (tell _) => apply returns_tell
  | |- returns _ (bind _ _) => apply returns_bind; [|intros ?]
  | |- returns _ (try_catch _ _) => apply returns_try_catch; [|intros ?]
  | |- returns _ (if ?b then _ else _) => destruct b
  | |- returns _ (match ?x with _ => _ end) => destruct x
  | |- safe _ (bind _ _) => apply safe_bind; [|intros ?]
  | |- safe _ (perform _) => apply safe_perform
  | |- safe _ (throw _) => apply safe_throw
  | |- safe _ (try_catch _ _) => apply safe_try_catch; [|intros ?]
  | |- safe _ (if ?b then _ else _) => destruct b
  | |- safe _ (match ?x with _ => _ end) => destruct x
  | |- exits _ (exit _) => apply exits_exit
  | |- exits _ (bind _ _) => apply exits_bind; [|intros ?]
  | |- exits _ (if ?b then _ else _) => destruct b
  end.

Ltac behave :=
  unfold console_log, console_error, console_error2, sh, exists_, text_, Bun_sleep,
    response_text;
  repeat behave_step.

Section WithWorld.
Variable W : Type.
Variable env : Env W.
Variable cfg : OrchestratorScriptConfig.

Local Abbreviation St := (St unit W Event).

Lemma waitForTmuxSession_loop_returns (n : nat) :
  returns quiet (waitForTmuxSession_loop env n).
Proof.
  induction n as [|n IH]; simpl.
  - apply returns_ret.
  - behave; try assumption; apply returns_safe; behave.
Qed.

Lemma waitForExitCode_returns (n : nat) (k : Z) :
  returns quiet (waitForExitCode env cfg n k).
Proof.
  revert k. induction n as [|n IH]; intros k; simpl.
  - apply returns_ret.
  - behave. apply IH.
Qed.

Lemma createWindows_safe : safe quiet (createWindows env cfg).
Proof.
  unfold createWindows, createWindow, waitForTmuxSession.
  behave; try (apply returns_safe; behave);
    try apply waitForTmuxSession_loop_returns.
Qed.

Lemma readErrorDetails_returns (p tag : jsstring) :
  returns quiet (readErrorDetails env p tag).
Proof.
  unfold readErrorDetails. behave; apply returns_safe; behave.
Qed.

Lemma runMaintenanceScript_returns : returns quiet (runMaintenanceScript env cfg).
Proof.
  unfold runMaintenanceScript, launchAndWait, interpretExitCode.
  behave; try (apply returns_safe; behave);
    try apply waitForExitCode_returns; try apply readErrorDetails_returns.
Qed.

Lemma startDevScript_returns : returns quiet (startDevScript env cfg).
Proof.
  unfold startDevScript.
  behave; try (apply returns_safe; behave);
    try apply readErrorDetails_returns.
Qed.

Lemma reportErrorToConvex_returns (me de : option jsstring) :
  returns (fun _ => True) (reportErrorToConvex env cfg me de).
Proof.
  unfold reportErrorToConvex.
  behave; try exact I; try (apply returns_safe; behave); exact I.
Qed.

Lemma bind_ok {A B} (m : M unit W Event A) (k : A -> M unit W Event B) s a s' :
  m s = (Ok a, s') -> bind m k s = k a s'.
Proof. intros H. unfold bind. rewrite H. reflexivity. Qed.
Arguments bind_ok {A B m} k {s a s'} _.

Lemma emit_run (e : Event) (s : St) :
  emit e s = (Ok tt, mkSt (prog s) (world s) (e :: trace s)).
Proof. reflexivity. Qed.

Lemma exists_run (p : jsstring) (s : St) :
  exists_ env p s
  = (Ok (fst (fileExists env p (world s))),
     mkSt (prog s) (snd (fileExists env p (world s))) (EFileExists p :: trace s)).
Proof.
  unfold exists_, bind, emit, ask. simpl.
  destruct (fileExists env p (world s)); reflexivity.
Qed.

Lemma Bun_sleep_run (ms : Z) (s : St) :
  Bun_sleep env ms s
  = (Ok tt, mkSt (prog s) (sleep env ms (world s)) (ESleep ms :: trace s)).
Proof. reflexivity. Qed.

Lemma sh_run (c : ShellCmd) (s : St) (o : ShellOutput) (w1 : W) :
  shell env c (world s) = (Returned o, w1) ->
  sh env c s = (Ok o, mkSt (prog s) w1 (EShell c :: trace s)).
Proof.
  intros H. unfold sh, perform, bind, emit, ask. simpl. rewrite H. reflexivity.
Qed.


Lemma try_catch_exit {A} (m : M unit W Event A) h s c s' :
  m s = (Exit c, s') -> try_catch m h s = (Exit c, s').
Proof. intros H. unfold try_catch. rewrite H. reflexivity. Qed.

Lemma try_catch_ok {A} (m : M unit W Event A) h s a s' :
  m s = (Ok a, s') -> try_catch m h s = (Ok a, s').
Proof. intros H. unfold try_catch. rewrite H. reflexivity. Qed.

Lemma preamble_ok (s : St) :
  preamble cfg s = (Ok tt, snd (preamble cfg s)).
Proof. reflexivity. Qed.

Lemma logMaintenanceOutcome_ok (m : MaintenanceResult) (s : St) :
  exists e, logMaintenanceOutcome m s = (Ok tt, mkSt (prog s) (world s) (e :: trace s))
            /\ isLogOnly e = true.
Proof.
  unfold logMaintenanceOutcome. destruct (truthy_opt (mError m));
    eexists; split; reflexivity.
Qed.

Lemma logDevOutcome_ok (d : DevResult) (s : St) :
  exists e, logDevOutcome d s = (Ok tt, mkSt (prog s) (world s) (e :: trace s))
            /\ isLogOnly e = true.
Proof.
  unfold logDevOutcome. destruct (truthy_opt (dError d));
    eexists; split; reflexivity.
Qed.

Lemma fetches_app (a b : list Event) : fetches (a ++ b) = fetches b ++ fetches a.
Proof. unfold fetches. rewrite rev_app_distr, flat_map_app. reflexivity. Qed.

Lemma fetches_quiet (l : list Event) : Forall quiet l -> fetches l = [].
Proof.
  induction 1 as [|e l He _ IH]; [reflexivity|].
  change (e :: l) with ([e] ++ l). rewrite fetches_app, IH. simpl.
  destruct e; try reflexivity. discriminate He.
Qed.

Lemma logOnly_quiet (e : Event) : isLogOnly e = true -> quiet e.
Proof. destruct e; simpl; intros H; try discriminate H; reflexivity. Qed.

Lemma ext_cons {E} (e : E) (l l' t : list E) :
  l' = l ++ t -> e :: l' = (e :: l) ++ t.
Proof. intros ->. reflexivity. Qed.

(** Solves [e1 :: ... :: en :: t = ?l ++ t]. *)
Lemma ext_nil {E} (t : list E) : t = [] ++ t.
Proof. reflexivity. Qed.

Ltac trace_ext := simpl; repeat (apply ext_cons); apply ext_nil.

(** Each event is a request or is logging only. *)
Ltac classify :=
  repeat first
    [ apply Forall_nil
    | apply Forall_cons; [first [left; reflexivity | right; reflexivity]|] ].

Ltac run_report :=
  unfold try_catch, response_text, bind, console_log, console_error, console_error2,
    perform, bind, ask, emit; simpl.

(** The report is attempted exactly when there is something to report and
    the callback is configured; whatever the world answers, the function
    returns, and everything else it does is logging. *)
Lemma reportErrorToConvex_spec (me de : option jsstring) (s : St) :
  exists s' l,
    reportErrorToConvex env cfg me de s = (Ok tt, s')
    /\ trace s' = l ++ trace s
    /\ fetches l
       = (if reportingConfigured cfg && (truthy_opt me || truthy_opt de)
          then [reportRequest cfg me de] else [])
    /\ Forall (fun e => isFetch e = true \/ isLogOnly e = true) l.
Proof.
  unfold reportErrorToConvex, reportingConfigured.
  destruct (truthy (taskRunJwt cfg)); simpl;
    [destruct (truthy (convexUrl cfg)); simpl|].
  - destruct (truthy_opt me || truthy_opt de) eqn:Herr.
    + assert (Hif : negb (truthy_opt me) && negb (truthy_opt de) = false)
        by (destruct (truthy_opt me), (truthy_opt de); simpl in *; congruence).
      rewrite Hif. run_report.
      destruct (fetch env (reportRequest cfg me de) (world s)) as [[resp|e] w1];
        simpl;
        [ destruct (ok resp); simpl;
          destruct (responseText env w1) as [[t|e] w2]; simpl | ];
        eexists _, _; (split; [reflexivity|]);
        (split; [trace_ext|]); (split; [reflexivity|]);
        classify.
    + assert (Hif : negb (truthy_opt me) && negb (truthy_opt de) = true)
        by (destruct (truthy_opt me), (truthy_opt de); simpl in *; congruence).
      rewrite Hif. eexists _, _. split; [reflexivity|].
      split; [trace_ext|]. split; [reflexivity|]. classify.
  - eexists _, _. split; [reflexivity|].
    split; [trace_ext|]. split; [reflexivity|]. classify.
  - eexists _, _. split; [reflexivity|].
    split; [trace_ext|]. split; [reflexivity|]. classify.
Qed.

Lemma reportAndExit_spec (m : MaintenanceResult) (d : DevResult) (s : St) :
  exists s' l,
    reportAndExit env cfg m d s = (Exit (if hasError m d then 1 else 0)%Z, s')
    /\ trace s' = l ++ trace s
    /\ fetches l
       = (if reportingConfigured cfg && hasError m d
          then [reportRequest cfg (mError m) (dError d)] else [])
    /\ Forall (fun e => isFetch e = true \/ isLogOnly e = true) l.
Proof.
  unfold reportAndExit. unfold console_log at 1.
  set (e0 := EConsoleLog _).
  destruct (hasError m d) eqn:Herr.
  - destruct (reportErrorToConvex_spec (mError m) (dError d)
                (mkSt (prog s) (world s) (e0 :: trace s)))
      as (s1 & l1 & E1 & T1 & F1 & A1).
    exists s1, (l1 ++ [e0]). rewrite (bind_ok _ (emit_run e0 s)).
    rewrite (bind_ok _ E1). split; [reflexivity|].
    split; [rewrite T1, <- app_assoc; reflexivity|].
    split.
    + rewrite fetches_app. unfold hasError in Herr. rewrite Herr in F1.
      rewrite F1. reflexivity.
    + apply Forall_app. split; [assumption|]. subst e0. classify.
  - eexists _, _. split; [reflexivity|]. split; [trace_ext|].
    split; [rewrite andb_false_r; reflexivity|]. subst e0. classify.
Qed.

(** The first thing a [try] block does is recorded whatever follows. *)
Lemma try_catch_first {A} (e1 e2 : Event) (f : W -> outcome ShellOutput * W)
    (k : M unit W Event A) (h : exn -> M unit W Event A) (s : St) :
  safe (fun _ => True) k -> (forall e, returns (fun _ => True) (h e)) ->
  exists l,
    trace (snd (try_catch (emit e1;; (emit e2;; perform f);; k) h s))
    = l ++ e2 :: e1 :: trace s.
Proof.
  intros Hk Hh. unfold try_catch, bind, perform, bind, ask, emit. simpl.
  destruct (f (world s)) as [[o|e] w1]; simpl.
  - destruct (Hk (mkSt (prog s) w1 (e2 :: e1 :: trace s)))
      as (r & s2 & l2 & E2 & T2 & _ & _).
    rewrite E2. destruct r as [a|e|c].
    + exists l2. exact T2.
    + destruct (Hh e s2) as (a & s3 & l3 & E3 & T3 & _). rewrite E3.
      exists (l3 ++ l2). simpl. rewrite T3, T2. apply app_assoc.
    + exists l2. exact T2.
  - destruct (Hh e (mkSt (prog s) w1 (e2 :: e1 :: trace s)))
      as (a & s3 & l3 & E3 & T3 & _). rewrite E3.
    exists l3. exact T3.
Qed.

Lemma startDevScript_entry (s : St) :
  exists l, trace (snd (startDevScript env cfg s)) = l ++ devEntry cfg ++ trace s.
Proof.
  unfold startDevScript, devEntry. destruct (hasDevScript cfg); simpl negb; cbv iota.
  - unfold console_log at 1. unfold sh at 1.
    apply try_catch_first.
    + behave; try exact I; try (apply returns_safe; behave; exact I);
        try (apply returns_safe;
             eapply returns_weaken; [|apply readErrorDetails_returns]; auto).
    + intros e. behave; exact I.
  - exists []. reflexivity.
Qed.

Lemma main_structure (s0 s1 : St) :
  createWindows env cfg (snd (preamble cfg s0)) = (Ok tt, s1) ->
  exists m s2 l2 d s3 l3 s4 l4,
    runMaintenanceScript env cfg s1 = (Ok m, s2)
    /\ trace s2 = l2 ++ trace s1 /\ Forall quiet l2
    /\ startDevScript env cfg (snd (logMaintenanceOutcome m s2)) = (Ok d, s3)
    /\ trace s3 = l3 ++ trace (snd (logMaintenanceOutcome m s2)) /\ Forall quiet l3
    /\ reportAndExit env cfg m d (snd (logDevOutcome d s3))
       = (Exit (if hasError m d then 1 else 0)%Z, s4)
    /\ trace s4 = l4 ++ trace (snd (logDevOutcome d s3))
    /\ fetches l4
       = (if reportingConfigured cfg && hasError m d
          then [reportRequest cfg (mError m) (dError d)] else [])
    /\ Forall (fun e => isFetch e = true \/ isLogOnly e = true) l4
    /\ main env cfg s0 = (Exit (if hasError m d then 1 else 0)%Z, s4).
Proof.
  intros Hcw.
  destruct (runMaintenanceScript_returns s1) as (m & s2 & l2 & E2 & T2 & F2).
  destruct (logMaintenanceOutcome_ok m s2) as (eM & EM & _).
  destruct (startDevScript_returns (snd (logMaintenanceOutcome m s2)))
    as (d & s3 & l3 & E3 & T3 & F3).
  destruct (logDevOutcome_ok d s3) as (eD & ED & _).
  destruct (reportAndExit_spec m d (snd (logDevOutcome d s3)))
    as (s4 & l4 & E4 & T4 & F4 & A4).
  exists m, s2, l2, d, s3, l3, s4, l4.
  repeat (split; [assumption|]).
  unfold main. apply try_catch_exit.
  rewrite (bind_ok _ (preamble_ok s0)).
  rewrite (bind_ok _ Hcw).
  rewrite (bind_ok _ E2).
  assert (EM' : logMaintenanceOutcome m s2 = (Ok tt, snd (logMaintenanceOutcome m s2)))
    by (rewrite EM; reflexivity).
  rewrite (bind_ok _ EM').
  rewrite (bind_ok _ E3).
  assert (ED' : logDevOutcome d s3 = (Ok tt, snd (logDevOutcome d s3)))
    by (rewrite ED; reflexivity).
  rewrite (bind_ok _ ED').
  exact E4.
Qed.

Lemma pollEvents_snoc (n : nat) :
  pollEvents cfg (S n)
  = pollEvents cfg n ++ [ESleep 1000; EFileExists (maintenanceExitCodePath cfg)].
Proof.
  unfold pollEvents.
  set (x := [ESleep 1000; EFileExists (maintenanceExitCodePath cfg)]).
  induction n as [|n IH]; [reflexivity|].
  change (List.concat (repeat x (S (S n))))
    with (x ++ List.concat (repeat x (S n))).
  rewrite IH at 1. rewrite app_assoc. reflexivity.
Qed.

Lemma waitForExitCode_absent (n : nat) (k : Z) (s : St) :
  (forall w, fst (fileExists env (maintenanceExitCodePath cfg) w) = false) ->
  exists w',
    waitForExitCode env cfg n k s
    = (Ok (k + Z.of_nat n)%Z, mkSt (prog s) w' (pollEvents cfg n ++ trace s)).
Proof.
  intros Habs. revert k s. induction n as [|n IH]; intros k s.
  - exists (world s). simpl. rewrite Z.add_0_r. destruct s; reflexivity.
  - cbn [waitForExitCode].
    rewrite (bind_ok _ (exists_run _ s)), (Habs (world s)).
    rewrite (bind_ok _ (Bun_sleep_run _ _)).
    destruct (IH (k + 1)%Z
                (mkSt (prog s)
                   (sleep env 1000
                      (snd (fileExists env (maintenanceExitCodePath cfg) (world s))))
                   (ESleep 1000 :: EFileExists (maintenanceExitCodePath cfg) :: trace s)))
      as (w' & E).
    exists w'. cbn [prog world trace] in *. rewrite E. f_equal.
    + f_equal. lia.
    + cbn [prog trace]. rewrite pollEvents_snoc, <- app_assoc. reflexivity.
Qed.

Lemma filter_isShell_pollEvents (n : nat) : filter isShell (pollEvents cfg n) = [].
Proof.
  unfold pollEvents. induction n as [|n IH]; [reflexivity|].
  simpl. exact IH.
Qed.

Lemma runMaintenanceScript_timeout (s : St) (o : ShellOutput) (w1 : W) :
  hasMaintenanceScript cfg = true ->
  shell env (maintenanceSendKeys cfg) (world s) = (Returned o, w1) ->
  (forall w, fst (fileExists env (maintenanceExitCodePath cfg) w) = false) ->
  exists w',
    runMaintenanceScript env cfg s
    = (Ok timedOutResult, mkSt (prog s) w' (timeoutEvents cfg ++ trace s)).
Proof.
  intros Hhas Hsend Habs.
  unfold runMaintenanceScript. rewrite Hhas. simpl negb. cbv iota.
  set (s2 := mkSt (prog s) (sleep env 2000 w1)
               (EConsoleLog [lit "[MAINTENANCE] Waiting for script to complete..."]
                :: ESleep 2000 :: EShell (maintenanceSendKeys cfg)
                :: EConsoleLog [lit "[MAINTENANCE] Starting maintenance script..."]
                :: trace s)).
  destruct (waitForExitCode_absent maxAttempts 0 s2 Habs) as (w' & Ew).
  assert (El : launchAndWait env cfg s
               = (Ok 600%Z, mkSt (prog s) w' (pollEvents cfg 600 ++ trace s2))).
  { unfold launchAndWait, console_log.
    rewrite (bind_ok _ (emit_run _ _)).
    erewrite bind_ok by (apply sh_run; exact Hsend).
    rewrite (bind_ok _ (Bun_sleep_run _ _)).
    rewrite (bind_ok _ (emit_run _ _)).
    exact Ew. }
  exists w'. apply try_catch_ok. rewrite (bind_ok _ El).
  change (600 >=? Z.of_nat maxAttempts)%Z with true. cbv iota.
  unfold console_error. rewrite (bind_ok _ (emit_run _ _)).
  unfold ret, timeoutEvents. cbn [prog world trace]. subst s2. cbn [trace].
  rewrite <- app_comm_cons, <- app_assoc. reflexivity.
Qed.

(** The whole run issues at most one request. *)
Lemma main_fetches (s0 : St) :
  exists c s4 l,
    main env cfg s0 = (Exit c, s4) /\ trace s4 = l ++ trace s0
    /\ (List.length (fetches l) <= 1)%nat.
Proof.
  destruct (createWindows_safe (snd (preamble cfg s0)))
    as (r & s1 & l1 & E1 & T1 & F1 & N1).
  assert (Tp : exists lp, trace (snd (preamble cfg s0)) = lp ++ trace s0 /\ Forall quiet lp).
  { eexists. split; [unfold preamble, console_log, bind, emit; simpl; trace_ext|].
    repeat constructor. }
  destruct Tp as (lp & Tp & Fp).
  destruct r as [[]|e|c].
  - destruct (main_structure s0 E1)
      as (m & s2 & l2 & d & s3 & l3 & s4 & l4 & E2 & T2 & F2 & E3 & T3 & F3
          & E4 & T4 & F4 & A4 & Em).
    destruct (logMaintenanceOutcome_ok m s2) as (eM & EM & LM).
    destruct (logDevOutcome_ok d s3) as (eD & ED & LD).
    rewrite EM in T3. rewrite ED in T4. simpl in T3, T4.
    exists (if hasError m d then 1 else 0)%Z, s4,
      (l4 ++ [eD] ++ l3 ++ [eM] ++ l2 ++ l1 ++ lp).
    split; [exact Em|]. split.
    + rewrite T4, T3, T2, T1, Tp. rewrite <- !app_assoc. reflexivity.
    + rewrite fetches_app.
      assert (Hq : Forall quiet ([eD] ++ l3 ++ [eM] ++ l2 ++ l1 ++ lp)).
      { repeat (apply Forall_app; split); try assumption;
          repeat constructor; apply logOnly_quiet; assumption. }
      rewrite (fetches_quiet Hq), F4. simpl.
      destruct (reportingConfigured cfg && hasError m d); simpl; lia.
  - exists 1%Z. eexists.
    exists (EConsoleError [lit "[ORCHESTRATOR] Fatal error: " ++ exn_toString e]
            :: l1 ++ lp).
    split; [|split].
    + unfold main, try_catch. rewrite (bind_ok _ (preamble_ok s0)).
      unfold bind at 1. rewrite E1. unfold console_error.
      rewrite (bind_ok _ (emit_run _ _)). reflexivity.
    + simpl. rewrite T1, Tp, <- app_assoc. reflexivity.
    + assert (Hq : Forall quiet
                (EConsoleError [lit "[ORCHESTRATOR] Fatal error: " ++ exn_toString e]
                 :: l1 ++ lp)).
      { constructor; [reflexivity|]. apply Forall_app. split; assumption. }
      rewrite (fetches_quiet Hq). simpl. lia.
  - exfalso. exact (N1 c eq_refl).
Qed.

(** C1: once the windows exist, the maintenance stage always returns a
    result, whatever its outcome (ok, failed or timed out), and the dev
    stage is then run on the state the maintenance stage left: the run
    passes through [startDevScript], whose first events ([devEntry cfg]: the
    dev command typed into the dev window when there is a dev script) are
    recorded after everything the maintenance stage did. *)
Theorem dev_stage_follows_maintenance (s0 s1 : St) :
  createWindows env cfg (snd (preamble cfg s0)) = (Ok tt, s1) ->
  exists m s2 d s3 code s4 l,
    runMaintenanceScript env cfg s1 = (Ok m, s2)
    /\ startDevScript env cfg (snd (logMaintenanceOutcome m s2)) = (Ok d, s3)
    /\ main env cfg s0 = (Exit code, s4)
    /\ extends (trace s4) (trace s3)
    /\ trace s3 = l ++ devEntry cfg ++ trace (snd (logMaintenanceOutcome m s2))
    /\ extends (trace (snd (logMaintenanceOutcome m s2))) (trace s2).
Proof.
  intros Hcw.
  destruct (main_structure s0 Hcw)
    as (m & s2 & l2 & d & s3 & l3 & s4 & l4 & E2 & T2 & F2 & E3 & T3 & F3
        & E4 & T4 & F4 & A4 & Em).
  destruct (startDevScript_entry (snd (logMaintenanceOutcome m s2))) as (l & Hl).
  rewrite E3 in Hl. simpl in Hl.
  destruct (logMaintenanceOutcome_ok m s2) as (eM & EM & _).
  destruct (logDevOutcome_ok d s3) as (eD & ED & _).
  exists m, s2, d, s3, (if hasError m d then 1 else 0)%Z, s4, l.
  repeat split; try assumption.
  - exists (l4 ++ [eD]). rewrite T4, ED. simpl. rewrite <- app_assoc. reflexivity.
  - exists [eM]. rewrite EM. reflexivity.
Qed.

(** C2: when the maintenance script has been started and its exit-code
    file is never there, the maintenance stage returns exit code 124 with
    the error "Maintenance script timed out after 10 minutes" after 600
    polls one second apart; the only shell command it has issued is the
    one that started the script (nothing kills it); and the orchestrator
    then exits with code 1. *)
Theorem maintenance_timeout (s0 s : St) (o : ShellOutput) (w1 : W) :
  createWindows env cfg (snd (preamble cfg s0)) = (Ok tt, s) ->
  hasMaintenanceScript cfg = true ->
  shell env (maintenanceSendKeys cfg) (world s) = (Returned o, w1) ->
  (forall w, fst (fileExists env (maintenanceExitCodePath cfg) w) = false) ->
  exists s' s4,
    runMaintenanceScript env cfg s = (Ok timedOutResult, s')
    /\ mExitCode timedOutResult = 124%Z
    /\ mError timedOutResult = Some (lit "Maintenance script timed out after 10 minutes")
    /\ trace s' = timeoutEvents cfg ++ trace s
    /\ filter isShell (timeoutEvents cfg) = [EShell (maintenanceSendKeys cfg)]
    /\ List.length (filter (fun e => match e with ESleep 1000 => true | _ => false end)
                      (timeoutEvents cfg)) = 600%nat
    /\ main env cfg s0 = (Exit 1%Z, s4).
Proof.
  intros Hcw Hhas Hsend Habs.
  destruct (runMaintenanceScript_timeout s Hhas Hsend Habs) as (w' & Er).
  destruct (main_structure s0 Hcw)
    as (m & s2 & l2 & d & s3 & l3 & s4 & l4 & E2 & T2 & F2 & E3 & T3 & F3
        & E4 & T4 & F4 & A4 & Em).
  rewrite Er in E2. inversion E2; subst m s2.
  eexists _, s4. split; [exact Er|].
  split; [reflexivity|]. split; [reflexivity|]. split; [reflexivity|].
  split; [|split].
  - unfold timeoutEvents. cbn [filter isShell].
    rewrite filter_app, filter_isShell_pollEvents. reflexivity.
  - vm_compute. reflexivity.
  - exact Em.
Qed.

Lemma reportRequest_body (me de : option jsstring) (k v : jsstring) :
  In (k, v) (body (reportRequest cfg me de))
  <-> (k = lit "maintenanceError" /\ me = Some v /\ truthy v = true)
      \/ (k = lit "devError" /\ de = Some v /\ truthy v = true).
Proof.
  unfold reportRequest. cbn [body]. rewrite in_app_iff.
  assert (H : forall (key : jsstring) (o : option jsstring),
             In (k, v) (match o with
                        | Some e => if truthy e then [(key, e)] else []
                        | None => []
                        end)
             <-> (k = key /\ o = Some v /\ truthy v = true)).
  { intros key [e|]; [destruct (truthy e) eqn:He|]; simpl; split;
      try tauto; try (intros [? [? ?]]; congruence).
    - intros [E|[]]. inversion E; subst. auto.
    - intros (-> & E & _). inversion E; subst. auto. }
  rewrite !H. reflexivity.
Qed.

(** C5: the end of a run, for any stage results and any world.  The
    request to the control plane is sent exactly once when an error is set
    and the callback is configured, and not at all otherwise; its body
    holds exactly the error fields that are set and it carries the bearer
    token; whatever the world answers (a thrown exception, any status),
    all else that happens is logging, there is no second request, and the
    exit code is 1 exactly when an error is set.  Over a whole run at most
    one request is sent. *)
Theorem error_report_once_best_effort (m : MaintenanceResult) (d : DevResult) (s : St) :
  (exists s' l,
      reportAndExit env cfg m d s = (Exit (if hasError m d then 1 else 0)%Z, s')
      /\ trace s' = l ++ trace s
      /\ fetches l
         = (if reportingConfigured cfg && hasError m d
            then [reportRequest cfg (mError m) (dError d)] else [])
      /\ Forall (fun e => isFetch e = true \/ isLogOnly e = true) l)
  /\ (forall k v,
         In (k, v) (body (reportRequest cfg (mError m) (dError d)))
         <-> (k = lit "maintenanceError" /\ mError m = Some v /\ truthy v = true)
             \/ (k = lit "devError" /\ dError d = Some v /\ truthy v = true))
  /\ method (reportRequest cfg (mError m) (dError d)) = lit "POST"
  /\ In (lit "Authorization", lit "Bearer " ++ taskRunJwt cfg)
        (headers (reportRequest cfg (mError m) (dError d)))
  /\ (forall s0, exists c s4 l,
         main env cfg s0 = (Exit c, s4) /\ trace s4 = l ++ trace s0
         /\ (List.length (fetches l) <= 1)%nat).
Proof.
  split; [apply reportAndExit_spec|].
  split; [apply reportRequest_body|].
  split; [reflexivity|].
  split; [right; left; reflexivity|].
  apply main_fetches.
Qed.

Lemma lastLines_blank (c : jsstring) :
  forallb isWhiteSpace c = true -> lastLines 100 c = [].
Proof.
  intros H. unfold lastLines. rewrite (JSFacts.trim_blank _ H). reflexivity.
Qed.

Lemma lastLines_nonblank (c : jsstring) :
  forallb isWhiteSpace c = false -> truthy (lastLines 100 c) = true.
Proof.
  intros H. destruct (lastLines 100 c) as [|x r] eqn:E; [exfalso|reflexivity].
  unfold lastLines in E. apply LinesFacts.join_empty in E.
  assert (Hs : split LF (trim c) = [[]]).
  { destruct E as [E|E].
    - apply (f_equal (@List.length _)) in E.
      rewrite LinesFacts.slice_last_length in E. cbn [List.length] in E.
      destruct (split LF (trim c)) eqn:Es; [|cbn [List.length] in E; lia].
      exfalso. exact (LinesFacts.split_not_nil _ _ Es).
    - assert (Hlen : List.length (split LF (trim c)) = 1%nat).
      { apply (f_equal (@List.length _)) in E.
        rewrite LinesFacts.slice_last_length in E. cbn [List.length] in E. lia. }
      rewrite LinesFacts.slice_last_all in E by lia. exact E. }
  apply LinesFacts.split_single_empty in Hs.
  apply JSFacts.trim_nil_blank in Hs. congruence.
Qed.

(** The error detail is the last 100 lines of the log, and the generic
    message when the log is missing, unreadable, empty or blank. *)
Lemma failureDetail_spec (code : Z) (log : option jsstring) :
  failureDetail code log
  = match log with
    | Some c => if forallb isWhiteSpace c then maintenanceFailureMessage code
                else lastLines 100 c
    | None => maintenanceFailureMessage code
    end.
Proof.
  destruct log as [c|]; [|reflexivity]. unfold failureDetail.
  destruct (forallb isWhiteSpace c) eqn:Hb.
  - rewrite (lastLines_blank _ Hb). reflexivity.
  - rewrite (lastLines_nonblank _ Hb). reflexivity.
Qed.


(** When the polling loop stops early, it is because the file was there. *)
Lemma waitForExitCode_found (n : nat) (k : Z) (s : St) :
  exists k' s',
    waitForExitCode env cfg n k s = (Ok k', s')
    /\ (k <= k' <= k + Z.of_nat n)%Z
    /\ ((k' < k + Z.of_nat n)%Z ->
        exists w, fileExists env (maintenanceExitCodePath cfg) w = (true, world s')).
Proof.
  revert k s. induction n as [|n IH]; intros k s.
  - exists k, s. simpl. split; [reflexivity|]. split; lia.
  - cbn [waitForExitCode]. rewrite (bind_ok _ (exists_run _ s)).
    destruct (fileExists env (maintenanceExitCodePath cfg) (world s))
      as [present w1] eqn:E. cbn [fst snd].
    destruct present.
    + eexists _, _. split; [reflexivity|]. split; [lia|].
      intros _. exists (world s). exact E.
    + rewrite (bind_ok _ (Bun_sleep_run _ _)).
      destruct (IH (k + 1)%Z
                  (mkSt (prog s) (sleep env 1000 w1)
                     (ESleep 1000 :: EFileExists (maintenanceExitCodePath cfg) :: trace s)))
        as (k' & s' & E' & Hk & Hf).
      exists k', s'. cbn [prog world trace] in *. split; [exact E'|].
      split; [lia|]. intros Hlt. apply Hf. lia.
Qed.


End WithWorld.

Import Sim.

Lemma dev_stage_follows_maintenance_witness :
  exists m s2 d s3 code s4 l,
    runMaintenanceScript failingEnv scenarioConfig (windowsReady failingEnv) = (Ok m, s2)
    /\ startDevScript failingEnv scenarioConfig (snd (logMaintenanceOutcome m s2)) = (Ok d, s3)
    /\ main failingEnv scenarioConfig start = (Exit code, s4)
    /\ extends (trace s4) (trace s3)
    /\ trace s3 = l ++ devEntry scenarioConfig ++ trace (snd (logMaintenanceOutcome m s2))
    /\ extends (trace (snd (logMaintenanceOutcome m s2))) (trace s2).
Proof.
  apply (@dev_stage_follows_maintenance Z failingEnv scenarioConfig start).
  vm_compute. reflexivity.
Defined.

(** The dev stage is reached after each of the three maintenance outcomes. *)
Example dev_started_after_each_outcome :
  List.map (fun env =>
              (option_map maintenanceStatus
                 (match fst (runMaintenanceScript env scenarioConfig (windowsReady env)) with
                  | Ok m => Some m
                  | _ => None
                  end),
               devStarted (trace (snd (main env scenarioConfig start))),
               fst (main env scenarioConfig start)))
    [cleanEnv; failingEnv; hangingEnv]
  = [ (Some StOk, true, Exit 0%Z);
      (Some StFailed, true, Exit 1%Z);
      (Some StTimedOut, true, Exit 1%Z) ].
Proof. vm_compute. reflexivity. Qed.

Lemma maintenance_timeout_witness :
  exists s' s4,
    runMaintenanceScript hangingEnv scenarioConfig (windowsReady hangingEnv)
    = (Ok timedOutResult, s')
    /\ mExitCode timedOutResult = 124%Z
    /\ mError timedOutResult = Some (lit "Maintenance script timed out after 10 minutes")
    /\ trace s' = timeoutEvents scenarioConfig ++ trace (windowsReady hangingEnv)
    /\ filter isShell (timeoutEvents scenarioConfig)
       = [EShell (maintenanceSendKeys scenarioConfig)]
    /\ List.length (filter (fun e => match e with ESleep 1000 => true | _ => false end)
                      (timeoutEvents scenarioConfig)) = 600%nat
    /\ main hangingEnv scenarioConfig start = (Exit 1%Z, s4).
Proof.
  apply (@maintenance_timeout Z hangingEnv scenarioConfig start
           (windowsReady hangingEnv) {| exitCode := 0; text := [] |} 0%Z).
  - vm_compute. reflexivity.
  - vm_compute. reflexivity.
  - vm_compute. reflexivity.
  - intros w. vm_compute. reflexivity.
Defined.

(** Scenario A: the report of a failed maintenance script holds the
    maintenance error only. *)
Example scenario_A_report :
  List.map (fun r => List.map fst (body r))
    (fetches (trace (snd (main failingEnv scenarioConfig start))))
  = [[lit "maintenanceError"]]
  /\ fst (main failingEnv scenarioConfig start) = Exit 1%Z.
Proof. vm_compute. split; reflexivity. Qed.

(** A rejected report changes nothing but the log. *)
Example rejected_report_same_exit :
  fst (main rejectingEnv scenarioConfig start) = Exit 1%Z
  /\ List.length (fetches (trace (snd (main rejectingEnv scenarioConfig start)))) = 1%nat.
Proof. vm_compute. split; reflexivity. Qed.


(** The other two readings of the exit-code file. *)
Example exit_code_not_a_number :
  fst (runMaintenanceScript garbledEnv scenarioConfig (windowsReady garbledEnv))
  = Ok {| mExitCode := 1;
          mError := Some (lit "Maintenance script exit code missing or invalid") |}.
Proof. vm_compute. reflexivity. Qed.

(** Digits followed by other characters still read as a number. *)
Example exit_code_with_trailing_text :
  parseInt10 (trim (lit " 12abc" ++ [LF])) = Some 12%Z
  /\ parseInt10 (trim (lit "abc12")) = None
  /\ parseInt10 (trim []) = None.
Proof. repeat split; reflexivity. Qed.

Example exit_code_zero :
  fst (runMaintenanceScript cleanEnv scenarioConfig (windowsReady cleanEnv))
  = Ok {| mExitCode := 0; mError := None |}.
Proof. vm_compute. reflexivity. Qed.

End OrchestratorFacts.

(** ** The serve-web supervisor: which functions return or throw *)

Module ServeWebFacts.
Import ServeWeb EffFacts.

Section WithWorld.
Variable W : Type.
Variable env : Env W.

Local Abbreviation St := (St Globals (World W) Obs).
Local Abbreviation M := (M Globals (World W) Obs).

Lemma returns_Date_now (P : Obs -> Prop) : returns P (Date_now (W := W)).
Proof. intros s. exists (clock (world s)), s, []. repeat split. constructor. Qed.

Ltac sw_step :=
  match goal with
  | |- returns _ (ret _) => apply returns_ret
  | |- returns _ (emit _) => apply returns_emit; try reflexivity
  | |- returns _ (ask _) => apply returns_ask
  | |- returns _ (tell _) => apply returns_tell
  | |- returns _ getG => apply returns_getG
  | |- returns _ (modifyG _) => apply returns_modifyG
  | |- returns _ (Date_now (W:=_)) => apply returns_Date_now
  | |- returns _ (bind _ _) => apply returns_bind; [|intros ?]
  | |- returns _ (try_catch _ _) => apply returns_try_catch; [|intros ?]
  | |- returns _ (if ?b then _ else _) => destruct b
  | |- returns _ (match ?x with _ => _ end) => destruct x
  | |- returns _ (let '(_, _) := ?x in _) => destruct x
  | |- safe _ (bind _ _) => apply safe_bind; [|intros ?]
  | |- safe _ (perform _) => apply safe_perform
  | |- safe _ (throw _) => apply safe_throw
  | |- safe _ (try_catch _ _) => apply safe_try_catch; [|intros ?]
  | |- safe _ (if ?b then _ else _) => destruct b
  | |- safe _ (match ?x with _ => _ end) => destruct x
  end.

Ltac sw_unfold :=
  unfold logger_info, logger_warn, logger_warn2, logger_error2, logger_debug2,
    getChild, setChild, note, askW, tick.

Ltac sw := sw_unfold; repeat sw_step.

Lemma onError_returns (e : exn) : returns notKill (onError (W := W) e).
Proof. unfold onError. sw. Qed.

Lemma onExit_returns (code : option Z) (signal : option jsstring) :
  returns notKill (onExit (W := W) code signal).
Proof. unfold onExit. sw. Qed.

Lemma unlinkRejected_returns (p : jsstring) (e : exn) :
  returns notKill (unlinkRejected (W := W) p e).
Proof. unfold unlinkRejected. sw. Qed.

Lemma deliver_returns (ev : nat * ChildEvent) : returns notKill (deliver (W := W) ev).
Proof.
  unfold deliver. destruct ev as [ref e]. sw;
    first [apply onExit_returns | apply onError_returns].
Qed.

Lemma deliverAll_returns (evs : list (nat * ChildEvent)) :
  returns notKill (deliverAll (W := W) evs).
Proof.
  induction evs as [|ev r IH]; simpl; [apply returns_ret|].
  apply returns_bind; [apply deliver_returns | intros _; exact IH].
Qed.

Lemma settleAll_returns (ps : list jsstring) : returns notKill (settleAll env ps).
Proof.
  induction ps as [|p r IH]; simpl; [apply returns_ret|].
  sw; try apply unlinkRejected_returns; exact IH.
Qed.

Lemma yield_returns : returns notKill (yield env).
Proof.
  unfold yield, settlePending. sw;
    first [apply settleAll_returns | apply deliverAll_returns].
Qed.

Lemma await_safe {R} (op : W -> outcome R * W) : safe notKill (await env op).
Proof.
  unfold await. apply safe_bind; [apply returns_safe; sw|]. intros o.
  apply safe_bind; [apply returns_safe, yield_returns|]. intros _.
  destruct o; [apply returns_safe, returns_ret | apply safe_throw].
Qed.

Lemma setTimeout_returns (ms : Z) : returns notKill (setTimeout env ms).
Proof. unfold setTimeout. sw. apply yield_returns. Qed.

Lemma note_run (e : Event) (s : St) :
  note e s = (Ok tt, mkSt (prog s) (world s) (obsOf e s :: trace s)).
Proof. reflexivity. Qed.

Lemma modifyG_run (f : Globals -> Globals) (s : St) :
  modifyG f s = (Ok tt, mkSt (f (prog s)) (world s) (trace s)).
Proof. reflexivity. Qed.

Lemma getChild_run (ref : nat) (s : St) :
  getChild ref s = (Ok (nth_error (heap (prog s)) ref), s).
Proof. reflexivity. Qed.

Lemma sw_bind_ok {A B} (m : M A) (k : A -> M B) s a s' :
  m s = (Ok a, s') -> bind m k s = k a s'.
Proof. intros H. unfold bind. rewrite H. reflexivity. Qed.
Arguments sw_bind_ok {A B m} k {s a s'} _.

Lemma removeStaleSocket_returns (p : jsstring) :
  returns notKill (removeStaleSocket env p).
Proof.
  unfold removeStaleSocket. apply returns_try_catch.
  - apply safe_bind; [apply returns_safe; sw|]. intros _.
    apply safe_bind; [apply await_safe|]. intros _. apply returns_safe. sw.
  - intros e. sw.
Qed.

Lemma waitForSocket_loop_safe (fuel : nat) (p : jsstring) (deadline : Z) :
  safe notKill (waitForSocket_loop env fuel p deadline).
Proof.
  induction fuel as [|fuel IH]; cbn [waitForSocket_loop].
  - apply safe_bind; [apply returns_safe, returns_Date_now|]. intros now.
    destruct (now <? deadline)%Z; apply safe_throw.
  - apply safe_bind; [apply returns_safe, returns_Date_now|]. intros now.
    destruct (now <? deadline)%Z; [|apply safe_throw].
    apply safe_bind.
    + apply safe_try_catch.
      * apply safe_bind; [apply returns_safe; sw|]. intros _.
        apply safe_bind; [apply await_safe|]. intros _.
        apply returns_safe, returns_ret.
      * intros e. destruct (isENOENT e); [|apply safe_throw].
        apply returns_safe. apply returns_bind; [apply setTimeout_returns|].
        intros _. apply returns_ret.
    + intros ready. destruct ready; [apply returns_safe, returns_ret | exact IH].
Qed.

Lemma warmUp_loop_safe (fuel : nat) (p : jsstring) (deadline : Z) :
  safe notKill (warmUp_loop env fuel p deadline).
Proof.
  induction fuel as [|fuel IH]; cbn [warmUp_loop].
  - apply safe_bind; [apply returns_safe, returns_Date_now|]. intros now.
    destruct (now <? deadline)%Z; [apply safe_throw | apply returns_safe, returns_ret].
  - apply safe_bind; [apply returns_safe, returns_Date_now|]. intros now.
    destruct (now <? deadline)%Z; [|apply returns_safe, returns_ret].
    apply safe_bind.
    + apply returns_safe. apply returns_try_catch.
      * apply safe_bind; [apply returns_safe; sw|]. intros _.
        apply safe_bind; [apply await_safe|]. intros _.
        apply returns_safe. sw.
      * intros e. apply returns_bind; [sw|]. intros _.
        apply returns_bind; [apply setTimeout_returns|]. intros _.
        apply returns_ret.
    + intros done. destruct done; [apply returns_safe, returns_ret | exact IH].
Qed.

(** The removal of the socket file in the [catch] block, and the clearing
    of the cache after it. *)
Lemma cleanup_tail (p : jsstring) (s : St) :
  exists s' l,
    (try_catch (note (EUnlink p);; await env (unlink env p)) (fun _ => ret tt);;
     modifyG (setBaseUrl None);;
     modifyG (setSocketPath None);;
     ret (@None VSCodeServeWebHandle)) s = (Ok None, s')
    /\ trace s' = l ++ trace s
    /\ Forall notKill l
    /\ existsb (isUnlinkOf p) l = true
    /\ currentServeWebBaseUrl (prog s') = None
    /\ currentServeWebSocketPath (prog s') = None.
Proof.
  set (s1 := mkSt (prog s) (world s) (obsOf (EUnlink p) s :: trace s)).
  destruct (await_safe (unlink env p) s1) as (r & s2 & l2 & E2 & T2 & F2 & N2).
  assert (Et : try_catch (note (EUnlink p);; await env (unlink env p))
                 (fun _ => ret tt) s = (Ok tt, s2)).
  { unfold try_catch. rewrite (sw_bind_ok _ (note_run _ s)). fold s1. rewrite E2.
    destruct r as [[]|e|c]; [reflexivity | reflexivity | exfalso; exact (N2 c eq_refl)]. }
  eexists _, (l2 ++ [obsOf (EUnlink p) s]).
  rewrite (sw_bind_ok _ Et).
  rewrite (sw_bind_ok _ (modifyG_run _ _)).
  rewrite (sw_bind_ok _ (modifyG_run _ _)).
  split; [reflexivity|]. cbn [trace prog].
  split; [rewrite T2; subst s1; cbn [trace]; rewrite <- app_assoc; reflexivity|].
  split; [apply Forall_app; split; [assumption | repeat constructor]|].
  split; [|split; reflexivity].
  rewrite existsb_app. apply orb_true_iff. right.
  unfold isUnlinkOf, obsOf. cbn [existsb event].
  assert (Hp : eqb p p = true).
  { clear. induction p as [|c r IH]; [reflexivity|]. simpl. rewrite N.eqb_refl. exact IH. }
  rewrite Hp. reflexivity.
Qed.

(** What [kill()] does to the trace and to the child. *)
Lemma child_kill_run (ref : nat) (s : St) :
  exists r s',
    child_kill env ref s = (r, s')
    /\ trace s' = [obsOf (EKill ref) s] ++ trace s
    /\ (forall c, r <> Exit c)
    /\ currentServeWebBaseUrl (prog s') = currentServeWebBaseUrl (prog s)
    /\ currentServeWebSocketPath (prog s') = currentServeWebSocketPath (prog s)
    /\ heap (prog s')
       = (match fst (kill env ref (rest (world s))) with
          | Returned true => update ref markKilled (heap (prog s))
          | _ => heap (prog s)
          end).
Proof.
  unfold child_kill. rewrite (sw_bind_ok _ (note_run _ s)).
  unfold perform, bind, ask, setChild, modifyG, ret, throw. cbn [world prog trace].
  destruct (kill env ref (rest (world s))) as [[[|]|e] w']; cbn [fst];
    eexists _, _; (split; [reflexivity|]); cbn [trace prog];
    repeat split; discriminate.
Qed.

Lemma filter_notKill (l : list Obs) : Forall notKill l -> filter isKill l = [].
Proof.
  induction 1 as [|o l Ho _ IH]; [reflexivity|].
  simpl. unfold notKill in Ho. rewrite Ho. exact IH.
Qed.

Lemma eqb_refl (p : jsstring) : eqb p p = true.
Proof. induction p as [|c r IH]; [reflexivity|]. simpl. rewrite N.eqb_refl. exact IH. Qed.

Lemma nth_error_update_same {A} (i : nat) (f : A -> A) (l : list A) (x : A) :
  nth_error l i = Some x -> nth_error (update i f l) i = Some (f x).
Proof.
  intros H. unfold update. rewrite H.
  assert (Hlen : (i < List.length l)%nat) by (apply nth_error_Some; congruence).
  rewrite nth_error_app2 by (rewrite length_firstn; lia).
  rewrite length_firstn. replace (i - Nat.min i (List.length l))%nat with 0%nat by lia.
  reflexivity.
Qed.

Lemma launchFailed_spec (child : option nat) (p : jsstring) (err : exn) (s : St) :
  exists s' l,
    launchFailed env child p err s = (Ok None, s')
    /\ trace s' = l ++ trace s
    /\ List.map event (filter isKill l) = expectedKill child (prog s)
    /\ existsb (isUnlinkOf p) l = true
    /\ currentServeWebBaseUrl (prog s') = None
    /\ currentServeWebSocketPath (prog s') = None.
Proof.
  unfold launchFailed, logger_error2.
  rewrite (sw_bind_ok _ (note_run _ s)).
  set (s1 := mkSt (prog s) (world s) _).
  assert (Hk : exists s2 l2,
             (match child with
              | Some ref =>
                  c <- getChild ref;;
                  match c with
                  | Some c =>
                      if notKilledNoExitCode c then
                        try_catch (child_kill env ref;; ret tt)
                          (fun killError =>
                             logger_warn2
                               (lit "Failed to terminate VS Code serve-web after launch failure:")
                               killError)
                      else ret tt
                  | None => ret tt
                  end
              | None => ret tt
              end) s1 = (Ok tt, s2)
             /\ trace s2 = l2 ++ trace s1
             /\ List.map event (filter isKill l2) = expectedKill child (prog s)).
  { unfold expectedKill. destruct child as [ref|]; [|exists s1, []; auto].
    rewrite (sw_bind_ok _ (getChild_run ref s1)).
    change (heap (prog s1)) with (heap (prog s)).
    destruct (nth_error (heap (prog s)) ref) as [c|]; [|exists s1, []; auto].
    destruct (notKilledNoExitCode c); [|exists s1, []; auto].
    destruct (child_kill_run ref s1) as (r & s2 & E & T & N & _).
    unfold try_catch, bind. rewrite E. destruct r as [b|e|c0].
    - exists s2, [obsOf (EKill ref) s1]. auto.
    - unfold logger_warn2. rewrite note_run.
      eexists _, [_; obsOf (EKill ref) s1]. cbn [trace]. rewrite T.
      repeat split.
    - exfalso. exact (N c0 eq_refl). }
  destruct Hk as (s2 & l2 & E2 & T2 & K2).
  rewrite (sw_bind_ok _ E2).
  destruct (cleanup_tail p s2) as (s3 & l3 & E3 & T3 & F3 & U3 & C3 & C3').
  exists s3, (l3 ++ l2 ++ [obsOf (ELog Error
                 [lit "Failed to launch VS Code serve-web via unix socket:";
                  exn_toString err]) s]).
  split; [exact E3|].
  split; [rewrite T3, T2; subst s1; cbn [trace]; rewrite <- !app_assoc; reflexivity|].
  split; [|split; [|split; assumption]].
  - rewrite !filter_app, (filter_notKill F3). cbn [filter isKill event obsOf app].
    rewrite app_nil_r. exact K2.
  - rewrite existsb_app, U3. reflexivity.
Qed.

Lemma stop_spec (hd : VSCodeServeWebHandle) (s : St) :
  exists s' l,
    stopVSCodeServeWeb env (Some hd) s = (Ok tt, s')
    /\ trace s' = l ++ trace s
    /\ Forall (fun o => sawNothing o = true) l
    /\ existsb (isUnlinkOf (socketPath hd)) l = true
    /\ List.map event (filter isKill l) = stopKill (process hd) (prog s)
    /\ currentServeWebBaseUrl (prog s') = None
    /\ currentServeWebSocketPath (prog s') = None
    /\ heap (prog s') = heapAfterStop env (process hd) s.
Proof.
  unfold stopVSCodeServeWeb, stopKill, heapAfterStop.
  rewrite (sw_bind_ok _ (modifyG_run _ _)).
  rewrite (sw_bind_ok _ (modifyG_run _ _)).
  rewrite (sw_bind_ok _ (note_run _ _)).
  rewrite (sw_bind_ok _ (modifyG_run _ _)).
  rewrite (sw_bind_ok _ (getChild_run _ _)).
  cbn [prog world trace setBaseUrl setSocketPath setPending heap
       currentServeWebBaseUrl currentServeWebSocketPath].
  set (s1 := mkSt _ (world s) _).
  set (u := obsOf (EUnlink (socketPath hd))
              (mkSt (setSocketPath None (setBaseUrl None (prog s))) (world s) (trace s))).
  assert (Hu : sawNothing u = true) by reflexivity.
  assert (Hun : isKill u = false) by reflexivity.
  assert (Hup : isUnlinkOf (socketPath hd) u = true)
    by (unfold isUnlinkOf, u; cbn [event obsOf]; apply eqb_refl).
  destruct (nth_error (heap (prog s)) (process hd)) as [c|];
    [destruct (gone c)|].
  - exists s1, [u].
    split; [reflexivity|]. split; [reflexivity|].
    split; [repeat constructor; exact Hu|].
    split; [cbn [existsb]; rewrite Hup; reflexivity|].
    split; [cbn [filter]; rewrite Hun; reflexivity|].
    repeat split.
  - unfold logger_info. rewrite (sw_bind_ok _ (note_run _ _)).
    set (i := obsOf (ELog Info [lit "Stopping VS Code serve-web process..."]) s1).
    match goal with |- context [try_catch _ _ ?st] => set (s2 := st) end.
    destruct (child_kill_run (process hd) s2) as (r & s3 & E & T & N & B & P & H).
    unfold try_catch, bind. rewrite E.
    assert (Hk : sawNothing (obsOf (EKill (process hd)) s2) = true) by reflexivity.
    destruct r as [b|e|c0].
    + exists s3, [obsOf (EKill (process hd)) s2; i; u].
      split; [reflexivity|]. split; [rewrite T; reflexivity|].
      split; [repeat constructor; assumption|].
      split; [cbn [existsb]; rewrite Hup; apply orb_true_r|].
      split; [reflexivity|].
      split; [rewrite B; reflexivity|]. split; [rewrite P; reflexivity|].
      exact H.
    + unfold logger_error2. rewrite note_run.
      eexists _, [_; obsOf (EKill (process hd)) s2; i; u].
      split; [reflexivity|]. cbn [trace prog]. split; [rewrite T; reflexivity|].
      split.
      { constructor; [|repeat constructor; assumption].
        unfold sawNothing, obsOf. cbn [seenBaseUrl seenSocketPath]. rewrite B, P.
        reflexivity. }
      split; [cbn [existsb]; rewrite Hup; rewrite !orb_true_r; reflexivity|].
      split; [reflexivity|].
      split; [rewrite B; reflexivity|]. split; [rewrite P; reflexivity|].
      exact H.
    + exfalso. exact (N c0 eq_refl).
  - exists s1, [u].
    split; [reflexivity|]. split; [reflexivity|].
    split; [repeat constructor; exact Hu|].
    split; [cbn [existsb]; rewrite Hup; reflexivity|].
    split; [cbn [filter]; rewrite Hun; reflexivity|].
    repeat split.
Qed.

(** The only value ever stored as base URL is not the empty string. *)
Lemma stored_base_url_truthy : truthy (lit "http://" ++ LOCAL_VSCODE_HOST env) = true.
Proof. reflexivity. Qed.



(** C8, amended.  [stopVSCodeServeWeb] never raises, and does nothing for
    a [null] handle.  For a handle: everything it does (starting the
    removal of the socket file, signalling the child) happens after the two
    cached values are cleared; the child is signalled exactly when it is
    not marked killed and has neither exit code nor signal code; and when
    the child was already gone or this signal is delivered, a second call
    signals nothing and leaves the cached values and the child objects as
    the first call left them.  A missing socket file (ENOENT) is not
    reported. *)
Theorem stop_idempotent_once_child_gone
    (h : option VSCodeServeWebHandle) (s : St) :
  let r1 := stopVSCodeServeWeb env h s in
  let r2 := stopVSCodeServeWeb env h (snd r1) in
  fst r1 = Ok tt /\ fst r2 = Ok tt
  /\ (h = None -> snd r1 = s /\ snd r2 = s)
  /\ (forall hd, h = Some hd ->
        exists l1 l2,
          trace (snd r1) = l1 ++ trace s
          /\ trace (snd r2) = l2 ++ trace (snd r1)
          /\ Forall (fun o => sawNothing o = true) (l2 ++ l1)
          /\ existsb (isUnlinkOf (socketPath hd)) l1 = true
          /\ List.map event (filter isKill l1) = stopKill (process hd) (prog s)
          /\ currentServeWebBaseUrl (prog (snd r1)) = None
          /\ currentServeWebSocketPath (prog (snd r1)) = None
          /\ ((forall c, nth_error (heap (prog s)) (process hd) = Some c ->
                 gone c = true
                 \/ fst (kill env (process hd) (rest (world s))) = Returned true) ->
              filter isKill l2 = []
              /\ visible (prog (snd r2)) = visible (prog (snd r1))))
  /\ (forall p msg s0,
         unlinkRejected (W := W) p (ErrnoError (lit "ENOENT") msg) s0 = (Ok tt, s0)).
Proof.
  destruct h as [hd|]; cbn zeta.
  - destruct (stop_spec hd s) as (s1 & l1 & E1 & T1 & F1 & U1 & K1 & B1 & P1 & H1).
    rewrite E1. cbn [fst snd].
    destruct (stop_spec hd s1) as (s2 & l2 & E2 & T2 & F2 & U2 & K2 & B2 & P2 & H2).
    rewrite E2. cbn [fst snd].
    split; [reflexivity|]. split; [reflexivity|].
    split; [discriminate|]. split; [|reflexivity].
    intros hd' Hhd. inversion Hhd; subst hd'.
    exists l1, l2.
    split; [exact T1|]. split; [exact T2|].
    split; [apply Forall_app; split; assumption|].
    split; [exact U1|]. split; [exact K1|]. split; [exact B1|]. split; [exact P1|].
    intros Hgone.
    assert (Hafter : forall c', nth_error (heap (prog s1)) (process hd) = Some c' ->
                                gone c' = true).
    { intros c' Hc'. rewrite H1 in Hc'. unfold heapAfterStop in Hc'.
      destruct (nth_error (heap (prog s)) (process hd)) as [c|] eqn:Hc.
      - destruct (gone c) eqn:Hg.
        + rewrite Hc in Hc'. inversion Hc'; subst. exact Hg.
        + destruct (Hgone c eq_refl) as [Hg'|Hd]; [congruence|].
          rewrite Hd in Hc'. rewrite (nth_error_update_same _ _ _ Hc) in Hc'.
          inversion Hc'; subst. reflexivity.
      - rewrite Hc in Hc'. discriminate. }
    assert (Hnone : stopKill (process hd) (prog s1) = []).
    { unfold stopKill.
      destruct (nth_error (heap (prog s1)) (process hd)) as [c'|] eqn:Hc';
        [|reflexivity].
      rewrite (Hafter c' eq_refl). reflexivity. }
    split.
    + rewrite Hnone in K2. destruct (filter isKill l2); [reflexivity | discriminate K2].
    + unfold visible. rewrite B1, P1, B2, P2, H2. unfold heapAfterStop.
      destruct (nth_error (heap (prog s1)) (process hd)) as [c'|] eqn:Hc';
        [|reflexivity].
      rewrite (Hafter c' eq_refl). reflexivity.
  - split; [reflexivity|]. split; [reflexivity|].
    split; [intros _; split; reflexivity|]. split; [discriminate|reflexivity].
Qed.

Lemma Date_now_run (s : St) : Date_now s = (Ok (clock (world s)), s).
Proof. reflexivity. Qed.

Lemma await_raised {R} (op : W -> outcome R * W) (s : St) (e : exn) (w' : W) :
  op (rest (world s)) = (Raised e, w') ->
  exists s', await env op s = (Throw e, s').
Proof.
  intros H. unfold await, askW. unfold bind at 1. unfold ask. rewrite H.
  match goal with
  | |- context [bind (yield env) _ ?st] =>
      destruct (yield_returns st) as ([] & s1 & l1 & E1 & _)
  end.
  rewrite (sw_bind_ok _ E1). eexists. reflexivity.
Qed.

(** One round of the waiting loop while the socket file is not there: it
    asks to continue, or it throws. *)
Lemma poll_not_ready (p : jsstring) (s : St) :
  (forall w, exists e w', access env p F_OK w = (Raised e, w')) ->
  exists r s',
    try_catch
      (note (EAccess p F_OK);; await env (access env p F_OK);; ret true)
      (fun error => if isENOENT error then setTimeout env 100;; ret false
                    else throw error) s = (r, s')
    /\ (r = Ok false \/ exists e, r = Throw e).
Proof.
  intros Hacc. unfold try_catch. rewrite (sw_bind_ok _ (note_run _ s)).
  match goal with
  | |- context [bind (await env _) _ ?st] =>
      destruct (Hacc (rest (world st))) as (e & w' & Hw);
      destruct (await_raised _ st Hw) as (s1 & E1)
  end.
  unfold bind at 1. rewrite E1.
  destruct (isENOENT e).
  - destruct (setTimeout_returns 100 s1) as ([] & s2 & l2 & E2 & _).
    rewrite (sw_bind_ok _ E2). eexists _, _. split; [reflexivity|]. left. reflexivity.
  - eexists _, _. split; [reflexivity|]. right. eexists. reflexivity.
Qed.

(** While the socket file is not there the waiting loop cannot return:
    it ends by throwing. *)
Lemma waitForSocket_loop_never_ready (fuel : nat) (p : jsstring) (deadline : Z) (s : St) :
  (forall w, exists e w', access env p F_OK w = (Raised e, w')) ->
  exists e s', waitForSocket_loop env fuel p deadline s = (Throw e, s').
Proof.
  intros Hacc. revert s. induction fuel as [|fuel IH]; intros s;
    cbn [waitForSocket_loop]; rewrite (sw_bind_ok _ (Date_now_run s));
    destruct (clock (world s) <? deadline)%Z; try (eexists _, _; reflexivity).
  cbv iota.
  destruct (poll_not_ready p s Hacc) as (r & s1 & E1 & [->|[e ->]]).
  - unfold bind at 1. rewrite E1. apply IH.
  - unfold bind at 1. rewrite E1. eexists _, _. reflexivity.
Qed.

(** *** The clock, and the fuel of the waiting loop *)

Lemma monotone_ret {A} (a : A) : monotone (ret a : M A).
Proof. intros s r s' H. inversion H. lia. Qed.

Lemma monotone_throw {A} (e : exn) : monotone (throw e : M A).
Proof. intros s r s' H. inversion H. lia. Qed.

Lemma monotone_emit (o : Obs) : monotone (emit o : M unit).
Proof. intros s r s' H. inversion H. simpl. lia. Qed.

Lemma monotone_getG : monotone (getG : M Globals).
Proof. intros s r s' H. inversion H. lia. Qed.

Lemma monotone_modifyG (f : Globals -> Globals) : monotone (modifyG f : M unit).
Proof. intros s r s' H. inversion H. simpl. lia. Qed.

Lemma monotone_askW {R} (f : W -> R * W) : monotone (askW f).
Proof.
  intros s r s' H. unfold askW, ask in H.
  destruct (f (rest (world s))) as [x w']. inversion H. simpl. lia.
Qed.

Lemma monotone_tick (ms : Z) : (0 <= ms)%Z -> monotone (tick (W := W) ms).
Proof. intros Hms s r s' H. inversion H. simpl. lia. Qed.

Lemma monotone_bind {A B} (m : M A) (k : A -> M B) :
  monotone m -> (forall a, monotone (k a)) -> monotone (bind m k).
Proof.
  intros Hm Hk s r s' H. unfold bind in H.
  destruct (m s) as [[a|e|c] s1] eqn:E; specialize (Hm _ _ _ E).
  - specialize (Hk a _ _ _ H). lia.
  - inversion H; subst. exact Hm.
  - inversion H; subst. exact Hm.
Qed.

Lemma monotone_try_catch {A} (m : M A) (h : exn -> M A) :
  monotone m -> (forall e, monotone (h e)) -> monotone (try_catch m h).
Proof.
  intros Hm Hh s r s' H. unfold try_catch in H.
  destruct (m s) as [[a|e|c] s1] eqn:E; specialize (Hm _ _ _ E).
  - inversion H; subst. exact Hm.
  - specialize (Hh e _ _ _ H). lia.
  - inversion H; subst. exact Hm.
Qed.

Ltac mono_step :=
  match goal with
  | |- monotone (ret _) => apply monotone_ret
  | |- monotone (throw _) => apply monotone_throw
  | |- monotone (emit _) => apply monotone_emit
  | |- monotone getG => apply monotone_getG
  | |- monotone (modifyG _) => apply monotone_modifyG
  | |- monotone (askW _) => apply monotone_askW
  | |- monotone (tick _) => apply monotone_tick; lia
  | |- monotone (bind _ _) => apply monotone_bind; [|intros ?]
  | |- monotone (try_catch _ _) => apply monotone_try_catch; [|intros ?]
  | |- monotone (if ?b then _ else _) => destruct b
  | |- monotone (match ?x with _ => _ end) => destruct x
  end.

Ltac mono :=
  unfold logger_info, logger_warn, logger_warn2, logger_error2, logger_debug2,
    getChild, setChild, note;
  repeat mono_step.

Lemma monotone_deliver (ev : nat * ChildEvent) : monotone (deliver (W := W) ev).
Proof. unfold deliver, onExit, onError. destruct ev as [ref e]. mono. Qed.

Lemma monotone_deliverAll (evs : list (nat * ChildEvent)) :
  monotone (deliverAll (W := W) evs).
Proof.
  induction evs as [|ev r IH]; simpl; [apply monotone_ret|].
  apply monotone_bind; [apply monotone_deliver | intros _; exact IH].
Qed.

Lemma monotone_settleAll (ps : list jsstring) : monotone (settleAll env ps).
Proof.
  induction ps as [|p r IH]; simpl; [apply monotone_ret|].
  unfold unlinkRejected. mono; exact IH.
Qed.

Lemma monotone_yield : monotone (yield env).
Proof.
  unfold yield, settlePending. mono;
    first [apply monotone_settleAll | apply monotone_deliverAll].
Qed.

Lemma monotone_await {R} (op : W -> outcome R * W) : monotone (await env op).
Proof. unfold await. mono. apply monotone_yield. Qed.

(** A timer of [ms] milliseconds lasts at least that long. *)
Lemma setTimeout_lasts (ms : Z) (s : St) r s' :
  setTimeout env ms s = (r, s') -> (clock (world s) + ms <= clock (world s'))%Z.
Proof.
  unfold setTimeout. rewrite (sw_bind_ok _ (note_run _ s)).
  unfold tick, tell. unfold bind at 1. intros H.
  apply monotone_yield in H. simpl in H. exact H.
Qed.

(** A round that asks to continue has lasted at least 100 ms. *)
Lemma pollSocket_continue (p : jsstring) (s s' : St) :
  pollSocket env p s = (Ok false, s') ->
  (clock (world s) + 100 <= clock (world s'))%Z.
Proof.
  unfold pollSocket, try_catch. rewrite (sw_bind_ok _ (note_run _ s)).
  unfold bind at 1.
  match goal with
  | |- context [await env ?op ?st] =>
      destruct (await env op st) as [[a|e|c] s1] eqn:E;
      apply monotone_await in E; simpl in E
  end.
  - intros H. inversion H.
  - destruct (isENOENT e); [|intros H; inversion H].
    unfold bind. destruct (setTimeout env 100 s1) as [[a|e'|c] s2] eqn:E2;
      intros H; inversion H; subst.
    apply setTimeout_lasts in E2. lia.
  - intros H. inversion H.
Qed.

(** The loop of [waitForSocket] does the same whatever the fuel, as long
    as there is one unit of it per millisecond left to the deadline: the
    fuel never runs out. *)
Lemma waitForSocket_loop_fuel (fuel1 fuel2 : nat) (p : jsstring) (deadline : Z) (s : St) :
  (deadline - clock (world s) <= Z.of_nat fuel1)%Z ->
  (deadline - clock (world s) <= Z.of_nat fuel2)%Z ->
  waitForSocket_loop env fuel1 p deadline s = waitForSocket_loop env fuel2 p deadline s.
Proof.
  revert fuel2 s. induction fuel1 as [|f1 IH]; intros fuel2 s H1 H2;
    destruct fuel2 as [|f2]; cbn [waitForSocket_loop];
    rewrite !(sw_bind_ok _ (Date_now_run s));
    destruct (Z.ltb_spec (clock (world s)) deadline) as [Hlt|Hge];
    try reflexivity; try (exfalso; simpl in *; lia).
  fold (pollSocket env p). unfold bind.
  destruct (pollSocket env p s) as [[[|]|e|c] s1] eqn:E; try reflexivity.
  apply pollSocket_continue in E. apply IH; lia.
Qed.

(** A warm-up round that asks to continue has lasted at least 500 ms. *)
Lemma probeOnce_continue (p : jsstring) (s s' : St) :
  probeOnce env p s = (Ok false, s') ->
  (clock (world s) + 500 <= clock (world s'))%Z.
Proof.
  unfold probeOnce, try_catch. rewrite (sw_bind_ok _ (note_run _ s)).
  unfold bind at 1.
  match goal with
  | |- context [await env ?op ?st] =>
      destruct (await env op st) as [[a|e|c] s1] eqn:E;
      apply monotone_await in E; simpl in E
  end.
  - unfold logger_info. rewrite (sw_bind_ok _ (note_run _ _)). intros H. inversion H.
  - unfold bind at 1.
    destruct (logger_debug2 env (lit "VS Code serve-web warm-up attempt failed:") e s1)
      as [[[]|e'|c] s2] eqn:E2.
    + assert (M2 : (clock (world s1) <= clock (world s2))%Z).
      { revert E2. unfold logger_debug2. destruct (hasDebug env); intros H;
          inversion H; simpl; lia. }
      unfold bind. destruct (setTimeout env 500 s2) as [[a|e'|c] s3] eqn:E3;
        intros H; inversion H; subst.
      apply setTimeout_lasts in E3. lia.
    + intros H. inversion H.
    + intros H. inversion H.
  - intros H. inversion H.
Qed.

(** The warm-up loop does not run out of fuel either. *)
Lemma warmUp_loop_fuel (fuel1 fuel2 : nat) (p : jsstring) (deadline : Z) (s : St) :
  (deadline - clock (world s) <= Z.of_nat fuel1)%Z ->
  (deadline - clock (world s) <= Z.of_nat fuel2)%Z ->
  warmUp_loop env fuel1 p deadline s = warmUp_loop env fuel2 p deadline s.
Proof.
  revert fuel2 s. induction fuel1 as [|f1 IH]; intros fuel2 s H1 H2;
    destruct fuel2 as [|f2]; cbn [warmUp_loop];
    rewrite !(sw_bind_ok _ (Date_now_run s));
    destruct (Z.ltb_spec (clock (world s)) deadline) as [Hlt|Hge];
    try reflexivity; try (exfalso; simpl in *; lia).
  fold (probeOnce env p). unfold bind.
  destruct (probeOnce env p s) as [[[|]|e|c] s1] eqn:E; try reflexivity.
  apply probeOnce_continue in E. apply IH; lia.
Qed.

(** While the socket file is missing (ENOENT), the loop ends with the
    time-out error, not before the deadline. *)
Lemma waitForSocket_loop_times_out (fuel : nat) (p : jsstring) (deadline : Z) (s : St) :
  (forall w, exists msg w',
      access env p F_OK w = (Raised (ErrnoError (lit "ENOENT") msg), w')) ->
  (deadline - clock (world s) <= Z.of_nat fuel)%Z ->
  exists s',
    waitForSocket_loop env fuel p deadline s = (Throw (socketTimeoutError p), s')
    /\ (deadline <= clock (world s'))%Z.
Proof.
  intros Hacc. revert s. induction fuel as [|fuel IH]; intros s Hf;
    cbn [waitForSocket_loop]; rewrite (sw_bind_ok _ (Date_now_run s));
    destruct (Z.ltb_spec (clock (world s)) deadline) as [Hlt|Hge];
    try (exfalso; simpl in *; lia);
    try (exists s; split; [reflexivity | exact Hge]).
  fold (pollSocket env p).
  assert (Hp : exists s1, pollSocket env p s = (Ok false, s1)).
  { unfold pollSocket, try_catch. rewrite (sw_bind_ok _ (note_run _ s)).
    match goal with
    | |- context [bind (await env _) _ ?st] =>
        destruct (Hacc (rest (world st))) as (msg & w' & Hw);
        destruct (await_raised _ st Hw) as (s1 & E1)
    end.
    unfold bind at 1. rewrite E1. cbn [isENOENT].
    change (eqb (lit "ENOENT") (lit "ENOENT")) with true. cbv iota.
    destruct (setTimeout_returns 100 s1) as ([] & s2 & l2 & E2 & _).
    rewrite (sw_bind_ok _ E2). eexists. reflexivity. }
  destruct Hp as (s1 & Hp). rewrite (sw_bind_ok _ Hp).
  apply IH. apply pollSocket_continue in Hp. lia.
Qed.

(** *** [ensureVSCodeServeWeb] never raises *)

Lemma forall_any (l : list Obs) : Forall (fun _ : Obs => True) l.
Proof. induction l; constructor; auto. Qed.

Lemma tryLookups_returns (l : list (jsstring * list jsstring)) :
  returns notKill (tryLookups env l).
Proof.
  induction l as [|[command args] r IH]; cbn [tryLookups]; [apply returns_ret|].
  apply returns_bind.
  - apply returns_try_catch.
    + apply safe_bind; [apply returns_safe; sw|]. intros _.
      apply safe_bind; [apply await_safe|]. intros out.
      apply returns_safe. sw.
    + intros e. sw.
  - intros found. destruct found; [apply returns_ret | exact IH].
Qed.

Lemma resolveVSCodeExecutable_returns : returns notKill (resolveVSCodeExecutable env).
Proof.
  unfold resolveVSCodeExecutable.
  apply returns_bind; [apply returns_getG|]. intros g.
  destruct (truthy_opt (resolvedVSCodeExecutable g)); [apply returns_ret|].
  apply returns_bind; [apply tryLookups_returns|]. intros _.
  apply returns_bind; [apply returns_getG|]. intros g'.
  apply returns_bind; [|intros _; sw].
  destruct (envSHELL env) as [shell|]; [|apply returns_ret].
  destruct (negb (truthy_opt (resolvedVSCodeExecutable g')) && truthy shell);
    [|apply returns_ret].
  apply returns_try_catch.
  - apply safe_bind; [apply returns_safe; sw|]. intros _.
    apply safe_bind; [apply await_safe|]. intros out.
    apply returns_safe. sw.
  - intros e. sw.
Qed.

Lemma getVSCodeExecutable_returns : returns notKill (getVSCodeExecutable env).
Proof.
  unfold getVSCodeExecutable.
  apply returns_bind; [sw|]. intros _.
  apply returns_bind; [apply resolveVSCodeExecutable_returns|]. intros executable.
  destruct executable as [exe|]; [|apply returns_ret].
  destruct (negb (truthy exe)); [apply returns_ret|].
  apply returns_try_catch.
  - apply safe_bind; [|intros _; apply returns_safe, returns_ret].
    destruct (negb (isWin32 env)); [|apply returns_safe, returns_ret].
    apply safe_bind; [apply returns_safe; sw|]. intros _. apply await_safe.
  - intros e. sw.
Qed.

Lemma launch_returns (exe path : jsstring) :
  returns (fun _ : Obs => True) (launch env exe path).
Proof.
  assert (Hf : forall child e, returns (fun _ : Obs => True)
                                 (launchFailed env child path e)).
  { intros child e s.
    destruct (launchFailed_spec child path e s) as (s' & l & E & T & _).
    exists None, s', l. split; [exact E|]. split; [exact T|]. apply forall_any. }
  unfold launch. apply returns_try_catch; [|intros e; apply Hf].
  apply safe_bind.
  - intros s. destruct (spawnServeWeb env exe path s) as [r s'] eqn:E.
    revert E. unfold spawnServeWeb.
    destruct (removeStaleSocket_returns path s) as ([] & s1 & l1 & E1 & T1 & _).
    rewrite (sw_bind_ok _ E1). unfold logger_info.
    rewrite (sw_bind_ok _ (note_run _ _)), (sw_bind_ok _ (note_run _ _)).
    unfold perform. unfold bind at 1. unfold bind at 1. unfold ask. cbn [world].
    destruct (spawn env exe (serveWebArgs path) (rest (world s1))) as [[p|e] w'];
      intros H; inversion H; subst; eexists _, _, _;
      (split; [reflexivity|]); cbn [trace]; rewrite T1;
      (split; [repeat (rewrite app_comm_cons); reflexivity|]);
      (split; [apply forall_any | discriminate]).
  - intros ref. apply returns_safe. apply returns_try_catch; [|intros e; apply Hf].
    apply (safe_weaken (P := notKill)); [auto|].
    unfold awaitServeWeb, waitForSocket, warmUpVSCodeServeWeb.
    apply safe_bind; [apply returns_safe; sw|]. intros _.
    apply safe_bind.
    { apply safe_bind; [apply returns_safe, returns_Date_now|]. intros now.
      apply waitForSocket_loop_safe. }
    intros _. apply safe_bind; [apply returns_safe; sw|]. intros _.
    apply safe_bind; [apply returns_safe; sw|]. intros _.
    apply safe_bind; [apply returns_safe; sw|]. intros c.
    apply safe_bind; [apply returns_safe; sw|]. intros _.
    apply safe_bind; [|intros _; apply returns_safe, returns_ret].
    apply safe_bind; [apply returns_safe, returns_Date_now|]. intros now.
    apply safe_bind; [apply warmUp_loop_safe|]. intros done.
    apply returns_safe. sw.
Qed.

(** Whatever the world does, [ensureVSCodeServeWeb] returns a handle or
    [null]; it never raises. *)
Lemma ensureVSCodeServeWeb_returns :
  returns (fun _ : Obs => True) (ensureVSCodeServeWeb env).
Proof.
  unfold ensureVSCodeServeWeb.
  apply returns_bind; [sw; exact I|]. intros _.
  apply returns_bind.
  { apply (returns_weaken (P := notKill)); [auto|]. apply getVSCodeExecutable_returns. }
  intros executable. destruct executable as [exe|]; [|sw; exact I].
  destruct (negb (truthy exe)); [sw; exact I|].
  destruct (isWin32 env); [sw; exact I|].
  apply returns_bind; [|intros path; apply launch_returns].
  unfold createSocketPath. apply returns_bind; [apply returns_Date_now|].
  intros now. apply returns_ret.
Qed.

(** C7, amended.  When the executable is found, the platform has unix
    sockets, the server process is spawned and its socket file never
    appears: [ensureVSCodeServeWeb] returns [null] instead of raising, both
    cached values are [null] afterwards, the removal of the socket file is
    attempted, and the spawned child is signalled exactly when it is not
    marked killed and has no exit code at that moment (a child that has
    already exited is not signalled).  When the file is reported missing
    every time, the failure is the time-out error and comes no sooner
    than 15 seconds after the spawn. *)
Theorem socket_timeout_cleanup (s0 s1 : St) (exe : jsstring) :
  getVSCodeExecutable env
    (snd (logger_info (lit "Ensuring VS Code serve-web availability...") s0))
  = (Ok (Some exe), s1) ->
  truthy exe = true ->
  isWin32 env = false ->
  (forall cmd args w, exists p w', spawn env cmd args w = (Returned p, w')) ->
  (forall p w, exists e w', access env p F_OK w = (Raised e, w')) ->
  exists path ref spawned err failed s' l,
    createSocketPath env s1 = (Ok path, s1)
    /\ spawnServeWeb env exe path s1 = (Ok ref, spawned)
    /\ awaitServeWeb env ref exe path spawned = (Throw err, failed)
    /\ ensureVSCodeServeWeb env s0 = (Ok None, s')
    /\ currentServeWebBaseUrl (prog s') = None
    /\ currentServeWebSocketPath (prog s') = None
    /\ trace s' = l ++ trace failed
    /\ existsb (isUnlinkOf path) l = true
    /\ List.map event (filter isKill l) = expectedKill (Some ref) (prog failed)
    /\ ((forall p w, exists msg w',
            access env p F_OK w = (Raised (ErrnoError (lit "ENOENT") msg), w')) ->
        err = socketTimeoutError path
        /\ (clock (world spawned) + SOCKET_READY_TIMEOUT_MS <= clock (world failed))%Z).
Proof.
  intros Hexe Htruthy Hwin Hspawn Hacc.
  set (path := tmpdir env ++ lit "/cmux-vscode-" ++ numberToString (processPid env)
               ++ lit "-" ++ numberToString (clock (world s1)) ++ lit ".sock").
  assert (Epath : createSocketPath env s1 = (Ok path, s1)) by reflexivity.
  (* the child is spawned *)
  destruct (removeStaleSocket_returns path s1) as ([] & s2 & l2 & E2 & _).
  assert (Espawn : exists ref spawned, spawnServeWeb env exe path s1 = (Ok ref, spawned)).
  { unfold spawnServeWeb. rewrite (sw_bind_ok _ E2).
    unfold logger_info. rewrite (sw_bind_ok _ (note_run _ _)).
    rewrite (sw_bind_ok _ (note_run _ _)).
    unfold perform. unfold bind at 1. unfold bind at 1. unfold ask.
    cbn [world]. destruct (Hspawn exe (serveWebArgs path) (rest (world s2))) as (p & w' & Hp).
    rewrite Hp. eexists _, _. reflexivity. }
  destruct Espawn as (ref & spawned & Espawn).
  (* waiting for the socket fails *)
  assert (Eawait : exists err failed,
             awaitServeWeb env ref exe path spawned = (Throw err, failed)).
  { unfold awaitServeWeb. rewrite (sw_bind_ok _ (note_run _ _)).
    unfold waitForSocket. unfold bind at 1. rewrite (sw_bind_ok _ (Date_now_run _)).
    match goal with
    | |- context [waitForSocket_loop env ?f path ?d ?st] =>
        destruct (waitForSocket_loop_never_ready f path d st (Hacc path))
          as (err & failed & Ew)
    end.
    rewrite Ew. eexists _, _. reflexivity. }
  destruct Eawait as (err & failed & Eawait).
  assert (Hdeadline :
            (forall p w, exists msg w',
                access env p F_OK w = (Raised (ErrnoError (lit "ENOENT") msg), w')) ->
            err = socketTimeoutError path
            /\ (clock (world spawned) + SOCKET_READY_TIMEOUT_MS
                <= clock (world failed))%Z).
  { intros Hmissing. revert Eawait. unfold awaitServeWeb.
    rewrite (sw_bind_ok _ (note_run _ _)).
    unfold waitForSocket. unfold bind at 1. rewrite (sw_bind_ok _ (Date_now_run _)).
    match goal with
    | |- context [waitForSocket_loop env ?f path ?d ?st] =>
        destruct (@waitForSocket_loop_times_out f path d st (Hmissing path))
          as (s3 & Ew & Hc)
    end.
    - cbn [world clock]. change (Z.of_nat (Z.to_nat SOCKET_READY_TIMEOUT_MS))
        with SOCKET_READY_TIMEOUT_MS. lia.
    - rewrite Ew. intros H. inversion H; subst. split; [reflexivity|].
      cbn [world clock] in Hc. exact Hc. }
  destruct (launchFailed_spec (Some ref) path err failed)
    as (s' & l & Ef & Tf & Kf & Uf & Bf & Pf).
  exists path, ref, spawned, err, failed, s', l.
  split; [exact Epath|]. split; [exact Espawn|]. split; [exact Eawait|].
  split; [|repeat split; try assumption; apply Hdeadline; assumption].
  unfold ensureVSCodeServeWeb.
  assert (El : logger_info (W := W) (lit "Ensuring VS Code serve-web availability...") s0
               = (Ok tt, snd (logger_info (W := W)
                                (lit "Ensuring VS Code serve-web availability...") s0)))
    by reflexivity.
  rewrite (sw_bind_ok _ El), (sw_bind_ok _ Hexe), Htruthy, Hwin. cbn [negb].
  rewrite (sw_bind_ok _ Epath).
  unfold launch, try_catch. rewrite (sw_bind_ok _ Espawn), Eawait, Ef. reflexivity.
Qed.

End WithWorld.

Import HostSim.

(** C7 as stated fails: when the child has already exited with an exit
    code (here with code 1 during the wait), the socket never appears, the
    function returns [null] and clears the cache, but no [kill()] is
    issued. *)
Lemma exited_child_is_not_killed :
  (forall p w, exists e w', access (hostEnv crashing) p F_OK w = (Raised e, w'))
  /\ existsb (fun o => match event o with ESpawn _ _ => true | _ => false end)
       (trace (serving crashing)) = true
  /\ fst (ensureVSCodeServeWeb (hostEnv crashing) boot) = Ok None
  /\ visible (prog (serving crashing))
     = (None, None,
        [{| pid := Some 5151%Z; killed := false;
            exitCode := Some 1%Z; signalCode := None |}])
  /\ kills (trace (serving crashing)) = []
  /\ clock (world (serving crashing)) = (clock (world boot) + SOCKET_READY_TIMEOUT_MS)%Z.
Proof.
  split; [intros p w; eexists _, _; reflexivity|].
  vm_compute. repeat split.
Qed.

Lemma socket_timeout_cleanup_witness :
  exists path ref spawned err failed s' l,
    createSocketPath (hostEnv hung)
      (snd (getVSCodeExecutable (hostEnv hung)
              (snd (logger_info (lit "Ensuring VS Code serve-web availability...") boot))))
    = (Ok path,
       snd (getVSCodeExecutable (hostEnv hung)
              (snd (logger_info (lit "Ensuring VS Code serve-web availability...") boot))))
    /\ spawnServeWeb (hostEnv hung) (lit "/usr/bin/code") path
         (snd (getVSCodeExecutable (hostEnv hung)
                 (snd (logger_info (lit "Ensuring VS Code serve-web availability...") boot))))
       = (Ok ref, spawned)
    /\ awaitServeWeb (hostEnv hung) ref (lit "/usr/bin/code") path spawned
       = (Throw err, failed)
    /\ ensureVSCodeServeWeb (hostEnv hung) boot = (Ok None, s')
    /\ currentServeWebBaseUrl (prog s') = None
    /\ currentServeWebSocketPath (prog s') = None
    /\ trace s' = l ++ trace failed
    /\ existsb (isUnlinkOf path) l = true
    /\ List.map event (filter isKill l) = expectedKill (Some ref) (prog failed)
    /\ ((forall p w, exists msg w',
            access (hostEnv hung) p F_OK w
            = (Raised (ErrnoError (lit "ENOENT") msg), w')) ->
        err = socketTimeoutError path
        /\ (clock (world spawned) + SOCKET_READY_TIMEOUT_MS <= clock (world failed))%Z).
Proof.
  apply (@socket_timeout_cleanup nat (hostEnv hung) boot).
  - vm_compute. reflexivity.
  - reflexivity.
  - reflexivity.
  - intros cmd args w. eexists _, _. reflexivity.
  - intros p w. eexists _, _. reflexivity.
Defined.

(** The hung server is signalled once. *)
Example hung_server_is_killed :
  fst (ensureVSCodeServeWeb (hostEnv hung) boot) = Ok None
  /\ kills (trace (serving hung)) = [EKill 0].
Proof. vm_compute. split; reflexivity. Qed.

(** C8 as stated fails: when [kill()] does not deliver the signal (it
    returns [false], or it throws and the error is logged), the child is
    not marked killed, and a second call on the same handle signals it
    again. *)
Lemma second_stop_signals_again :
  fst (ensureVSCodeServeWeb (hostEnv unkillable) boot) = Ok (Some theHandle)
  /\ (let s1 := snd (stopVSCodeServeWeb (hostEnv unkillable) (Some theHandle)
                       (serving unkillable)) in
      let s2 := snd (stopVSCodeServeWeb (hostEnv unkillable) (Some theHandle) s1) in
      kills (trace s1) = [EKill 0] /\ kills (trace s2) = [EKill 0; EKill 0])
  /\ (let s1 := snd (stopVSCodeServeWeb (hostEnv killThrows) (Some theHandle)
                       (serving killThrows)) in
      let s2 := snd (stopVSCodeServeWeb (hostEnv killThrows) (Some theHandle) s1) in
      kills (trace s1) = [EKill 0] /\ kills (trace s2) = [EKill 0; EKill 0]).
Proof. vm_compute. repeat split. Qed.

Lemma stop_idempotent_once_child_gone_witness :
  let r1 := stopVSCodeServeWeb (hostEnv healthy) (Some theHandle) (serving healthy) in
  let r2 := stopVSCodeServeWeb (hostEnv healthy) (Some theHandle) (snd r1) in
  exists l1 l2,
    trace (snd r1) = l1 ++ trace (serving healthy)
    /\ trace (snd r2) = l2 ++ trace (snd r1)
    /\ List.map event (filter isKill l1) = [EKill 0]
    /\ filter isKill l2 = []
    /\ visible (prog (snd r2)) = visible (prog (snd r1)).
Proof.
  destruct (@stop_idempotent_once_child_gone nat (hostEnv healthy) (Some theHandle)
              (serving healthy)) as (_ & _ & _ & H & _).
  destruct (H theHandle eq_refl) as (l1 & l2 & T1 & T2 & _ & _ & K1 & _ & _ & I).
  exists l1, l2. split; [exact T1|]. split; [exact T2|].
  split; [rewrite K1; vm_compute; reflexivity|].
  apply I. intros c _. right. reflexivity.
Defined.



End ServeWebFacts.

(** ** Rules for the further behaviours *)

Module EffMoreFacts.
Import EffMore EffFacts.

Section Rules.
Variables G W Ev : Type.
Variable P : Ev -> Prop.

Local Abbreviation M := (M G W Ev).

Lemma exits_stops {A} (m : M A) : exits P m -> stops P m.
Proof.
  intros H s. destruct (H s) as (c & s' & l & E & T & F).
  exists (Exit c), s', l. repeat split; try assumption. discriminate.
Qed.

Lemma stops_throw {A} (e : exn) : stops P (throw e : M A).
Proof. intros s. exists (Throw e), s, []. repeat split; try constructor. discriminate. Qed.

Lemma stops_bind {A B} (m : M A) (k : A -> M B) :
  safe P m -> (forall a, stops P (k a)) -> stops P (bind m k).
Proof.
  intros Hm Hk s. destruct (Hm s) as (r & s1 & l1 & E1 & T1 & F1 & N1).
  unfold bind. rewrite E1. destruct r as [a|e|c].
  - destruct (Hk a s1) as (r2 & s2 & l2 & E2 & T2 & F2 & N2).
    exists r2, s2, (l2 ++ l1). repeat split; try assumption.
    + rewrite T2, T1. apply app_assoc.
    + apply Forall_app. split; assumption.
  - exists (Throw e), s1, l1. repeat split; try assumption. discriminate.
  - exfalso. exact (N1 c eq_refl).
Qed.

Lemma exits_bind_l {A B} (m : M A) (k : A -> M B) :
  exits P m -> exits P (bind m k).
Proof.
  intros Hm s. destruct (Hm s) as (c & s1 & l1 & E1 & T1 & F1).
  exists c, s1, l1. unfold bind. rewrite E1. repeat split; assumption.
Qed.

Lemma exits_try_catch {A} (m : M A) (h : exn -> M A) :
  stops P m -> (forall e, exits P (h e)) -> exits P (try_catch m h).
Proof.
  intros Hm Hh s. destruct (Hm s) as (r & s1 & l1 & E1 & T1 & F1 & N1).
  unfold try_catch. rewrite E1. destruct r as [a|e|c].
  - exfalso. exact (N1 a eq_refl).
  - destruct (Hh e s1) as (c & s2 & l2 & E2 & T2 & F2).
    exists c, s2, (l2 ++ l1). repeat split; try assumption.
    + rewrite T2, T1. apply app_assoc.
    + apply Forall_app. split; assumption.
  - exists c, s1, l1. repeat split; assumption.
Qed.

End Rules.

Section Results.
Variables G W Ev : Type.

Local Abbreviation M := (M G W Ev).

Lemma results_ret {A} (Q : A -> Prop) (a : A) : Q a -> results Q (ret a : M A).
Proof. intros H s r s' E. inversion E. exact H. Qed.

Lemma results_throw {A} (Q : A -> Prop) (e : exn) : results Q (throw e : M A).
Proof. intros s r s' E. inversion E. exact I. Qed.

Lemma results_bind {A B} (Q : B -> Prop) (m : M A) (k : A -> M B) :
  (forall a, results Q (k a)) -> results Q (bind m k).
Proof.
  intros Hk s r s' E. unfold bind in E.
  destruct (m s) as [[a|e|c] s1].
  - exact (Hk a _ _ _ E).
  - inversion E. exact I.
  - inversion E. exact I.
Qed.

Lemma results_bind_with {A B} (Q1 : A -> Prop) (Q : B -> Prop) (m : M A) (k : A -> M B) :
  results Q1 m -> (forall a, Q1 a -> results Q (k a)) -> results Q (bind m k).
Proof.
  intros Hm Hk s r s' E. unfold bind in E.
  destruct (m s) as [[a|e|c] s1] eqn:Em.
  - exact (Hk a (Hm _ _ _ Em) _ _ _ E).
  - inversion E. exact I.
  - inversion E. exact I.
Qed.

Lemma results_try_catch {A} (Q : A -> Prop) (m : M A) (h : exn -> M A) :
  results Q m -> (forall e, results Q (h e)) -> results Q (try_catch m h).
Proof.
  intros Hm Hh s r s' E. unfold try_catch in E.
  destruct (m s) as [[a|e|c] s1] eqn:Em.
  - inversion E; subst. exact (Hm _ _ _ Em).
  - exact (Hh e _ _ _ E).
  - inversion E. exact I.
Qed.

(** A computation that returns, and whose results satisfy [Q], returns a
    result that satisfies [Q]. *)
Lemma returns_results {A} (P : Ev -> Prop) (Q : A -> Prop) (m : M A) (s : St G W Ev) :
  returns P m -> results Q m ->
  exists a s' l, m s = (Ok a, s') /\ trace s' = l ++ trace s /\ Forall P l /\ Q a.
Proof.
  intros Hr Hq. destruct (Hr s) as (a & s' & l & E & T & F).
  exists a, s', l. repeat split; try assumption. exact (Hq _ _ _ E).
Qed.

End Results.

Section Related.
Variables G W Ev : Type.
Variable R : St G W Ev -> St G W Ev -> Prop.
Hypothesis Rrefl : forall s, R s s.
Hypothesis Rtrans : forall s1 s2 s3, R s1 s2 -> R s2 s3 -> R s1 s3.

Local Abbreviation M := (M G W Ev).

Lemma related_ret {A} (a : A) : related R (ret a : M A).
Proof. intros s r s' E. inversion E. apply Rrefl. Qed.

Lemma related_throw {A} (e : exn) : related R (throw e : M A).
Proof. intros s r s' E. inversion E. apply Rrefl. Qed.

Lemma related_getG : related R (getG : M G).
Proof. intros s r s' E. inversion E. apply Rrefl. Qed.

Lemma related_bind {A B} (m : M A) (k : A -> M B) :
  related R m -> (forall a, related R (k a)) -> related R (bind m k).
Proof.
  intros Hm Hk s r s' E. unfold bind in E.
  destruct (m s) as [[a|e|c] s1] eqn:Em; specialize (Hm _ _ _ Em).
  - exact (Rtrans Hm (Hk a _ _ _ E)).
  - inversion E; subst. exact Hm.
  - inversion E; subst. exact Hm.
Qed.

Lemma related_try_catch {A} (m : M A) (h : exn -> M A) :
  related R m -> (forall e, related R (h e)) -> related R (try_catch m h).
Proof.
  intros Hm Hh s r s' E. unfold try_catch in E.
  destruct (m s) as [[a|e|c] s1] eqn:Em; specialize (Hm _ _ _ Em).
  - inversion E; subst. exact Hm.
  - exact (Rtrans Hm (Hh e _ _ _ E)).
  - inversion E; subst. exact Hm.
Qed.

End Related.

(** Running a sequence whose first part is known. *)
Lemma bind_run {G W Ev A B} (m : M G W Ev A) (k : A -> M G W Ev B) s a s' :
  m s = (Ok a, s') -> bind m k s = k a s'.
Proof. intros H. unfold bind. rewrite H. reflexivity. Qed.

Lemma bind_throws {G W Ev A B} (m : M G W Ev A) (k : A -> M G W Ev B) s e s' :
  m s = (Throw e, s') -> bind m k s = (Throw e, s').
Proof. intros H. unfold bind. rewrite H. reflexivity. Qed.

Lemma try_catch_returns {G W Ev A} (m : M G W Ev A) (h : exn -> M G W Ev A) s a s' :
  m s = (Ok a, s') -> try_catch m h s = (Ok a, s').
Proof. intros H. unfold try_catch. rewrite H. reflexivity. Qed.

Lemma try_catch_caught {G W Ev A} (m : M G W Ev A) (h : exn -> M G W Ev A) s e s' :
  m s = (Throw e, s') -> try_catch m h s = h e s'.
Proof. intros H. unfold try_catch. rewrite H. reflexivity. Qed.

End EffMoreFacts.

Arguments EffMoreFacts.related_ret {G W Ev R} Rrefl {A} a.
Arguments EffMoreFacts.related_throw {G W Ev R} Rrefl {A} e.
Arguments EffMoreFacts.related_getG {G W Ev R} Rrefl.
Arguments EffMoreFacts.related_bind {G W Ev R} Rtrans {A B m k} _ _.
Arguments EffMoreFacts.related_try_catch {G W Ev R} Rtrans {A m h} _ _.
Arguments EffMoreFacts.bind_run {G W Ev A B m} k {s a s'} _.
Arguments EffMoreFacts.bind_throws {G W Ev A B m} k {s e s'} _.
Arguments EffMoreFacts.try_catch_returns {G W Ev A m} h {s a s'} _.
Arguments EffMoreFacts.try_catch_caught {G W Ev A m} h {s e s'} _.
(** ** The orchestrator: what a whole run does *)

Module OrchestratorMore.
Import Launcher Orchestrator OrchestratorObs EffMore EffFacts EffMoreFacts.
Import OrchestratorFacts.

(** One step of a proof that a computation returns, throws or ends the
    process, with any bound on the events; the bound on an emitted event
    is left as a goal. *)
Ltac ev_step :=
  match goal with
  | |- returns _ (ret _) => apply returns_ret
  | |- returns _ (emit _) => apply returns_emit
  | |- returns _ (ask _) => apply returns_ask
  | |- returns _ (tell _) => apply returns_tell
  | |- returns _ (bind _ _) => apply returns_bind; [|intros ?]
  | |- returns _ (try_catch _ _) => apply returns_try_catch; [|intros ?]
  | |- returns _ (if ?b then _ else _) => destruct b
  | |- returns _ (match ?x with _ => _ end) => destruct x
  | |- safe _ (ret _) => apply returns_safe, returns_ret
  | |- safe _ (emit _) => apply returns_safe, returns_emit
  | |- safe _ (ask _) => apply returns_safe, returns_ask
  | |- safe _ (tell _) => apply returns_safe, returns_tell
  | |- safe _ (bind _ _) => apply safe_bind; [|intros ?]
  | |- safe _ (perform _) => apply safe_perform
  | |- safe _ (throw _) => apply safe_throw
  | |- safe _ (try_catch _ _) => apply safe_try_catch; [|intros ?]
  | |- safe _ (if ?b then _ else _) => destruct b
  | |- safe _ (match ?x with _ => _ end) => destruct x
  end.

Ltac ev :=
  unfold console_log, console_error, console_error2, sh, exists_, text_, Bun_sleep,
    response_text;
  repeat ev_step.

Section Generic.
Variable W : Type.
Variable env : Env W.
Variable cfg : OrchestratorScriptConfig.
Variable P : Event -> Prop.
Hypothesis Plog : forall e, isLogOnly e = true -> P e.
Hypothesis Pcw : safe P (createWindows env cfg).
Hypothesis Pm : returns P (runMaintenanceScript env cfg).
Hypothesis Pd : returns P (startDevScript env cfg).
Hypothesis Pr : forall me de, returns P (reportErrorToConvex env cfg me de).

Lemma reportAndExit_exits (m : MaintenanceResult) (d : DevResult) :
  exits P (reportAndExit env cfg m d).
Proof.
  unfold reportAndExit, console_log.
  apply exits_bind; [apply returns_emit, Plog; reflexivity|]. intros _.
  apply exits_bind.
  { destruct (hasError m d); [apply Pr | apply returns_emit, Plog; reflexivity]. }
  intros _. destruct (hasError m d).
  - apply exits_bind_l, exits_exit.
  - apply exits_bind; [apply returns_ret|]. intros _.
    apply exits_bind; [apply returns_emit, Plog; reflexivity|]. intros _.
    apply exits_exit.
Qed.

(** A run always ends the process, and every event of it is one of its
    stages' events or console output. *)
Lemma main_exits : exits P (main env cfg).
Proof.
  unfold main. apply exits_try_catch.
  - apply stops_bind.
    { unfold preamble, console_log. apply returns_safe.
      repeat (apply returns_bind; [|intros _]); apply returns_emit, Plog; reflexivity. }
    intros _. apply stops_bind; [exact Pcw|]. intros _.
    apply exits_stops.
    apply exits_bind; [exact Pm|]. intros m.
    apply exits_bind.
    { unfold logMaintenanceOutcome, console_log, console_error.
      destruct (truthy_opt (mError m)); apply returns_emit, Plog; reflexivity. }
    intros _. apply exits_bind; [exact Pd|]. intros d.
    apply exits_bind.
    { unfold logDevOutcome, console_log, console_error.
      destruct (truthy_opt (dError d)); apply returns_emit, Plog; reflexivity. }
    intros _. apply reportAndExit_exits.
  - intros e. unfold console_error.
    apply exits_bind; [apply returns_emit, Plog; reflexivity|]. intros _.
    apply exits_exit.
Qed.

End Generic.

Section WithWorld.
Variable W : Type.
Variable env : Env W.
Variable cfg : OrchestratorScriptConfig.

Local Abbreviation St := (St unit W Event).

(** *** The run keeps to its own windows and files *)

Ltac own :=
  first [ exact I
        | left; split; [assumption | reflexivity]
        | right; split; [assumption | reflexivity]
        | reflexivity
        | solve [simpl; auto 10] ].

Lemma waitForTmuxSession_loop_confined (n : nat) :
  returns (confined cfg) (waitForTmuxSession_loop env n).
Proof.
  induction n as [|n IH]; simpl.
  - apply returns_ret.
  - ev; try assumption; own.
Qed.

Lemma createWindows_confined : safe (confined cfg) (createWindows env cfg).
Proof.
  unfold createWindows, createWindow, waitForTmuxSession.
  destruct (hasMaintenanceScript cfg) eqn:HM; destruct (hasDevScript cfg) eqn:HD;
    cbv beta iota;
    ev; try (apply returns_safe, waitForTmuxSession_loop_confined); own.
Qed.

Lemma readErrorDetails_confined (p tag : jsstring) :
  In p (ownFiles cfg) -> returns (confined cfg) (readErrorDetails env p tag).
Proof. intros Hp. unfold readErrorDetails. ev; try exact Hp; own. Qed.

Lemma waitForExitCode_confined (n : nat) (k : Z) :
  returns (confined cfg) (waitForExitCode env cfg n k).
Proof.
  revert k. induction n as [|n IH]; intros k; simpl.
  - apply returns_ret.
  - ev; try apply IH; own.
Qed.

Lemma runMaintenanceScript_confined :
  returns (confined cfg) (runMaintenanceScript env cfg).
Proof.
  unfold runMaintenanceScript, launchAndWait, interpretExitCode.
  destruct (hasMaintenanceScript cfg) eqn:HM; cbn [negb]; cbv beta iota;
    ev; try apply waitForExitCode_confined;
    try (apply returns_safe, waitForExitCode_confined);
    try (apply returns_safe, readErrorDetails_confined; simpl; auto 10); own.
Qed.

Lemma startDevScript_confined :
  returns (confined cfg) (startDevScript env cfg).
Proof.
  unfold startDevScript.
  destruct (hasDevScript cfg) eqn:HD; cbn [negb]; cbv beta iota;
    ev; try (apply returns_safe, readErrorDetails_confined; simpl; auto 10); own.
Qed.

Lemma reportErrorToConvex_confined (me de : option jsstring) :
  returns (confined cfg) (reportErrorToConvex env cfg me de).
Proof. unfold reportErrorToConvex. ev; own. Qed.

Lemma logOnly_confined (e : Event) : isLogOnly e = true -> confined cfg e.
Proof. destruct e; simpl; intros H; try discriminate H; exact I. Qed.

Lemma main_confined : exits (confined cfg) (main env cfg).
Proof.
  apply main_exits.
  - apply logOnly_confined.
  - apply createWindows_confined.
  - apply runMaintenanceScript_confined.
  - apply startDevScript_confined.
  - apply reportErrorToConvex_confined.
Qed.

Lemma touched_app (a b : list Event) : touched (a ++ b) = touched b ++ touched a.
Proof. unfold touched. rewrite rev_app_distr, flat_map_app. reflexivity. Qed.

Lemma touched_own (l : list Event) :
  Forall (confined cfg) l -> forall p, In p (touched l) -> In p (ownFiles cfg).
Proof.
  induction 1 as [|e l He _ IH]; intros p Hp; [contradiction|].
  change (e :: l) with ([e] ++ l) in Hp. rewrite touched_app in Hp.
  apply in_app_or in Hp. destruct Hp as [Hp|Hp]; [exact (IH p Hp)|].
  destruct e as [| |c|q|q| | |]; simpl in Hp; try contradiction.
  - destruct c; simpl in Hp; try contradiction.
    destruct Hp as [<-|[]]. simpl in He. destruct He as [->| ->]; simpl; auto.
  - destruct Hp as [<-|[]]. exact He.
  - destruct Hp as [<-|[]]. exact He.
Qed.

(** *** A failure before the stages *)

Lemma waitForTmuxSession_loop_idle (n : nat) :
  returns idle (waitForTmuxSession_loop env n).
Proof.
  induction n as [|n IH]; simpl.
  - apply returns_ret.
  - ev; try assumption; exact I.
Qed.

Lemma probeEvents_snoc (n : nat) :
  probeEvents (S n) = probeEvents n ++ [ESleep 500; EShell TmuxHasSession].
Proof.
  unfold probeEvents.
  set (x := [ESleep 500; EShell TmuxHasSession]).
  induction n as [|n IH]; [reflexivity|].
  change (List.concat (repeat x (S (S n))))
    with (x ++ List.concat (repeat x (S n))).
  rewrite IH at 1. rewrite app_assoc. reflexivity.
Qed.

(** One probe for the session that does not find it. *)
Lemma probe_fails (s : St) :
  (match fst (shell env TmuxHasSession (world s)) with
   | Returned o => exitCode o <> 0%Z
   | Raised _ => True
   end) ->
  exists w',
    try_catch
      (result <- sh env TmuxHasSession;;
       if (exitCode result =? 0)%Z
       then console_log (lit "[ORCHESTRATOR] tmux session found");; ret true
       else ret false)
      (fun _ => ret false) s
    = (Ok false, mkSt (prog s) w' (EShell TmuxHasSession :: trace s)).
Proof.
  intros H. unfold try_catch, sh, perform, bind, emit, ask. cbn [world prog trace].
  destruct (shell env TmuxHasSession (world s)) as [[o|e] w1]; cbn [fst] in H.
  - apply Z.eqb_neq in H. cbn [ret throw]. rewrite H. exists w1. reflexivity.
  - exists w1. reflexivity.
Qed.

Lemma waitForTmuxSession_loop_fails (n : nat) (s : St) :
  (forall w, match fst (shell env TmuxHasSession w) with
             | Returned o => exitCode o <> 0%Z
             | Raised _ => True
             end) ->
  exists w',
    waitForTmuxSession_loop env n s
    = (Ok false, mkSt (prog s) w' (probeEvents n ++ trace s)).
Proof.
  intros Hdown. revert s. induction n as [|n IH]; intros s.
  - exists (world s). destruct s; reflexivity.
  - cbn [waitForTmuxSession_loop].
    destruct (probe_fails s (Hdown (world s))) as (w1 & E1).
    rewrite (bind_run _ E1). cbv iota.
    rewrite (bind_run _ (Bun_sleep_run env 500 _)). cbn [prog world trace].
    destruct (IH (mkSt (prog s) (sleep env 500 w1)
                    (ESleep 500 :: EShell TmuxHasSession :: trace s))) as (w' & E).
    exists w'. rewrite E. cbn [prog trace].
    rewrite probeEvents_snoc, <- app_assoc. reflexivity.
Qed.

(** X1: when the tmux session is not there (each probe throws or reports
    a non-zero exit code), [waitForTmuxSession] probes 21 times, sleeping
    500 ms after each of the first 20 (10 seconds in all), does nothing
    else, and then throws: the error of the last probe if that probe
    threw, "Error: cmux session does not exist" otherwise. *)
Theorem session_wait_gives_up (s : St) :
  (forall w, match fst (shell env TmuxHasSession w) with
             | Returned o => exitCode o <> 0%Z
             | Raised _ => True
             end) ->
  exists e s',
    waitForTmuxSession env s = (Throw e, s')
    /\ trace s' = EShell TmuxHasSession :: probeEvents 20 ++ trace s
    /\ slept (EShell TmuxHasSession :: probeEvents 20) = 10000%Z
    /\ (e = ErrorObj (lit "Error: cmux session does not exist")
        \/ exists w, fst (shell env TmuxHasSession w) = Raised e).
Proof.
  intros Hdown. unfold waitForTmuxSession.
  destruct (waitForTmuxSession_loop_fails 20 s Hdown) as (w' & E).
  rewrite (bind_run _ E). cbv iota.
  unfold sh, perform, bind, emit, ask. cbn [world prog trace].
  specialize (Hdown w').
  destruct (shell env TmuxHasSession w') as [[o|e] w1] eqn:Es; cbn [fst] in Hdown.
  - apply Z.eqb_neq in Hdown. cbn [ret]. rewrite Hdown. cbn [negb].
    eexists _, _. split; [reflexivity|]. split; [reflexivity|].
    split; [reflexivity|]. left. reflexivity.
  - eexists _, _. split; [reflexivity|]. split; [reflexivity|].
    split; [reflexivity|]. right. exists w'. rewrite Es. reflexivity.
Qed.

Lemma createWindows_idle : safe idle (createWindows env cfg).
Proof.
  unfold createWindows, createWindow, waitForTmuxSession.
  ev; try (apply returns_safe, waitForTmuxSession_loop_idle); exact I.
Qed.

(** X2: when the windows cannot be set up ([createWindows] throws, be it
    because the tmux session is missing or because a window cannot be
    created), the run logs a fatal error and ends with exit code 1; no
    script has been typed into a window, and no error report is sent. *)
Theorem startup_failure_runs_nothing (s0 s1 : St) (e : exn) :
  createWindows env cfg (snd (preamble cfg s0)) = (Throw e, s1) ->
  main env cfg s0
  = (Exit 1%Z,
     mkSt (prog s1) (world s1)
       (EConsoleError [lit "[ORCHESTRATOR] Fatal error: " ++ exn_toString e] :: trace s1))
  /\ exists l, trace s1 = l ++ trace s0 /\ Forall idle l.
Proof.
  intros Hcw. split.
  - unfold main. rewrite (try_catch_caught _ (s' := s1) (e := e)).
    + reflexivity.
    + rewrite (bind_run _ (preamble_ok cfg s0)). apply bind_throws. exact Hcw.
  - destruct (createWindows_idle (snd (preamble cfg s0)))
      as (r & s1' & l & E & T & F & _).
    rewrite Hcw in E. inversion E; subst r s1'.
    exists (l ++ [ EConsoleLog [lit "[ORCHESTRATOR] TASK_RUN_JWT present: "
                              ++ boolToString (truthy (taskRunJwt cfg))];
                   EConsoleLog [lit "[ORCHESTRATOR] CONVEX_URL: " ++ convexUrl cfg];
                   EConsoleLog [lit "[ORCHESTRATOR] Starting orchestrator..."] ]).
    split.
    + rewrite T, <- app_assoc. reflexivity.
    + apply Forall_app. split; [exact F|]. repeat constructor.
Qed.

(** X3: every run ends the process, and all it does concerns its own
    run: it creates and types into the window of a script only when that
    script is present, and what it types is that script's command; the
    files it looks for or reads are the exit-code and log files named in
    its configuration; the only files it removes are the two exit-code
    files; the only request goes to the report endpoint of the configured
    URL. *)
Theorem orchestrator_keeps_to_its_run (s0 : St) :
  exists c s4 l,
    main env cfg s0 = (Exit c, s4) /\ trace s4 = l ++ trace s0
    /\ Forall (confined cfg) l.
Proof. exact (main_confined s0). Qed.

(** *** The results of the stages and the exit code of the run *)

Ltac coherent_result :=
  split; cbn [mExitCode mError];
  [ split; intros H; first [reflexivity | discriminate H | contradiction | lia]
  | intros e0 H; inversion H; subst; reflexivity ].

Lemma runMaintenanceScript_coherent :
  results coherentResult (runMaintenanceScript env cfg).
Proof.
  unfold runMaintenanceScript.
  destruct (hasMaintenanceScript cfg); cbn [negb]; cbv iota.
  - apply results_try_catch.
    + apply results_bind. intros attempts.
      destruct (attempts >=? Z.of_nat maxAttempts)%Z.
      * apply results_bind. intros _. apply results_ret. coherent_result.
      * unfold interpretExitCode.
        apply results_bind. intros content. apply results_bind. intros _.
        destruct (parseInt10 (trim content)) as [code|].
        -- apply results_bind. intros _.
           destruct (Z.eqb_spec code 0) as [->|Hne]; cbn [negb].
           ++ apply results_ret. coherent_result.
           ++ apply results_bind. intros details. apply results_ret.
              split; cbn [mExitCode mError].
              ** split; intros H; [contradiction | discriminate H].
              ** intros e0 H. inversion H; subst.
                 destruct (truthy details) eqn:Ht; [exact Ht | reflexivity].
        -- apply results_bind. intros _. apply results_ret. coherent_result.
    + intros e. apply results_bind. intros _. apply results_ret. coherent_result.
  - apply results_bind. intros _. apply results_ret. coherent_result.
Qed.

Lemma startDevScript_coherent :
  results coherentDevResult (startDevScript env cfg).
Proof.
  unfold startDevScript.
  destruct (hasDevScript cfg); cbn [negb]; cbv iota.
  - apply results_try_catch.
    + apply results_bind. intros _. apply results_bind. intros _.
      apply results_bind. intros _. apply results_bind. intros windowCheck.
      destruct (negb (includes (devWindowName cfg) (text windowCheck))).
      * apply results_bind. intros _. apply results_ret.
        intros e0 H. inversion H; subst. reflexivity.
      * apply results_bind. intros _. apply results_bind. intros _.
        apply results_bind. intros present.
        apply results_bind_with
          with (Q1 := fun early => forall r, early = Some r -> coherentDevResult r).
        -- destruct present; [|apply results_ret; discriminate].
           apply results_bind. intros content. apply results_bind. intros _.
           destruct (parseInt10 (trim content)) as [code|].
           ++ destruct (negb (code =? 0)%Z).
              ** apply results_bind. intros _. apply results_bind. intros details.
                 apply results_ret. intros r Hr e0 H. inversion Hr; subst r.
                 inversion H; subst.
                 destruct (truthy details) eqn:Ht; [exact Ht | reflexivity].
              ** apply results_ret. discriminate.
           ++ apply results_bind. intros _. apply results_ret.
              intros r Hr e0 H. inversion Hr; subst r. inversion H; subst. reflexivity.
        -- intros early Hearly. destruct early as [r|].
           ++ apply results_ret. exact (Hearly r eq_refl).
           ++ apply results_bind. intros _. apply results_ret.
              intros e0 H. discriminate H.
    + intros e. apply results_bind. intros _. apply results_ret.
      intros e0 H. inversion H; subst. reflexivity.
  - apply results_bind. intros _. apply results_ret. intros e0 H. discriminate H.
Qed.

(** X4: whatever the world does, each stage returns a result, and the
    result is coherent: the maintenance stage reports exit code 0 exactly
    when it reports no error, and an error, of either stage, is never the
    empty string (so that testing the error for truth, as the main
    function does, is the same as testing for its presence). *)
Theorem stage_results_are_coherent (s : St) :
  (exists r s', runMaintenanceScript env cfg s = (Ok r, s') /\ coherentResult r)
  /\ (exists d s', startDevScript env cfg s = (Ok d, s') /\ coherentDevResult d).
Proof.
  split.
  - destruct (returns_results s (runMaintenanceScript_returns env cfg)
                runMaintenanceScript_coherent) as (r & s' & _ & E & _ & _ & Q).
    exists r, s'. split; assumption.
  - destruct (returns_results s (startDevScript_returns env cfg)
                startDevScript_coherent) as (d & s' & _ & E & _ & _ & Q).
    exists d, s'. split; assumption.
Qed.

(** X5: once the windows exist, the exit code of the orchestrator process
    is 0 exactly when the maintenance stage reported exit code 0 and the dev
    stage reported no error; it is 1 otherwise. *)
Theorem orchestrator_exit_code (s0 s1 : St) :
  createWindows env cfg (snd (preamble cfg s0)) = (Ok tt, s1) ->
  exists m s2 d s3 s4,
    runMaintenanceScript env cfg s1 = (Ok m, s2)
    /\ startDevScript env cfg (snd (logMaintenanceOutcome m s2)) = (Ok d, s3)
    /\ main env cfg s0
       = (Exit (if (mExitCode m =? 0)%Z
                then match dError d with None => 0 | Some _ => 1 end
                else 1)%Z, s4).
Proof.
  intros Hcw.
  destruct (main_structure env cfg s0 Hcw)
    as (m & s2 & l2 & d & s3 & l3 & s4 & l4 & E2 & T2 & F2 & E3 & T3 & F3
        & E4 & T4 & F4 & A4 & Em).
  exists m, s2, d, s3, s4. split; [exact E2|]. split; [exact E3|].
  rewrite Em. f_equal. f_equal.
  pose proof (runMaintenanceScript_coherent _ E2) as [Hm1 Hm2].
  pose proof (startDevScript_coherent _ E3) as Hd.
  cbv beta iota in Hm1, Hm2, Hd. unfold hasError.
  destruct (mError m) as [em|] eqn:Eme.
  - cbn [truthy_opt]. rewrite (Hm2 em eq_refl). cbn [orb].
    destruct (Z.eqb_spec (mExitCode m) 0) as [Hz|Hz]; [|reflexivity].
    apply Hm1 in Hz. discriminate Hz.
  - cbn [truthy_opt orb]. rewrite (proj2 Hm1 eq_refl). cbn [Z.eqb].
    destruct (dError d) as [ed|] eqn:Ede; [|reflexivity].
    cbn [truthy_opt]. rewrite (Hd ed Ede). reflexivity.
Qed.

(** *** The dev stage *)



(** *** Exceptions inside the maintenance stage *)

(** X7: an exception thrown while the maintenance stage runs is turned
    into a failed result with exit code 1 and the error "Maintenance script
    execution failed: " followed by the message of the exception.  This
    holds when typing the command throws, when reading the exit-code file
    throws, and when removing the exit-code file throws: in that last case
    the exit code the script wrote, be it 0, is not looked at. *)
Theorem maintenance_exception_is_failure (s : St) (e : exn) :
  hasMaintenanceScript cfg = true ->
  ((exists w1, shell env (maintenanceSendKeys cfg) (world s) = (Raised e, w1))
   \/ (exists k s1,
         launchAndWait env cfg s = (Ok k, s1) /\ (k < 600)%Z
         /\ ((exists w2,
                 fileText env (maintenanceExitCodePath cfg) (world s1) = (Raised e, w2))
             \/ (exists content w2 w3,
                    fileText env (maintenanceExitCodePath cfg) (world s1)
                    = (Returned content, w2)
                    /\ shell env (RmForce (maintenanceExitCodePath cfg)) w2
                       = (Raised e, w3))))) ->
  exists s',
    runMaintenanceScript env cfg s
    = (Ok {| mExitCode := 1;
             mError := Some (lit "Maintenance script execution failed: "
                             ++ exn_message e) |}, s').
Proof.
  intros Hhas Hcase. unfold runMaintenanceScript. rewrite Hhas. cbn [negb].
  unfold try_catch.
  destruct Hcase as [(w1 & Hs) | (k & s1 & Hwait & Hk & Hcase)].
  - unfold launchAndWait, console_log, sh, perform, bind, emit, ask.
    cbn [world prog trace]. rewrite Hs. eexists. reflexivity.
  - rewrite (bind_run _ Hwait).
    change (Z.of_nat maxAttempts) with 600%Z.
    replace (k >=? 600)%Z with false
      by (rewrite Z.geb_leb; symmetry; apply Z.leb_gt; lia).
    unfold interpretExitCode, text_, sh, perform, bind, emit, ask.
    cbn [world prog trace].
    destruct Hcase as [(w2 & Ht) | (content & w2 & w3 & Ht & Hr)]; rewrite Ht.
    + eexists. reflexivity.
    + cbn [ret world prog trace]. rewrite Hr. eexists. reflexivity.
Qed.

(** *** The time a run asks to sleep *)

Lemma slept_app (a b : list Event) : slept (a ++ b) = (slept a + slept b)%Z.
Proof.
  induction a as [|e a IH]; [reflexivity|].
  destruct e; simpl; rewrite IH; lia.
Qed.

Lemma sleeps_weaken {A} (n n' : Z) (m : M unit W Event A) :
  (n <= n')%Z -> sleepsAtMost n m -> sleepsAtMost n' m.
Proof. intros Hn H s r s' E. specialize (H _ _ _ E). lia. Qed.

Lemma sleeps_ret {A} (a : A) : sleepsAtMost 0 (ret a : M unit W Event A).
Proof. intros s r s' E. inversion E. lia. Qed.

Lemma sleeps_throw {A} (e : exn) : sleepsAtMost 0 (throw e : M unit W Event A).
Proof. intros s r s' E. inversion E. lia. Qed.

Lemma sleeps_exit {A} (c : Z) : sleepsAtMost 0 (exit c : M unit W Event A).
Proof. intros s r s' E. inversion E. lia. Qed.

Lemma sleeps_emit (e : Event) :
  match e with ESleep _ => False | _ => True end ->
  sleepsAtMost 0 (emit e : M unit W Event unit).
Proof.
  intros He s r s' E. inversion E. cbn [trace].
  destruct e; simpl; first [lia | contradiction].
Qed.

Lemma sleeps_ask {R} (f : W -> R * W) : sleepsAtMost 0 (ask f : M unit W Event R).
Proof.
  intros s r s' E. unfold ask in E. destruct (f (world s)). inversion E. cbn [trace]. lia.
Qed.

Lemma sleeps_perform {R} (f : W -> outcome R * W) :
  sleepsAtMost 0 (perform f : M unit W Event R).
Proof.
  intros s r s' E. unfold perform, bind, ask in E.
  destruct (f (world s)) as [[x|e] w]; inversion E; cbn [trace]; lia.
Qed.

Lemma sleeps_Bun_sleep (ms : Z) : sleepsAtMost ms (Bun_sleep env ms).
Proof. intros s r s' E. inversion E. cbn [trace slept]. lia. Qed.

Lemma sleeps_tell (f : W -> W) : sleepsAtMost 0 (tell f : M unit W Event unit).
Proof. intros s r s' E. inversion E. cbn [trace]. lia. Qed.

Lemma sleeps_bind {A B} (n1 n2 : Z) (m : M unit W Event A) (k : A -> M unit W Event B) :
  (0 <= n2)%Z ->
  sleepsAtMost n1 m -> (forall a, sleepsAtMost n2 (k a)) ->
  sleepsAtMost (n1 + n2) (bind m k).
Proof.
  intros H2 Hm Hk s r s' E. unfold bind in E.
  destruct (m s) as [[a|e|c] s1] eqn:Em; specialize (Hm _ _ _ Em).
  - specialize (Hk a _ _ _ E). lia.
  - inversion E; subst. lia.
  - inversion E; subst. lia.
Qed.

Lemma sleeps_try_catch {A} (n1 n2 : Z) (m : M unit W Event A)
    (h : exn -> M unit W Event A) :
  (0 <= n2)%Z ->
  sleepsAtMost n1 m -> (forall e, sleepsAtMost n2 (h e)) ->
  sleepsAtMost (n1 + n2) (try_catch m h).
Proof.
  intros H2 Hm Hh s r s' E. unfold try_catch in E.
  destruct (m s) as [[a|e|c] s1] eqn:Em; specialize (Hm _ _ _ Em).
  - inversion E; subst. lia.
  - specialize (Hh e _ _ _ E). lia.
  - inversion E; subst. lia.
Qed.

Lemma sleeps_if {A} (n1 n2 : Z) (b : bool) (x y : M unit W Event A) :
  sleepsAtMost n1 x -> sleepsAtMost n2 y ->
  sleepsAtMost (Z.max n1 n2) (if b then x else y).
Proof.
  intros Hx Hy. destruct b.
  - apply (sleeps_weaken (n := n1)); [lia | exact Hx].
  - apply (sleeps_weaken (n := n2)); [lia | exact Hy].
Qed.

Lemma sleeps_option {A B} (n1 n2 : Z) (o : option B)
    (x : B -> M unit W Event A) (y : M unit W Event A) :
  (forall b, sleepsAtMost n1 (x b)) -> sleepsAtMost n2 y ->
  sleepsAtMost (Z.max n1 n2) (match o with Some b => x b | None => y end).
Proof.
  intros Hx Hy. destruct o as [b|].
  - apply (sleeps_weaken (n := n1)); [lia | apply Hx].
  - apply (sleeps_weaken (n := n2)); [lia | exact Hy].
Qed.

(** One step of a proof of a bound on the sleeping time; the bound is
    found on the way, the side conditions are left for [lia]. *)
Ltac sl_step :=
  lazymatch goal with
  | |- sleepsAtMost _ (ret _) => apply sleeps_ret
  | |- sleepsAtMost _ (throw _) => apply sleeps_throw
  | |- sleepsAtMost _ (exit _) => apply sleeps_exit
  | |- sleepsAtMost _ (Bun_sleep _ _) => apply sleeps_Bun_sleep
  | |- sleepsAtMost _ (emit _) => apply sleeps_emit; exact I
  | |- sleepsAtMost _ (ask _) => apply sleeps_ask
  | |- sleepsAtMost _ (tell _) => apply sleeps_tell
  | |- sleepsAtMost _ (perform _) => apply sleeps_perform
  | |- sleepsAtMost _ (bind _ _) => eapply sleeps_bind; [| |intros ?]
  | |- sleepsAtMost _ (try_catch _ _) => eapply sleeps_try_catch; [| |intros ?]
  | |- sleepsAtMost _ (if _ then _ else _) => eapply sleeps_if
  | |- sleepsAtMost _ (match _ with Some _ => _ | None => _ end) =>
      eapply sleeps_option; [intros ?|]
  end.

Ltac sl :=
  unfold console_log, console_error, console_error2, sh, exists_, text_, response_text;
  repeat sl_step.

Lemma waitForTmuxSession_loop_sleeps (n : nat) :
  sleepsAtMost (500 * Z.of_nat n) (waitForTmuxSession_loop env n).
Proof.
  induction n as [|n IH]; cbn [waitForTmuxSession_loop].
  - apply sleeps_ret.
  - eapply sleeps_weaken; [shelve|].
    sl; try exact IH. all: try lia.
    Unshelve. lia.
Qed.

Lemma waitForExitCode_sleeps (n : nat) (k : Z) :
  sleepsAtMost (1000 * Z.of_nat n) (waitForExitCode env cfg n k).
Proof.
  revert k. induction n as [|n IH]; intros k; cbn [waitForExitCode].
  - apply sleeps_ret.
  - eapply sleeps_weaken; [shelve|].
    sl; try apply IH. all: try lia.
    Unshelve. lia.
Qed.

Lemma readErrorDetails_sleeps (p tag : jsstring) :
  sleepsAtMost 0 (readErrorDetails env p tag).
Proof.
  unfold readErrorDetails.
  eapply sleeps_weaken; [shelve|].
  sl. all: try lia.
  Unshelve. lia.
Qed.

Lemma createWindows_sleeps : sleepsAtMost 10000 (createWindows env cfg).
Proof.
  unfold createWindows, createWindow, waitForTmuxSession.
  eapply sleeps_weaken; [shelve|].
  sl; try apply waitForTmuxSession_loop_sleeps. all: try lia.
  Unshelve. simpl. lia.
Qed.

Lemma runMaintenanceScript_sleeps :
  sleepsAtMost 602000 (runMaintenanceScript env cfg).
Proof.
  unfold runMaintenanceScript, launchAndWait, interpretExitCode.
  eapply sleeps_weaken; [shelve|].
  sl; try apply waitForExitCode_sleeps; try apply readErrorDetails_sleeps.
  all: try lia.
  Unshelve. simpl. lia.
Qed.

Lemma startDevScript_sleeps : sleepsAtMost 7000 (startDevScript env cfg).
Proof.
  unfold startDevScript.
  eapply sleeps_weaken; [shelve|].
  sl; try apply readErrorDetails_sleeps.
  all: try lia.
  Unshelve. simpl. lia.
Qed.

Lemma reportErrorToConvex_sleeps (me de : option jsstring) :
  sleepsAtMost 0 (reportErrorToConvex env cfg me de).
Proof.
  unfold reportErrorToConvex.
  eapply sleeps_weaken; [shelve|].
  sl. all: try lia.
  Unshelve. lia.
Qed.

Lemma main_sleeps : sleepsAtMost 619000 (main env cfg).
Proof.
  unfold main, preamble, logMaintenanceOutcome, logDevOutcome, reportAndExit.
  eapply sleeps_weaken; [shelve|].
  sl; first [ apply createWindows_sleeps | apply runMaintenanceScript_sleeps
            | apply startDevScript_sleeps | apply reportErrorToConvex_sleeps
            | idtac ].
  all: try lia.
  Unshelve. simpl. lia.
Qed.

(** X8: over a whole run the orchestrator asks for at most 619 seconds of
    sleep: 10 while waiting for the tmux session, 602 in the maintenance
    stage and 7 in the dev stage.  Its own waiting never keeps it alive
    longer than that. *)
Theorem orchestrator_sleep_is_bounded (s0 : St) :
  exists c s4 l,
    main env cfg s0 = (Exit c, s4) /\ trace s4 = l ++ trace s0
    /\ (slept l <= 619000)%Z.
Proof.
  destruct (main_fetches env cfg s0) as (c & s4 & l & E & T & _).
  exists c, s4, l. split; [exact E|]. split; [exact T|].
  pose proof (main_sleeps _ E) as H. rewrite T, slept_app in H. lia.
Qed.
End WithWorld.

Lemma ownFiles_runScoped (a : Args) (r p : jsstring) :
  In p (ownFiles (configOf a r)) -> In p (runScopedPaths r).
Proof. unfold ownFiles, runScopedPaths, configOf. simpl. tauto. Qed.

(** X9: two runs the launcher has configured with different run
    identifiers never look for, read or remove the same file, whatever
    their scripts and whatever happens in their workspaces. *)
Theorem runs_touch_disjoint_files
    (W1 W2 : Type) (env1 : Env W1) (env2 : Env W2) (a1 a2 : Args) (r1 r2 : jsstring)
    (s1 : St unit W1 Event) (s2 : St unit W2 Event) (p : jsstring) :
  r1 <> r2 ->
  trace s1 = [] -> trace s2 = [] ->
  In p (touched (trace (snd (main env1 (configOf a1 r1) s1)))) ->
  ~ In p (touched (trace (snd (main env2 (configOf a2 r2) s2)))).
Proof.
  intros Hne T1 T2 H1 H2.
  destruct (main_confined env1 (configOf a1 r1) s1) as (c1 & s1' & l1 & E1 & L1 & F1).
  destruct (main_confined env2 (configOf a2 r2) s2) as (c2 & s2' & l2 & E2 & L2 & F2).
  rewrite E1 in H1. rewrite E2 in H2. cbn [snd] in H1, H2.
  rewrite L1, T1, app_nil_r in H1. rewrite L2, T2, app_nil_r in H2.
  apply (touched_own F1), ownFiles_runScoped in H1.
  apply (touched_own F2), ownFiles_runScoped in H2.
  exact (LauncherPaths.runScopedPaths_disjoint Hne H1 H2).
Qed.

Import Sim.

Lemma session_wait_gives_up_witness :
  exists e s',
    waitForTmuxSession noSessionEnv start = (Throw e, s')
    /\ List.length (filter isShell (trace s')) = 21%nat
    /\ slept (trace s') = 10000%Z.
Proof.
  destruct (@session_wait_gives_up Z noSessionEnv start) as (e & s' & E & T & S & _).
  - intros w. exact I.
  - exists e, s'. split; [exact E|]. rewrite T. split; reflexivity.
Defined.

Lemma startup_failure_runs_nothing_witness :
  fst (main noSessionEnv scenarioConfig start) = Exit 1%Z
  /\ fetches (trace (snd (main noSessionEnv scenarioConfig start))) = [].
Proof.
  destruct (@startup_failure_runs_nothing Z noSessionEnv scenarioConfig start
              (snd (createWindows noSessionEnv scenarioConfig
                      (snd (preamble scenarioConfig start))))
              (ErrorObj (lit "Failed with exit code 1"))) as (E & _).
  - vm_compute. reflexivity.
  - rewrite E. split; [reflexivity|]. vm_compute. reflexivity.
Defined.

Lemma orchestrator_exit_code_witness :
  exists m d,
    fst (runMaintenanceScript failingEnv scenarioConfig (windowsReady failingEnv)) = Ok m
    /\ mExitCode m = 3%Z /\ dError d = None
    /\ fst (main failingEnv scenarioConfig start) = Exit 1%Z.
Proof.
  destruct (@orchestrator_exit_code Z failingEnv scenarioConfig start
              (windowsReady failingEnv)) as (m & s2 & d & s3 & s4 & E2 & E3 & Em).
  - vm_compute. reflexivity.
  - exists m, d. rewrite E2, Em. cbn [fst].
    vm_compute in E2. inversion E2; subst m s2.
    vm_compute in E3. inversion E3; subst d s3.
    repeat split; reflexivity.
Defined.


Lemma maintenance_exception_is_failure_witness :
  exists s',
    runMaintenanceScript stuckEnv scenarioConfig (windowsReady stuckEnv)
    = (Ok {| mExitCode := 1;
             mError := Some (lit "Maintenance script execution failed: "
                             ++ lit "Failed with exit code 1") |}, s').
Proof.
  apply (@maintenance_exception_is_failure Z stuckEnv scenarioConfig
           (windowsReady stuckEnv) (ErrorObj (lit "Failed with exit code 1"))).
  - reflexivity.
  - right. exists 0%Z, (snd (launchAndWait stuckEnv scenarioConfig (windowsReady stuckEnv))).
    split; [vm_compute; reflexivity|]. split; [reflexivity|].
    right. exists (lit "0" ++ [LF]), 2000%Z, 2000%Z. split; vm_compute; reflexivity.
Defined.

Lemma runs_touch_disjoint_files_witness :
  ~ In (maintenanceExitCodePath scenarioConfig)
      (touched (trace (snd (main (simEnv otherRunConfig failingWorkspace)
                              otherRunConfig start)))).
Proof.
  apply (@runs_touch_disjoint_files Z Z failingEnv
           (simEnv otherRunConfig failingWorkspace) scenarioArgs scenarioArgs
           runId (lit "mh2k9x1b_9zq81mmc") start start).
  - discriminate.
  - reflexivity.
  - reflexivity.
  - vm_compute. tauto.
Defined.

End OrchestratorMore.

(** ** Run identifiers *)

Module RunIdFacts.
Import RunId Launcher.

Example toString36_ex :
  toString36 1700000000000 = lit "loyw3v28" /\ toString36 35 = lit "z"
  /\ toString36 36 = lit "10" /\ toString36 0 = lit "0".
Proof. repeat split; reflexivity. Qed.

Lemma digitValue36_digit36 (d : Z) : (0 <= d < 36)%Z -> digitValue36 (digit36 d) = d.
Proof.
  intros H. unfold digitValue36, digit36.
  destruct (Z.ltb_spec d 10).
  - replace (Z.to_N (48 + d) <? 58)%N with true by (symmetry; apply N.ltb_lt; lia). lia.
  - replace (Z.to_N (87 + d) <? 58)%N with false by (symmetry; apply N.ltb_ge; lia). lia.
Qed.

Lemma digit36_not_underscore (d : Z) : (0 <= d < 36)%Z -> digit36 d <> 95%N.
Proof. intros H. unfold digit36. destruct (Z.ltb_spec d 10); lia. Qed.

Lemma toString36_loop_acc (fuel : nat) (n : Z) (acc : jsstring) :
  toString36_loop fuel n acc = toString36_loop fuel n [] ++ acc.
Proof.
  revert n acc. induction fuel as [|f IH]; intros n acc; cbn [toString36_loop].
  - reflexivity.
  - destruct (n / 36 =? 0)%Z; [reflexivity|].
    rewrite (IH _ (_ :: acc)), (IH _ [_]), <- app_assoc. reflexivity.
Qed.

Lemma value36_snoc (s : jsstring) (c : N) :
  value36 (s ++ [c]) = (36 * value36 s + digitValue36 c)%Z.
Proof. unfold value36. rewrite fold_left_app. reflexivity. Qed.

Lemma value36_toString36_loop (fuel : nat) (n : Z) :
  (0 <= n < 36 ^ Z.of_nat (S fuel))%Z ->
  value36 (toString36_loop fuel n []) = n.
Proof.
  revert n. induction fuel as [|f IH]; intros n Hn; cbn [toString36_loop].
  - change (36 ^ Z.of_nat 1)%Z with 36%Z in Hn.
    unfold value36. cbn [fold_left].
    rewrite digitValue36_digit36 by (apply Z.mod_pos_bound; lia).
    rewrite Z.mod_small by lia. lia.
  - destruct (Z.eqb_spec (n / 36) 0) as [Hq|Hq].
    + unfold value36. cbn [fold_left].
      rewrite digitValue36_digit36 by (apply Z.mod_pos_bound; lia).
      pose proof (Z.div_mod n 36 ltac:(lia)). lia.
    + rewrite toString36_loop_acc, value36_snoc, IH.
      * rewrite digitValue36_digit36 by (apply Z.mod_pos_bound; lia).
        pose proof (Z.div_mod n 36 ltac:(lia)). lia.
      * split; [apply Z.div_pos; lia|].
        apply Z.div_lt_upper_bound; [lia|].
        replace (Z.of_nat (S (S f))) with (1 + Z.of_nat (S f))%Z in Hn by lia.
        rewrite Z.pow_add_r in Hn by lia. lia.
Qed.

Lemma log2_fuel (n : Z) : (0 <= n)%Z -> (n < 36 ^ Z.of_nat (S (Z.to_nat (Z.log2 n))))%Z.
Proof.
  intros Hn. destruct (Z.eq_dec n 0) as [->|Hz].
  - reflexivity.
  - pose proof (Z.log2_nonneg n) as Hl.
    pose proof (proj2 (Z.log2_spec n ltac:(lia))) as Hlt.
    replace (Z.of_nat (S (Z.to_nat (Z.log2 n)))) with (Z.succ (Z.log2 n)) by lia.
    eapply Z.lt_le_trans; [exact Hlt|].
    apply Z.pow_le_mono_l. lia.
Qed.

(** Reading the digits back gives the number: [toString36] loses nothing. *)
Lemma value36_toString36 (n : Z) : (0 <= n)%Z -> value36 (toString36 n) = n.
Proof.
  intros Hn. unfold toString36. apply value36_toString36_loop.
  split; [exact Hn | apply log2_fuel; exact Hn].
Qed.

Lemma toString36_loop_no_underscore (fuel : nat) (n : Z) (acc : jsstring) :
  (0 <= n)%Z -> Forall (fun c => c <> 95%N) acc ->
  Forall (fun c => c <> 95%N) (toString36_loop fuel n acc).
Proof.
  revert n acc. induction fuel as [|f IH]; intros n acc Hn Hacc; cbn [toString36_loop].
  - constructor; [apply digit36_not_underscore, Z.mod_pos_bound; lia | exact Hacc].
  - destruct (n / 36 =? 0)%Z.
    + constructor; [apply digit36_not_underscore, Z.mod_pos_bound; lia | exact Hacc].
    + apply IH; [apply Z.div_pos; lia|].
      constructor; [apply digit36_not_underscore, Z.mod_pos_bound; lia | exact Hacc].
Qed.

(** Two strings that agree after a separator neither contains agree
    before it. *)
Lemma first_separator (c : N) (a b x y : jsstring) :
  Forall (fun d => d <> c) a -> Forall (fun d => d <> c) b ->
  a ++ c :: x = b ++ c :: y -> a = b.
Proof.
  intros Ha. revert b. induction Ha as [|d a Hd _ IH]; intros b Hb E.
  - destruct Hb as [|d' b Hd' _]; [reflexivity|].
    simpl in E. inversion E; subst. contradiction.
  - destruct Hb as [|d' b Hd' Hb].
    + simpl in E. inversion E; subst. contradiction.
    + simpl in E. inversion E; subst. f_equal. exact (IH b Hb H1).
Qed.

(** Run identifiers made at different clock readings differ, whatever the
    random digits. *)
Lemma runIdOf_time (t1 t2 : Z) (rnd1 rnd2 : jsstring) :
  (0 <= t1)%Z -> (0 <= t2)%Z ->
  runIdOf t1 rnd1 = runIdOf t2 rnd2 -> t1 = t2.
Proof.
  intros H1 H2 E. unfold runIdOf in E. change (lit "_") with [95%N] in E.
  apply first_separator in E.
  - rewrite <- (value36_toString36 H1), <- (value36_toString36 H2), E. reflexivity.
  - apply toString36_loop_no_underscore; [exact H1 | constructor].
  - apply toString36_loop_no_underscore; [exact H2 | constructor].
Qed.

(** X10: two runs started at different clock readings have different run
    identifiers, whatever their random parts, so that every file path of
    one that carries the run identifier differs from every such path of
    the other. *)
Theorem runs_at_different_times_never_collide
    (t1 t2 : Z) (rnd1 rnd2 p1 p2 : jsstring) :
  (0 <= t1)%Z -> (0 <= t2)%Z -> t1 <> t2 ->
  runIdOf t1 rnd1 <> runIdOf t2 rnd2
  /\ (In p1 (runScopedPaths (runIdOf t1 rnd1)) ->
      In p2 (runScopedPaths (runIdOf t2 rnd2)) -> p1 <> p2).
Proof.
  intros H1 H2 Hne.
  assert (Hid : runIdOf t1 rnd1 <> runIdOf t2 rnd2).
  { intros E. apply Hne. exact (runIdOf_time _ _ H1 H2 E). }
  split; [exact Hid|].
  intros Hp1 Hp2 E. subst p2.
  exact (LauncherPaths.runScopedPaths_disjoint Hid Hp1 Hp2).
Qed.

Lemma runs_at_different_times_never_collide_witness :
  runIdOf 1700000000000 (lit "4fj20dkq") <> runIdOf 1700000000001 (lit "4fj20dkq")
  /\ maintenanceExitCodePathOf (runIdOf 1700000000000 (lit "4fj20dkq"))
     <> maintenanceExitCodePathOf (runIdOf 1700000000001 (lit "4fj20dkq")).
Proof.
  destruct (@runs_at_different_times_never_collide 1700000000000 1700000000001
              (lit "4fj20dkq") (lit "4fj20dkq")
              (maintenanceExitCodePathOf (runIdOf 1700000000000 (lit "4fj20dkq")))
              (maintenanceExitCodePathOf (runIdOf 1700000000001 (lit "4fj20dkq"))))
    as [Hid Hp]; try lia.
  split; [exact Hid|]. apply Hp; vm_compute; tauto.
Defined.

End RunIdFacts.

(** ** The launcher: one remote command, and how its failure is told *)

Module LauncherMore.
Import Launcher LauncherSim JSFacts EffMoreFacts.

Lemma option_trim_blank (o : option jsstring) :
  (if truthy (option_trim o) then lit " | stderr: " ++ option_trim o else [])
  = match o with
    | Some err => if forallb isWhiteSpace err then [] else lit " | stderr: " ++ trim err
    | None => []
    end.
Proof.
  destruct o as [err|]; [|reflexivity]. cbn [option_trim].
  destruct (forallb isWhiteSpace err) eqn:Hb.
  - rewrite (trim_blank _ Hb). reflexivity.
  - destruct (trim err) as [|c r] eqn:Ht; [|reflexivity].
    apply trim_nil_blank in Ht. congruence.
Qed.

Section WithWorld.
Variable W : Type.
Variable env : Env W.

(** X11: when there is a script to run, the launcher draws one run
    identifier and runs exactly one command on the instance.  It then either
    logs the successful start and returns, or logs a failure and throws an
    [Error] whose message is the one it logged: the message of whatever
    running the command threw; or, for a non-zero exit code, "Failed to
    start orchestrator: exit code N", followed by the trimmed standard
    error output when that is not blank; or, for output without the
    marker, "Orchestrator did not confirm successful start". *)
Theorem launcher_runs_one_command (a : Args) (s : St unit W Event) :
  hasMaintenance a || hasDev a = true ->
  let runId := fst (newRunId env (world s)) in
  let cmd := setupAndRunCommandOf a runId in
  exists r s' final,
    runMaintenanceAndDevScripts env a s = (r, s')
    /\ trace s' = final :: EExec cmd :: ENewRunId :: trace s
    /\ ((r = Ok tt
         /\ final = EConsoleLog
                      (lit "[runMaintenanceAndDevScripts] Orchestrator started successfully"))
        \/ exists msg,
             r = Throw (ErrorObj msg)
             /\ final = EConsoleError
                          (lit "[runMaintenanceAndDevScripts] Failed to start orchestrator: "
                           ++ msg)
             /\ match fst (exec env cmd (snd (newRunId env (world s)))) with
                | Raised e => msg = exn_message e
                | Returned res =>
                    if negb (exit_code res =? 0)%Z then
                      msg = lit "Failed to start orchestrator: exit code "
                            ++ numberToString (exit_code res)
                            ++ match stderr res with
                               | Some err =>
                                   if forallb isWhiteSpace err then []
                                   else lit " | stderr: " ++ trim err
                               | None => []
                               end
                    else msg = lit "Orchestrator did not confirm successful start"
                end).
Proof.
  intros Hhas.
  assert (Hif : negb (hasMaintenance a) && negb (hasDev a) = false).
  { destruct (hasMaintenance a), (hasDev a); simpl in *; congruence. }
  unfold runMaintenanceAndDevScripts. rewrite Hif.
  unfold try_catch, perform, bind, emit, ask. cbn [world prog trace].
  destruct (newRunId env (world s)) as [runId w1]. cbn [fst snd world prog trace].
  destruct (exec env (setupAndRunCommandOf a runId) w1) as [[res|e] w2];
    cbn [fst ret throw world prog trace].
  - destruct (negb (exit_code res =? 0)%Z).
    + eexists _, _, _. split; [reflexivity|]. split; [reflexivity|].
      right. eexists. split; [reflexivity|]. split; [reflexivity|].
      cbn [exn_message]. rewrite option_trim_blank. reflexivity.
    + destruct (negb (includes START_MARKER (option_trim (stdout res)))).
      * eexists _, _, _. split; [reflexivity|]. split; [reflexivity|].
        right. eexists. split; [reflexivity|]. split; reflexivity.
      * eexists _, _, _. split; [reflexivity|]. split; [reflexivity|].
        left. split; reflexivity.
  - eexists _, _, _. split; [reflexivity|]. split; [reflexivity|].
    right. eexists. split; [reflexivity|]. split; reflexivity.
Qed.

End WithWorld.

Lemma launcher_runs_one_command_witness :
  exists s',
    runMaintenanceAndDevScripts refusingEnv devOnlyArgs launcherStart
    = (Throw (ErrorObj (lit "Failed to start orchestrator: exit code 127 | stderr: "
                        ++ lit "zsh: command not found: bun")), s')
    /\ List.length (filter isExec (trace s')) = 1%nat.
Proof.
  destruct (@launcher_runs_one_command unit refusingEnv devOnlyArgs launcherStart
              eq_refl) as (r & s' & final & E & T & [[-> _] | (msg & -> & -> & M)]).
  - exfalso. vm_compute in E. discriminate E.
  - exists s'. rewrite E, T. cbn in M. rewrite M. split; reflexivity.
Defined.

End LauncherMore.

(** ** The serve-web supervisor: more on its waiting and its cache *)

Module ServeWebMore.
Import ServeWeb ServeWebObs EffMore EffFacts EffMoreFacts.
Import ServeWebFacts.

(** One step of a proof that a computation returns or throws, with any
    bound on the events; the bound on a recorded event is left as a
    goal. *)
Ltac swp_step :=
  match goal with
  | |- returns _ (ret _) => apply returns_ret
  | |- returns _ (emit _) => apply returns_emit
  | |- returns _ (ask _) => apply returns_ask
  | |- returns _ (tell _) => apply returns_tell
  | |- returns _ getG => apply returns_getG
  | |- returns _ (modifyG _) => apply returns_modifyG
  | |- returns _ (Date_now (W:=_)) => apply returns_Date_now
  | |- returns _ (bind _ _) => apply returns_bind; [|intros ?]
  | |- returns _ (try_catch _ _) => apply returns_try_catch; [|intros ?]
  | |- returns _ (if ?b then _ else _) => destruct b
  | |- returns _ (match ?x with _ => _ end) => destruct x
  | |- returns _ (let '(_, _) := ?x in _) => destruct x
  | |- safe _ (ret _) => apply returns_safe, returns_ret
  | |- safe _ (emit _) => apply returns_safe, returns_emit
  | |- safe _ (ask _) => apply returns_safe, returns_ask
  | |- safe _ (tell _) => apply returns_safe, returns_tell
  | |- safe _ getG => apply returns_safe, returns_getG
  | |- safe _ (modifyG _) => apply returns_safe, returns_modifyG
  | |- safe _ (Date_now (W:=_)) => apply returns_safe, returns_Date_now
  | |- safe _ (bind _ _) => apply safe_bind; [|intros ?]
  | |- safe _ (perform _) => apply safe_perform
  | |- safe _ (throw _) => apply safe_throw
  | |- safe _ (try_catch _ _) => apply safe_try_catch; [|intros ?]
  | |- safe _ (if ?b then _ else _) => destruct b
  | |- safe _ (match ?x with _ => _ end) => destruct x
  | |- safe _ (let '(_, _) := ?x in _) => destruct x
  end.

Ltac swp :=
  unfold logger_info, logger_warn, logger_warn2, logger_error2, logger_debug2,
    getChild, setChild, note, askW, tick;
  repeat swp_step.

Section Background.
Variable W : Type.
Variable env : Env W.
Variable P : Obs -> Prop.
Hypothesis Hbg : forall o, background o = true -> P o.

Local Abbreviation St := (St Globals (World W) Obs).
Local Abbreviation M := (M Globals (World W) Obs).

Lemma deliver_bg (ev : nat * ChildEvent) : returns P (deliver (W := W) ev).
Proof.
  unfold deliver, onExit, onError. destruct ev as [ref e].
  swp; apply Hbg; reflexivity.
Qed.

Lemma deliverAll_bg (evs : list (nat * ChildEvent)) :
  returns P (deliverAll (W := W) evs).
Proof.
  induction evs as [|ev r IH]; simpl; [apply returns_ret|].
  apply returns_bind; [apply deliver_bg | intros _; exact IH].
Qed.

Lemma settleAll_bg (ps : list jsstring) : returns P (settleAll env ps).
Proof.
  induction ps as [|p r IH]; simpl; [apply returns_ret|].
  unfold unlinkRejected. swp; try exact IH; apply Hbg; reflexivity.
Qed.

(** While a function is suspended, only background events happen. *)
Lemma yield_bg : returns P (yield env).
Proof.
  unfold yield, settlePending.
  swp; first [apply settleAll_bg | apply deliverAll_bg].
Qed.

Lemma await_bg {R} (op : W -> outcome R * W) : safe P (await env op).
Proof.
  unfold await. apply safe_bind; [apply returns_safe; swp|]. intros o.
  apply safe_bind; [apply returns_safe, yield_bg|]. intros _.
  destruct o; [apply returns_safe, returns_ret | apply safe_throw].
Qed.


End Background.

Section WithWorld.
Variable W : Type.
Variable env : Env W.

Local Abbreviation St := (St Globals (World W) Obs).
Local Abbreviation M := (M Globals (World W) Obs).

(** What an awaited operation gives is what the world answered. *)
Lemma await_outcome {R} (op : W -> outcome R * W) (s s' : St) (x : res R) :
  await env op s = (x, s') ->
  match fst (op (rest (world s))) with
  | Returned r => x = Ok r
  | Raised e => x = Throw e
  end.
Proof.
  unfold await, askW. unfold bind at 1. unfold ask.
  destruct (op (rest (world s))) as [o w']. cbn [fst].
  match goal with
  | |- context [bind (yield env) _ ?st] =>
      destruct (yield_returns env st) as ([] & s1 & l1 & E1 & _)
  end.
  rewrite (bind_run _ E1). destruct o; intros H; inversion H; reflexivity.
Qed.

(** *** Waiting for the socket *)

(** One round of the waiting loop: the file is there, or it is missing
    and 100 ms or more go by, or looking for it failed otherwise. *)
Lemma pollSocket_outcome (p : jsstring) (s s' : St) (x : res bool) :
  pollSocket env p s = (x, s') ->
  (x = Ok true /\ exists w, fst (access env p F_OK w) = Returned tt)
  \/ (x = Ok false /\ (clock (world s) + 100 <= clock (world s'))%Z)
  \/ (exists e w, x = Throw e /\ isENOENT e = false
                  /\ fst (access env p F_OK w) = Raised e).
Proof.
  intros H. pose proof H as H0. revert H.
  unfold pollSocket, try_catch. rewrite (bind_run _ (note_run _ s)).
  unfold bind at 1.
  match goal with
  | |- context [await env ?op ?st] =>
      destruct (await env op st) as [[a|e|c] s1] eqn:E;
      pose proof (await_outcome _ _ E) as Ho; cbn [world rest] in Ho
  end.
  - intros H. inversion H; subst. left. split; [reflexivity|].
    exists (rest (world s)).
    destruct (fst (access env p F_OK (rest (world s)))) as [[]|e]; [reflexivity|discriminate].
  - destruct (isENOENT e) eqn:He.
    + intros H. right. left.
      destruct (setTimeout_returns env 100 s1) as ([] & s2 & l2 & E2 & _).
      rewrite (bind_run _ E2) in H. inversion H; subst.
      split; [reflexivity|]. eapply pollSocket_continue. exact H0.
    + intros H. inversion H; subst. right. right.
      exists e, (rest (world s)). split; [reflexivity|]. split; [exact He|].
      destruct (fst (access env p F_OK (rest (world s)))) as [[]|e'];
        [discriminate | congruence].
  - exfalso. destruct (await_safe env (access env p F_OK)
                         (mkSt (prog s) (world s) (obsOf (EAccess p F_OK) s :: trace s)))
      as (r & s2 & l & E' & _ & _ & N).
    rewrite E in E'. inversion E'; subst. exact (N c eq_refl).
Qed.

Lemma waitForSocket_loop_outcome (fuel : nat) (p : jsstring) (deadline : Z)
    (s s' : St) (x : res unit) :
  (deadline - clock (world s) <= Z.of_nat fuel)%Z ->
  waitForSocket_loop env fuel p deadline s = (x, s') ->
  (x = Ok tt /\ exists w, fst (access env p F_OK w) = Returned tt)
  \/ (x = Throw (socketTimeoutError p) /\ (deadline <= clock (world s'))%Z)
  \/ (exists e w, x = Throw e /\ isENOENT e = false
                  /\ fst (access env p F_OK w) = Raised e).
Proof.
  revert s. induction fuel as [|fuel IH]; intros s Hf;
    cbn [waitForSocket_loop]; rewrite (bind_run _ (Date_now_run s));
    destruct (Z.ltb_spec (clock (world s)) deadline) as [Hlt|Hge];
    try (exfalso; simpl in *; lia);
    try (intros H; inversion H; subst; right; left; split; [reflexivity | exact Hge]).
  fold (pollSocket env p). unfold bind.
  destruct (pollSocket env p s) as [[[|]|e|c] s1] eqn:E;
    destruct (pollSocket_outcome _ _ E) as [[Hx Ha] | [[Hx Hc] | (e' & w & Hx & He & Ha)]];
    try discriminate.
  - intros H. inversion H; subst. left. split; [reflexivity | exact Ha].
  - apply IH. lia.
  - intros H. inversion H; subst. inversion Hx; subst. right. right.
    exists e', w. repeat split; assumption.
Qed.

(** X12: [waitForSocket] ends in one of three ways, whatever the world
    does: it returns, and then the socket file has been found; or it throws
    the time-out error, and then 15 seconds or more have gone by since the
    call; or it throws the error that looking for the file gave, which is
    then not [ENOENT].  A missing file alone never makes it fail before the
    deadline. *)
Theorem waitForSocket_outcome (p : jsstring) (s s' : St) (x : res unit) :
  waitForSocket env p s = (x, s') ->
  (x = Ok tt /\ exists w, fst (access env p F_OK w) = Returned tt)
  \/ (x = Throw (socketTimeoutError p)
      /\ (clock (world s) + SOCKET_READY_TIMEOUT_MS <= clock (world s'))%Z)
  \/ (exists e w, x = Throw e /\ isENOENT e = false
                  /\ fst (access env p F_OK w) = Raised e).
Proof.
  unfold waitForSocket. rewrite (bind_run _ (Date_now_run s)).
  apply waitForSocket_loop_outcome.
  change (Z.of_nat (Z.to_nat SOCKET_READY_TIMEOUT_MS)) with SOCKET_READY_TIMEOUT_MS.
  lia.
Qed.

(** *** The warm-up *)









(** *** Which processes a launch starts and signals *)

Lemma stable_refl (s : St) : stable s s.
Proof. split; reflexivity. Qed.

Lemma stable_trans (s1 s2 s3 : St) : stable s1 s2 -> stable s2 s3 -> stable s1 s3.
Proof. intros [A1 B1] [A2 B2]. split; congruence. Qed.




Lemma update_length {A} (i : nat) (f : A -> A) (l : list A) :
  List.length (update i f l) = List.length l.
Proof.
  unfold update. destruct (nth_error l i) as [x|] eqn:E.
  - assert (Hlen : (i < List.length l)%nat) by (apply nth_error_Some; congruence).
    rewrite length_app, length_firstn. cbn [List.length]. rewrite length_skipn. lia.
  - apply nth_error_None in E. rewrite app_nil_r, firstn_all2 by lia. reflexivity.
Qed.

(** Steps that leave the program's variables alone. *)
Lemma stable_emit (o : Obs) : related (stable (W := W)) (emit o).
Proof. intros s r s' E. inversion E. split; reflexivity. Qed.

Lemma stable_ask {R} (f : World W -> R * World W) : related (stable (W := W)) (ask f).
Proof.
  intros s r s' E. unfold ask in E. destruct (f (world s)). inversion E.
  split; reflexivity.
Qed.

Lemma stable_tell (f : World W -> World W) : related (stable (W := W)) (tell f).
Proof. intros s r s' E. inversion E. split; reflexivity. Qed.

Lemma stable_modifyG (f : Globals -> Globals) :
  (forall g, resolvedVSCodeExecutable (f g) = resolvedVSCodeExecutable g
             /\ List.length (heap (f g)) = List.length (heap g)) ->
  related (stable (W := W)) (modifyG f).
Proof. intros Hf s r s' E. inversion E. cbn [prog]. apply Hf. Qed.

Ltac stable_step :=
  match goal with
  | |- related _ (ret _) => apply (related_ret stable_refl)
  | |- related _ (throw _) => apply (related_throw stable_refl)
  | |- related _ getG => apply (related_getG stable_refl)
  | |- related _ (emit _) => apply stable_emit
  | |- related _ (ask _) => apply stable_ask
  | |- related _ (tell _) => apply stable_tell
  | |- related _ (modifyG _) =>
      apply stable_modifyG; intros ?; cbn; rewrite ?update_length; split; reflexivity
  | |- related _ (bind _ _) => apply (related_bind stable_trans); [|intros ?]
  | |- related _ (try_catch _ _) => apply (related_try_catch stable_trans); [|intros ?]
  | |- related _ (if ?b then _ else _) => destruct b
  | |- related _ (match ?x with _ => _ end) => destruct x
  | |- related _ (let '(_, _) := ?x in _) => destruct x
  end.

Ltac stable_all :=
  unfold logger_info, logger_warn, logger_warn2, logger_error2, logger_debug2,
    getChild, setChild, note, askW, tick;
  repeat stable_step.

Lemma deliver_stable (ev : nat * ChildEvent) : related (stable (W := W)) (deliver ev).
Proof. unfold deliver, onExit, onError. destruct ev as [ref e]. stable_all. Qed.

Lemma deliverAll_stable (evs : list (nat * ChildEvent)) :
  related (stable (W := W)) (deliverAll evs).
Proof.
  induction evs as [|ev r IH]; simpl; [apply (related_ret stable_refl)|].
  apply (related_bind stable_trans); [apply deliver_stable | intros _; exact IH].
Qed.

Lemma settleAll_stable (ps : list jsstring) : related (stable (W := W)) (settleAll env ps).
Proof.
  induction ps as [|p r IH]; simpl; [apply (related_ret stable_refl)|].
  unfold unlinkRejected. stable_all; exact IH.
Qed.

(** The event loop leaves the resolved executable alone and drops no
    child process object. *)
Lemma yield_stable : related (stable (W := W)) (yield env).
Proof.
  unfold yield, settlePending.
  stable_all; first [apply settleAll_stable | apply deliverAll_stable].
Qed.

Lemma await_stable {R} (op : W -> outcome R * W) : related (stable (W := W)) (await env op).
Proof. unfold await. stable_all. apply yield_stable. Qed.


Lemma keeps_same_heap {A} (m : M A) :
  (forall s r s', m s = (r, s') -> heap (prog s') = heap (prog s)) ->
  related (keepsChildren (W := W)) m.
Proof. intros H s r s' E. unfold keepsChildren. rewrite (H _ _ _ E). lia. Qed.























(** *** The two cached values go together *)

Lemma sc_refl (s : St) : staysCoherent s s.
Proof. intros H. split; [exact H|]. exists []. split; [reflexivity | constructor]. Qed.

Lemma sc_trans (s1 s2 s3 : St) :
  staysCoherent s1 s2 -> staysCoherent s2 s3 -> staysCoherent s1 s3.
Proof.
  intros H12 H23 H1. destruct (H12 H1) as (H2 & l12 & T12 & F12).
  destruct (H23 H2) as (H3 & l23 & T23 & F23).
  split; [exact H3|]. exists (l23 ++ l12).
  split; [rewrite T23, T12; apply app_assoc | apply Forall_app; split; assumption].
Qed.

Lemma sc_same {A} (m : M A) :
  (forall s r s', m s = (r, s') -> prog s' = prog s /\ trace s' = trace s) ->
  related (staysCoherent (W := W)) m.
Proof.
  intros H s r s' E Hc. destruct (H _ _ _ E) as [Hp Ht]. rewrite Hp, Ht.
  split; [exact Hc|]. exists []. split; [reflexivity | constructor].
Qed.

Lemma sc_note (e : Event) : related (staysCoherent (W := W)) (note e).
Proof.
  intros s r s' E Hc. rewrite note_run in E. inversion E; subst. cbn [prog trace].
  split; [exact Hc|]. exists [obsOf e s]. split; [reflexivity|].
  constructor; [exact Hc | constructor].
Qed.

Lemma sc_askW {R} (f : W -> R * W) : related (staysCoherent (W := W)) (askW f).
Proof.
  apply sc_same. intros s r s' E. unfold askW, ask in E.
  destruct (f (rest (world s))). inversion E. split; reflexivity.
Qed.

Lemma sc_tick (ms : Z) : related (staysCoherent (W := W)) (tick ms).
Proof. apply sc_same. intros s r s' E. inversion E. split; reflexivity. Qed.

Lemma sc_Date_now : related (staysCoherent (W := W)) (Date_now (W := W)).
Proof. apply sc_same. intros s r s' E. inversion E. split; reflexivity. Qed.

Lemma sc_perform {R} (f : World W -> outcome R * World W) :
  related (staysCoherent (W := W)) (perform f).
Proof.
  apply sc_same. intros s r s' E. unfold perform, bind, ask in E.
  destruct (f (world s)) as [[x|e] w]; inversion E; split; reflexivity.
Qed.

Lemma sc_modifyG (f : Globals -> Globals) :
  (forall g, coherent g -> coherent (f g)) ->
  related (staysCoherent (W := W)) (modifyG f).
Proof.
  intros Hf s r s' E Hc. inversion E; subst. cbn [prog trace].
  split; [apply Hf, Hc|]. exists []. split; [reflexivity | constructor].
Qed.

(** Two assignments in a row, with nothing in between, that set both
    values or clear both. *)
Lemma sc_pair {A} (f1 f2 : Globals -> Globals) (k : M A) :
  (forall g, coherent (f2 (f1 g))) ->
  related (staysCoherent (W := W)) k ->
  related (staysCoherent (W := W)) (modifyG f1;; modifyG f2;; k).
Proof.
  intros Hf Hk s r s' E Hc.
  rewrite (bind_run _ (modifyG_run _ _)), (bind_run _ (modifyG_run _ _)) in E.
  destruct (Hk _ _ _ E (Hf (prog s))) as (Hc' & l & T & F).
  split; [exact Hc'|]. exists l. split; [exact T | exact F].
Qed.

Lemma onExit_coherent (code : option Z) (signal : option jsstring) :
  related (staysCoherent (W := W)) (onExit code signal).
Proof.
  unfold onExit. apply (related_bind sc_trans).
  { destruct code as [[| |]|]; destruct (truthy_opt signal);
      unfold logger_info, logger_warn; apply sc_note. }
  intros _ s r s' E Hc. revert E. unfold bind at 1. unfold getG at 1.
  unfold coherent, paired in Hc.
  destruct (currentServeWebBaseUrl (prog s)) as [u|] eqn:Eu;
    destruct (currentServeWebSocketPath (prog s)) as [p|] eqn:Ep;
    try contradiction; cbn [truthy_opt].
  - rewrite Hc. cbv iota. unfold logger_info, note, bind, getG, emit, modifyG.
    cbn [prog world trace].
    intros E. inversion E; subst. cbn [prog trace].
    split; [exact I|]. eexists [_]. split; [reflexivity|].
    constructor; [|constructor]. unfold coherentObs, paired.
    cbn [seenBaseUrl seenSocketPath]. rewrite Eu, Ep. exact Hc.
  - unfold bind, modifyG, ret. cbn [prog world trace].
    intros E. inversion E; subst. cbn [prog trace].
    split; [|exists []; split; [reflexivity | constructor]].
    unfold coherent, paired. cbn. rewrite Eu. exact I.
Qed.

Ltac sc_step :=
  match goal with
  | |- related _ (ret _) => apply (related_ret sc_refl)
  | |- related _ (throw _) => apply (related_throw sc_refl)
  | |- related _ getG => apply (related_getG sc_refl)
  | |- related _ (note _) => apply sc_note
  | |- related _ (askW _) => apply sc_askW
  | |- related _ (tick _) => apply sc_tick
  | |- related _ (Date_now (W:=_)) => apply sc_Date_now
  | |- related _ (perform _) => apply sc_perform
  | |- related _ (onExit _ _) => apply onExit_coherent
  | |- related _ (bind (modifyG _) (fun _ => bind (modifyG _) _)) =>
      apply sc_pair; [intros ?; reflexivity|]
  | |- related _ (modifyG _) => apply sc_modifyG; intros ? ?; assumption
  | |- related _ (bind _ _) => apply (related_bind sc_trans); [|intros ?]
  | |- related _ (try_catch _ _) => apply (related_try_catch sc_trans); [|intros ?]
  | |- related _ (if ?b then _ else _) => destruct b
  | |- related _ (match ?x with _ => _ end) => destruct x
  | |- related _ (let '(_, _) := ?x in _) => destruct x
  end.

Ltac sc_all :=
  unfold logger_info, logger_warn, logger_warn2, logger_error2, logger_debug2,
    getChild, setChild;
  cbv zeta;
  repeat sc_step.

Lemma deliver_coherent (ev : nat * ChildEvent) :
  related (staysCoherent (W := W)) (deliver ev).
Proof. unfold deliver, onError. destruct ev as [ref e]. sc_all. Qed.

Lemma deliverAll_coherent (evs : list (nat * ChildEvent)) :
  related (staysCoherent (W := W)) (deliverAll evs).
Proof.
  induction evs as [|ev r IH]; simpl; [apply (related_ret sc_refl)|].
  apply (related_bind sc_trans); [apply deliver_coherent | intros _; exact IH].
Qed.

Lemma settleAll_coherent (ps : list jsstring) :
  related (staysCoherent (W := W)) (settleAll env ps).
Proof.
  induction ps as [|p r IH]; simpl; [apply (related_ret sc_refl)|].
  unfold unlinkRejected. sc_all; exact IH.
Qed.

Lemma yield_coherent : related (staysCoherent (W := W)) (yield env).
Proof.
  unfold yield, settlePending.
  sc_all; first [apply settleAll_coherent | apply deliverAll_coherent].
Qed.

Lemma await_coherent {R} (op : W -> outcome R * W) :
  related (staysCoherent (W := W)) (await env op).
Proof. unfold await. sc_all. apply yield_coherent. Qed.

Lemma setTimeout_coherent (ms : Z) : related (staysCoherent (W := W)) (setTimeout env ms).
Proof. unfold setTimeout. sc_all. apply yield_coherent. Qed.

Ltac sc_more :=
  sc_all;
  repeat first [ apply await_coherent | apply setTimeout_coherent | sc_step ].

Lemma tryLookups_coherent (l : list (jsstring * list jsstring)) :
  related (staysCoherent (W := W)) (tryLookups env l).
Proof.
  induction l as [|[command args] r IH]; cbn [tryLookups]; sc_more. exact IH.
Qed.

Lemma getVSCodeExecutable_coherent :
  related (staysCoherent (W := W)) (getVSCodeExecutable env).
Proof.
  unfold getVSCodeExecutable, resolveVSCodeExecutable. sc_more;
    apply tryLookups_coherent.
Qed.

Lemma waitForSocket_loop_coherent (fuel : nat) (p : jsstring) (deadline : Z) :
  related (staysCoherent (W := W)) (waitForSocket_loop env fuel p deadline).
Proof.
  induction fuel as [|fuel IH]; cbn [waitForSocket_loop]; sc_more. exact IH.
Qed.

Lemma warmUp_loop_coherent (fuel : nat) (p : jsstring) (deadline : Z) :
  related (staysCoherent (W := W)) (warmUp_loop env fuel p deadline).
Proof.
  induction fuel as [|fuel IH]; cbn [warmUp_loop]; sc_more. exact IH.
Qed.

Lemma child_kill_coherent (ref : nat) : related (staysCoherent (W := W)) (child_kill env ref).
Proof. unfold child_kill. sc_more. Qed.

Lemma launchFailed_coherent (child : option nat) (p : jsstring) (e : exn) :
  related (staysCoherent (W := W)) (launchFailed env child p e).
Proof.
  unfold launchFailed. sc_more; apply child_kill_coherent.
Qed.

Lemma launch_coherent (exe path : jsstring) :
  related (staysCoherent (W := W)) (launch env exe path).
Proof.
  unfold launch, spawnServeWeb, removeStaleSocket, awaitServeWeb, waitForSocket,
    warmUpVSCodeServeWeb.
  sc_more;
    first [ apply launchFailed_coherent | apply waitForSocket_loop_coherent
          | apply warmUp_loop_coherent ].
Qed.

(** X16: the two cached values always go together.  If, before a call of
    [ensureVSCodeServeWeb] or [stopVSCodeServeWeb], or before the event loop
    runs the listeners, both are [null] or both are set (the base URL to a
    non-empty string), then this is so afterwards too, and it was so at
    every action in between: no reader of the two accessors ever sees a
    base URL without a socket path or the reverse. *)
Theorem cache_stays_coherent :
  related (staysCoherent (W := W)) (ensureVSCodeServeWeb env)
  /\ (forall h, related (staysCoherent (W := W)) (stopVSCodeServeWeb env h))
  /\ related (staysCoherent (W := W)) (yield env).
Proof.
  split; [|split].
  - unfold ensureVSCodeServeWeb, createSocketPath.
    sc_more; first [apply getVSCodeExecutable_coherent | apply launch_coherent].
  - intros h. unfold stopVSCodeServeWeb. destruct h as [h|]; sc_more.
    apply child_kill_coherent.
  - apply yield_coherent.
Qed.

(** *** The executable *)

(** What [resolveVSCodeExecutable] returns is what it leaves in
    [resolvedVSCodeExecutable]. *)
Lemma resolveVSCodeExecutable_result (s s' : St) (r : option jsstring) :
  resolveVSCodeExecutable env s = (Ok r, s') ->
  r = resolvedVSCodeExecutable (prog s').
Proof.
  unfold resolveVSCodeExecutable. unfold bind at 1. unfold getG at 1.
  destruct (truthy_opt (resolvedVSCodeExecutable (prog s))).
  - intros E. inversion E; subst. reflexivity.
  - unfold bind at 1.
    destruct (tryLookups env (lookups env) s) as [[[]|e|c] s1];
      try (intros E; discriminate E).
    unfold bind at 1. unfold getG at 1. unfold bind at 1.
    match goal with
    | |- context [match ?blk s1 with _ => _ end] =>
        destruct (blk s1) as [[[]|e|c] s2]; try (intros E; discriminate E)
    end.
    unfold bind, getG, ret. intros E. inversion E; subst. reflexivity.
Qed.

Lemma background_no_execFile (o : Obs) : background o = true -> isExecFile o = false.
Proof.
  unfold background, isExecFile. destruct (event o); intros H;
    try discriminate H; reflexivity.
Qed.

(** X17: the executable is looked up once.  When
    [resolveVSCodeExecutable] has returned an executable, calling it again
    returns the same executable and does nothing else: no lookup command is
    run again, nothing is logged, the state is as it was. *)
Theorem resolved_executable_is_memoized (s s' : St) (exe : jsstring) :
  resolveVSCodeExecutable env s = (Ok (Some exe), s') ->
  truthy exe = true ->
  resolveVSCodeExecutable env s' = (Ok (Some exe), s').
Proof.
  intros E Ht. apply resolveVSCodeExecutable_result in E.
  unfold resolveVSCodeExecutable. unfold bind at 1. unfold getG at 1.
  rewrite <- E. cbn [truthy_opt]. rewrite Ht. reflexivity.
Qed.

(** X18: an executable that cannot be executed is not forgotten.  When
    the resolved path is cached and the check that it can be executed
    fails, [getVSCodeExecutable] returns [null] but the path stays cached,
    and no lookup command is run: a later call will check the same path
    again. *)
Theorem unusable_executable_stays_cached (s : St) (exe : jsstring) (e : exn) :
  resolvedVSCodeExecutable (prog s) = Some exe ->
  truthy exe = true ->
  isWin32 env = false ->
  fst (access env exe X_OK (rest (world s))) = Raised e ->
  exists s' l,
    getVSCodeExecutable env s = (Ok None, s')
    /\ resolvedVSCodeExecutable (prog s') = Some exe
    /\ trace s' = l ++ trace s
    /\ Forall (fun o => isExecFile o = false) l.
Proof.
  intros Hres Ht Hwin Hacc. unfold getVSCodeExecutable, logger_info.
  rewrite (bind_run _ (note_run _ s)).
  set (s0 := mkSt (prog s) (world s) _).
  assert (Er : resolveVSCodeExecutable env s0 = (Ok (Some exe), s0)).
  { unfold resolveVSCodeExecutable. unfold bind at 1. unfold getG at 1.
    cbn [prog s0]. rewrite Hres. cbn [truthy_opt]. rewrite Ht. reflexivity. }
  rewrite (bind_run _ Er). rewrite Ht, Hwin. cbn [negb]. cbv iota.
  unfold try_catch. unfold bind at 1. rewrite (bind_run _ (note_run _ s0)).
  set (s1 := mkSt (prog s0) (world s0) _).
  destruct (@await_bg W env (fun o => isExecFile o = false) background_no_execFile
              unit (access env exe X_OK) s1) as (r & s2 & l2 & E2 & T2 & F2 & _).
  pose proof (await_outcome _ _ E2) as Ho. cbn [s1 s0 world] in Ho.
  rewrite Hacc in Ho. subst r.
  pose proof (@await_stable unit (access env exe X_OK)) as Hs. unfold related in Hs.
  destruct (Hs _ _ _ E2) as [Hkeep _]. cbn [s1 s0 prog] in Hkeep.
  rewrite E2. unfold logger_error2. rewrite (bind_run _ (note_run _ s2)).
  eexists _, (_ :: l2 ++ [_; _]). split; [reflexivity|]. cbn [prog trace].
  split; [rewrite Hkeep; exact Hres|].
  split; [rewrite T2; cbn [s1 s0 trace app]; rewrite <- app_assoc; reflexivity|].
  constructor; [reflexivity|]. apply Forall_app. split; [exact F2|].
  repeat constructor.
Qed.

End WithWorld.

(** *** Reading the output of the lookup *)

Lemma find_first {A} (f : A -> bool) (l : list A) (x : A) :
  find f l = Some x
  <-> exists l1 l2, l = l1 ++ x :: l2 /\ f x = true /\ Forall (fun y => f y = false) l1.
Proof.
  induction l as [|a l IH]; cbn [find].
  - split; [discriminate|]. intros (l1 & l2 & E & _). destruct l1; discriminate E.
  - destruct (f a) eqn:Ha.
    + split.
      * intros E. inversion E; subst. exists [], l. repeat split; [exact Ha | constructor].
      * intros (l1 & l2 & E & Hx & Hl1). destruct l1 as [|b l1].
        -- inversion E; subst. reflexivity.
        -- inversion E; subst. inversion Hl1; subst. congruence.
    + rewrite IH. split.
      * intros (l1 & l2 & E & Hx & Hl1). exists (a :: l1), l2.
        subst l. repeat split; [exact Hx | constructor; assumption].
      * intros (l1 & l2 & E & Hx & Hl1). destruct l1 as [|b l1].
        -- inversion E; subst. congruence.
        -- inversion E; subst. inversion Hl1; subst. exists l1, l2. repeat split; assumption.
Qed.

Lemma find_nothing {A} (f : A -> bool) (l : list A) :
  find f l = None <-> Forall (fun y => f y = false) l.
Proof.
  induction l as [|a l IH]; cbn [find].
  - split; [constructor | reflexivity].
  - destruct (f a) eqn:Ha.
    + split; [discriminate|]. intros H. inversion H; subst. congruence.
    + rewrite IH. split; [constructor; assumption | intros H; inversion H; assumption].
Qed.

Lemma truthy_trim (l : jsstring) : truthy (trim l) = negb (forallb isWhiteSpace l).
Proof.
  destruct (forallb isWhiteSpace l) eqn:Hb.
  - rewrite (JSFacts.trim_blank _ Hb). reflexivity.
  - destruct (trim l) as [|c r] eqn:Ht; [|reflexivity].
    apply JSFacts.trim_nil_blank in Ht. congruence.
Qed.

(** X19: the executable read from the output of a lookup command is its
    first line that is not blank, with the white space around it removed;
    there is none exactly when every line is blank. *)
Theorem candidate_is_first_nonblank_line (out : jsstring) :
  (forall c,
      candidateOf out = Some c
      <-> exists before line after,
            splitLines out = before ++ line :: after
            /\ Forall (fun l => forallb isWhiteSpace l = true) before
            /\ forallb isWhiteSpace line = false
            /\ c = trim line)
  /\ (candidateOf out = None
      <-> Forall (fun l => forallb isWhiteSpace l = true) (splitLines out)).
Proof.
  unfold candidateOf. split.
  - intros c. rewrite find_first. split.
    + intros (l1 & l2 & E & Hc & Hl1).
      apply map_eq_app in E. destruct E as (before & rest & E & E1 & E2).
      apply map_eq_cons in E2. destruct E2 as (line & after & E2 & Ec & E3).
      exists before, line, after. subst.
      split; [first [reflexivity | assumption | symmetry; assumption]|]. split.
      * apply Forall_map in Hl1. eapply Forall_impl; [|exact Hl1].
        intros l Hl. cbv beta in Hl. rewrite truthy_trim in Hl.
        destruct (forallb isWhiteSpace l); [reflexivity | discriminate Hl].
      * rewrite truthy_trim in Hc. split; [|reflexivity].
        destruct (forallb isWhiteSpace line); [discriminate Hc | reflexivity].
    + intros (before & line & after & E & Hb & Hl & Hc).
      exists (List.map trim before), (List.map trim after). rewrite E, map_app. cbn [List.map].
      subst c. split; [reflexivity|]. split.
      * rewrite truthy_trim, Hl. reflexivity.
      * apply Forall_map. eapply Forall_impl; [|exact Hb].
        intros l Hlb. cbv beta. rewrite truthy_trim, Hlb. reflexivity.
  - rewrite find_nothing, Forall_map. split; apply Forall_impl; intros l Hl;
      cbv beta in *; rewrite truthy_trim in *;
      destruct (forallb isWhiteSpace l); try reflexivity; discriminate Hl.
Qed.

Example candidate_ex :
  candidateOf ([LF] ++ lit "  /usr/local/bin/code " ++ [13%N; LF] ++ lit "/usr/bin/code" ++ [LF])
  = Some (lit "/usr/local/bin/code")
  /\ candidateOf (lit " " ++ [13%N; LF; LF]) = None.
Proof. split; reflexivity. Qed.

Import HostSim HostCases.

Lemma resolved_executable_is_memoized_witness :
  resolveVSCodeExecutable (hostEnv healthy) (resolved (hostEnv healthy))
  = (Ok (Some (lit "/usr/bin/code")), resolved (hostEnv healthy)).
Proof.
  apply (@resolved_executable_is_memoized nat (hostEnv healthy) boot).
  - vm_compute. reflexivity.
  - reflexivity.
Defined.

Lemma unusable_executable_stays_cached_witness :
  exists s',
    getVSCodeExecutable (notExecutable healthy) (resolved (notExecutable healthy))
    = (Ok None, s')
    /\ resolvedVSCodeExecutable (prog s') = Some (lit "/usr/bin/code").
Proof.
  destruct (@unusable_executable_stays_cached nat (notExecutable healthy)
              (resolved (notExecutable healthy)) (lit "/usr/bin/code")
              (ErrnoError (lit "EACCES") (lit "permission denied")))
    as (s' & l & E & R & _); try reflexivity.
  exists s'. split; assumption.
Defined.

Lemma waitForSocket_outcome_witness :
  (clock (world boot) + SOCKET_READY_TIMEOUT_MS
   <= clock (world (snd (waitForSocket (hostEnv hung) (socketPath theHandle) boot))))%Z.
Proof.
  destruct (@waitForSocket_outcome nat (hostEnv hung) (socketPath theHandle) boot
              (snd (waitForSocket (hostEnv hung) (socketPath theHandle) boot))
              (fst (waitForSocket (hostEnv hung) (socketPath theHandle) boot)))
    as [[H _] | [[_ H] | (e & w & H & _ & Ha)]].
  - destruct (waitForSocket (hostEnv hung) (socketPath theHandle) boot). reflexivity.
  - vm_compute in H. discriminate H.
  - exact H.
  - vm_compute in H. inversion H; subst e. vm_compute in Ha. discriminate Ha.
Defined.


End ServeWebMore.

(** ** Waiting for the base URL *)

Module ServeWebWaitFacts.
Import ServeWeb ServeWebWait EffFacts EffMoreFacts ServeWebFacts.

Section WithWorld.
Variable W : Type.
Variable env : Env W.
Variable others : W -> (Globals -> Globals) * W.

Local Abbreviation St := (St Globals (World W) Obs).

(** A pause among the other tasks always ends, and lasts as long as its
    timer or longer. *)
Lemma sleepAmongOthers_lasts (ms : Z) (s : St) :
  exists s', sleepAmongOthers env others ms s = (Ok tt, s')
             /\ (clock (world s) + ms <= clock (world s'))%Z.
Proof.
  unfold sleepAmongOthers.
  destruct (setTimeout_returns env ms s) as ([] & s1 & l1 & E1 & _).
  rewrite (bind_run _ E1). apply setTimeout_lasts in E1.
  unfold askW, ask, bind, modifyG. cbn [world].
  destruct (others (rest (world s1))) as [f w']. cbn [prog world trace].
  eexists. split; [reflexivity|]. cbn [world clock]. exact E1.
Qed.

Lemma waitForBaseUrl_loop_outcome (fuel : nat) (deadline : Z) (s : St) :
  (deadline - clock (world s) <= Z.of_nat fuel)%Z ->
  exists r s',
    waitForBaseUrl_loop env others fuel deadline s = (Ok r, s')
    /\ r = currentServeWebBaseUrl (prog s')
    /\ (truthy_opt r = false -> (deadline <= clock (world s'))%Z).
Proof.
  revert s. induction fuel as [|fuel IH]; intros s Hf;
    cbn [waitForBaseUrl_loop]; rewrite (bind_run _ (Date_now_run s));
    destruct (Z.ltb_spec (clock (world s)) deadline) as [Hlt|Hge];
    try (exfalso; simpl in *; lia);
    try (exists (currentServeWebBaseUrl (prog s)), s; split; [reflexivity|];
         split; [reflexivity | intros _; exact Hge]).
  unfold bind at 1. unfold getG at 1.
  destruct (truthy_opt (currentServeWebBaseUrl (prog s))) eqn:Ht.
  - exists (currentServeWebBaseUrl (prog s)), s. split; [reflexivity|].
    split; [reflexivity | congruence].
  - destruct (sleepAmongOthers_lasts 200 s) as (s1 & E1 & H1).
    rewrite (bind_run _ E1). apply IH. lia.
Qed.

(** X20: [waitForVSCodeServeWebBaseUrl] always returns, whatever the
    other tasks and the world do, and what it returns is the cached base
    URL at the moment it returns.  If a base URL is cached when it is
    called, it returns at once and changes nothing.  If it does not return
    a base URL, the time-out (15 seconds when none is given) has gone by
    in full. *)
Theorem wait_for_base_url_outcome (timeoutMs : option Z) (s : St) :
  exists r s',
    waitForVSCodeServeWebBaseUrl env others timeoutMs s = (Ok r, s')
    /\ r = currentServeWebBaseUrl (prog s')
    /\ (truthy_opt (currentServeWebBaseUrl (prog s)) = true -> s' = s)
    /\ (truthy_opt r = false ->
        (clock (world s) + timeoutOf timeoutMs <= clock (world s'))%Z).
Proof.
  unfold waitForVSCodeServeWebBaseUrl. unfold bind at 1. unfold getG at 1.
  destruct (truthy_opt (currentServeWebBaseUrl (prog s))) eqn:Ht.
  - exists (currentServeWebBaseUrl (prog s)), s. split; [reflexivity|].
    split; [reflexivity|]. split; [intros _; reflexivity | intros H; congruence].
  - rewrite (bind_run _ (Date_now_run s)).
    destruct (@waitForBaseUrl_loop_outcome (Z.to_nat (timeoutOf timeoutMs))
                (clock (world s) + timeoutOf timeoutMs) s) as (r & s' & E & Hr & Hd).
    { lia. }
    exists r, s'. split; [exact E|]. split; [exact Hr|].
    split; [intros H; congruence | exact Hd].
Qed.

End WithWorld.

Import HostSim.

(** A caller that waits while a launch completes gets the base URL, after
    three rounds of 200 ms. *)
Example wait_sees_the_launch :
  let r := waitForVSCodeServeWebBaseUrl (hostEnv healthy) launchCompletes None boot in
  fst r = Ok (Some (lit "http://cmux-vscode.local"))
  /\ clock (world (snd r)) = (clock (world boot) + 600)%Z.
Proof. vm_compute. split; reflexivity. Qed.

(** Without a launch it gives up after the time-out. *)
Example wait_times_out :
  let r := waitForVSCodeServeWebBaseUrl (hostEnv healthy) (fun w => (fun g => g, w))
             (Some 1000%Z) boot in
  fst r = Ok None /\ clock (world (snd r)) = (clock (world boot) + 1000)%Z.
Proof. vm_compute. split; reflexivity. Qed.

End ServeWebWaitFacts.

(** ** The lines of the child's output *)

Module StreamLinesFacts.
Import ServeWeb StreamLines LinesFacts.

Lemma split_cons_sep (sep : N) (r : jsstring) : split sep (sep :: r) = [] :: split sep r.
Proof. cbn [split]. rewrite N.eqb_refl. reflexivity. Qed.

Lemma split_cons_other (sep c : N) (r : jsstring) :
  c <> sep ->
  split sep (c :: r)
  = (c :: hd [] (split sep r)) :: tl (split sep r).
Proof.
  intros H. cbn [split]. apply N.eqb_neq in H. rewrite H.
  destruct (split sep r) as [|l ls] eqn:E; [|reflexivity].
  exfalso. exact (split_not_nil _ _ E).
Qed.








Lemma split_no_sep (sep : N) (t : jsstring) : ~ In sep t -> split sep t = [t].
Proof.
  induction t as [|c r IH]; intros H; [reflexivity|].
  rewrite split_cons_other by (intros ->; apply H; left; reflexivity).
  rewrite IH by (intros Hr; apply H; right; exact Hr). reflexivity.
Qed.










Example lines_ex :
  pipeStreamLines (Some [lit "Web UI avail"; lit "able at" ++ [13%N]; [LF] ++ lit "rea";
                         lit "dy" ++ [LF; LF] ++ lit "tail"])
  = [lit "Web UI available at"; lit "ready"; []; lit "tail"]
  /\ pipeStreamLines (Some [lit "done" ++ [LF]]) = [lit "done"]
  /\ pipeStreamLines None = [].
Proof. repeat split; reflexivity. Qed.

End StreamLinesFacts.

(** ** Numbers as strings *)

Module NumberFacts.

Lemma lit_cons (c : ascii) (s : string) : lit (String c s) = N_of_ascii c :: lit s.
Proof. reflexivity. Qed.

Lemma lit_inj (a b : string) : lit a = lit b -> a = b.
Proof.
  revert b. induction a as [|c a IH]; intros [|d b]; try discriminate; [reflexivity|].
  rewrite !lit_cons. intros H. inversion H as [[Hc Hr]].
  f_equal; [|exact (IH b Hr)].
  rewrite <- (ascii_N_embedding c), <- (ascii_N_embedding d), Hc. reflexivity.
Qed.

Lemma string_of_uint_digits (d : Decimal.uint) :
  Forall (fun c => isDigit c = true) (lit (NilEmpty.string_of_uint d)).
Proof.
  induction d; cbn [NilEmpty.string_of_uint]; try rewrite lit_cons;
    constructor; solve [reflexivity | assumption].
Qed.

(** The decimal form of a number that is not negative has digits only. *)
Lemma numberToString_digits (n : Z) :
  (0 <= n)%Z -> Forall (fun c => isDigit c = true) (numberToString n).
Proof.
  intros H. unfold numberToString. destruct n as [|p|p]; [| |lia].
  - repeat constructor.
  - cbn [Z.to_int NilZero.string_of_int]. unfold NilZero.string_of_uint.
    pose proof (string_of_uint_digits (Pos.to_uint p)) as D.
    destruct (Pos.to_uint p); [repeat constructor | exact D ..].
Qed.

Lemma numberToString_without (c : N) (n : Z) :
  (0 <= n)%Z -> isDigit c = false -> Forall (fun d => d <> c) (numberToString n).
Proof.
  intros H Hc. eapply Forall_impl; [|exact (numberToString_digits H)].
  intros d Hd ->. congruence.
Qed.

(** Different numbers have different decimal forms. *)
Lemma numberToString_inj (n m : Z) : numberToString n = numberToString m -> n = m.
Proof.
  unfold numberToString. intros H. apply lit_inj in H.
  assert (I : forall z, NilZero.int_of_string (NilZero.string_of_int (Z.to_int z))
                        = Some (Z.to_int z)).
  { intros z. apply NilZero.isi; destruct z as [|p|p]; cbn [Z.to_int];
      try discriminate; intros E; inversion E as [E'];
      exact (DecimalPos.Unsigned.to_uint_nonnil _ E'). }
  pose proof (I n) as In. rewrite H, I in In. inversion In as [E].
  rewrite <- (DecimalZ.of_to n), <- (DecimalZ.of_to m), E. reflexivity.
Qed.

End NumberFacts.

(** ** The socket path *)

Module SocketPathFacts.
Import ServeWeb NumberFacts.

(** X22: the path of the socket tells the process and the time of the
    launch.  Two launches on the same machine that get the same socket path
    are launches by processes with the same process id, at the same reading
    of the clock (in milliseconds); launches by different processes, or at
    different readings, never share a socket. *)
Theorem socket_path_tells_process_and_time
    (W : Type) (env1 env2 : Env W)
    (s1 s2 : St Globals (World W) Obs) (path : jsstring) :
  tmpdir env1 = tmpdir env2 ->
  (0 <= processPid env1)%Z -> (0 <= processPid env2)%Z ->
  (0 <= clock (world s1))%Z -> (0 <= clock (world s2))%Z ->
  fst (createSocketPath env1 s1) = Ok path ->
  fst (createSocketPath env2 s2) = Ok path ->
  processPid env1 = processPid env2 /\ clock (world s1) = clock (world s2).
Proof.
  intros Ht Hp1 Hp2 Hc1 Hc2. unfold createSocketPath, bind, Date_now, ret. cbn [fst].
  intros E1 E2.
  assert (E : numberToString (processPid env1)
              ++ 45%N :: numberToString (clock (world s1)) ++ lit ".sock"
              = numberToString (processPid env2)
                ++ 45%N :: numberToString (clock (world s2)) ++ lit ".sock").
  { assert (E : tmpdir env2 ++ lit "/cmux-vscode-" ++ numberToString (processPid env1)
                ++ lit "-" ++ numberToString (clock (world s1)) ++ lit ".sock"
                = tmpdir env2 ++ lit "/cmux-vscode-" ++ numberToString (processPid env2)
                  ++ lit "-" ++ numberToString (clock (world s2)) ++ lit ".sock")
      by (rewrite <- Ht at 1; congruence).
    apply app_inv_head in E. apply (app_inv_head (lit "/cmux-vscode-")) in E. exact E. }
  pose proof E as E'. apply RunIdFacts.first_separator in E'.
  - rewrite E' in E. apply app_inv_head in E.
    assert (E3 : numberToString (clock (world s1)) = numberToString (clock (world s2))).
    { inversion E as [E3]. apply app_inv_tail in E3. exact E3. }
    split; apply numberToString_inj; assumption.
  - apply numberToString_without; [exact Hp1 | reflexivity].
  - apply numberToString_without; [exact Hp2 | reflexivity].
Qed.

Lemma socket_path_tells_process_and_time_witness :
  processPid (HostSim.hostEnv HostSim.hung) = processPid (HostSim.hostEnv HostSim.hung)
  /\ clock (world HostSim.boot) = clock (world HostSim.boot).
Proof.
  apply (@socket_path_tells_process_and_time _ (HostSim.hostEnv HostSim.hung)
           (HostSim.hostEnv HostSim.hung) HostSim.boot HostSim.boot
           (tmpdir (HostSim.hostEnv HostSim.hung) ++ lit "/cmux-vscode-"
            ++ numberToString (processPid (HostSim.hostEnv HostSim.hung))
            ++ lit "-" ++ numberToString (clock (world HostSim.boot)) ++ lit ".sock"));
    solve [reflexivity | vm_compute; congruence].
Defined.

End SocketPathFacts.

(** ** The prompt *)

Module PromptFacts.
Import Collector JSFacts.

Lemma includes_refl (s : jsstring) : includes s s = true.
Proof. apply includes_spec. exists [], []. rewrite app_nil_r. reflexivity. Qed.

Lemma includes_within (p s a b : jsstring) :
  includes p s = true -> includes p (a ++ s ++ b) = true.
Proof.
  rewrite !includes_spec. intros (x & y & ->). exists (a ++ x), (y ++ b).
  rewrite <- !app_assoc. reflexivity.
Qed.
Arguments includes_within {p s} a b _.

Lemma includes_join (sep p : jsstring) (l : list jsstring) (x : jsstring) :
  In x l -> includes p x = true -> includes p (join sep l) = true.
Proof.
  intros Hin Hp. induction l as [|y r IH]; [contradiction|].
  cbn [join]. destruct r as [|z r'].
  - destruct Hin as [->|[]]. exact Hp.
  - destruct Hin as [->|Hin].
    + exact (includes_within [] (sep ++ join sep (z :: r')) Hp).
    + specialize (IH Hin).
      pose proof (includes_within (y ++ sep) [] IH) as H.
      rewrite app_nil_r, <- app_assoc in H. exact H.
Qed.

Lemma numbered_names (files : list jsstring) (index : nat) (file : jsstring) :
  In file files ->
  exists line, In line (numbered index files) /\ includes file line = true.
Proof.
  revert index. induction files as [|f r IH]; intros index Hin; [contradiction|].
  destruct Hin as [->|Hin].
  - eexists. split; [left; reflexivity|].
    rewrite app_assoc.
    pose proof (includes_within (numberToString (Z.of_nat index + 1) ++ lit ". ") []
                  (includes_refl file)) as H.
    rewrite app_nil_r in H. exact H.
  - destruct (IH (S index) Hin) as (line & Hl & Hi).
    exists line. split; [right; exact Hl | exact Hi].
Qed.

(** The prompt names every file of the list it was built from. *)
Lemma prompt_names_files (baseBranch mergeBase : jsstring) (files : list jsstring)
    (description : option jsstring) (file : jsstring) :
  In file files ->
  includes file
    (buildScreenshotPrompt
       {| baseBranch := baseBranch;
          mergeBase := mergeBase;
          formattedFileList := formatFileList files;
          prDescription := description |}) = true.
Proof.
  intros Hin. unfold buildScreenshotPrompt. cbv zeta.
  cbn [Collector.baseBranch Collector.mergeBase Collector.formattedFileList
       Collector.prDescription].
  eapply includes_join.
  - do 4 right. left. reflexivity.
  - destruct (numbered_names files 0 file Hin) as (line & Hl & Hi).
    pose proof (includes_join [LF] file _ line Hl Hi) as H.
    pose proof (includes_within (lit "Changed files since base:" ++ [LF]) [] H) as H'.
    rewrite app_nil_r, <- app_assoc in H'. exact H'.
Qed.

(** Splitting at a separator a text whose first part does not contain
    it. *)
Lemma split_first (sep : N) (x t : jsstring) :
  ~ In sep x -> split sep (x ++ sep :: t) = x :: split sep t.
Proof.
  induction x as [|c r IH]; intros H.
  - apply StreamLinesFacts.split_cons_sep.
  - cbn [app]. rewrite StreamLinesFacts.split_cons_other
      by (intros ->; apply H; left; reflexivity).
    rewrite IH by (intros Hr; apply H; right; exact Hr). reflexivity.
Qed.

Lemma split_join (sep : N) (lines : list jsstring) :
  lines <> [] -> Forall (fun line => ~ In sep line) lines ->
  split sep (join [sep] lines) = lines.
Proof.
  induction lines as [|x r IH]; intros Hne H; [congruence|].
  inversion H as [|? ? Hx Hr]; subst. cbn [join]. destruct r as [|y r'].
  - apply StreamLinesFacts.split_no_sep. exact Hx.
  - cbn [app]. rewrite split_first by exact Hx.
    rewrite IH by (discriminate || exact Hr). reflexivity.
Qed.

Lemma numbered_no_LF (files : list jsstring) (index : nat) :
  Forall (fun file => ~ In LF file) files ->
  Forall (fun line => ~ In LF line) (numbered index files).
Proof.
  intros H. revert index. induction H as [|file r Hf _ IH]; intros index; [constructor|].
  cbn [numbered]. constructor; [|apply IH].
  intros Hin. apply in_app_or in Hin. destruct Hin as [Hin|Hin].
  - assert (D : Forall (fun d => d <> LF) (numberToString (Z.of_nat index + 1)))
      by (apply NumberFacts.numberToString_without; [lia | reflexivity]).
    rewrite Forall_forall in D.
    exact (D LF Hin eq_refl).
  - apply in_app_or in Hin. destruct Hin as [Hin|Hin]; [|exact (Hf Hin)].
    vm_compute in Hin. intuition discriminate.
Qed.

Lemma numbered_nth (files : list jsstring) (index i : nat) :
  nth_error (numbered index files) i
  = option_map (fun file => numberToString (Z.of_nat (index + i) + 1) ++ lit ". " ++ file)
      (nth_error files i).
Proof.
  revert index i. induction files as [|f r IH]; intros index i.
  - destruct i; reflexivity.
  - destruct i as [|i]; cbn [numbered nth_error option_map].
    + rewrite Nat.add_0_r. reflexivity.
    + rewrite IH. replace (S index + i)%nat with (index + S i)%nat by lia. reflexivity.
Qed.

Lemma numbered_length (files : list jsstring) (index : nat) :
  List.length (numbered index files) = List.length files.
Proof.
  revert index. induction files as [|f r IH]; intros index; [reflexivity|].
  cbn [numbered List.length]. rewrite IH. reflexivity.
Qed.

Lemma numbered_inj (a b : list jsstring) (index : nat) :
  numbered index a = numbered index b -> a = b.
Proof.
  revert b index. induction a as [|f r IH]; intros [|g r'] index H;
    try discriminate; [reflexivity|].
  cbn [numbered] in H. inversion H as [[Hf Hr]].
  apply app_inv_head in Hf. inversion Hf; subst g.
  f_equal. exact (IH _ _ Hr).
Qed.

Lemma formatFileList_empty (files : list jsstring) :
  formatFileList files = [] -> files = [].
Proof.
  destruct files as [|f r]; [reflexivity|]. unfold formatFileList. cbn [numbered join].
  intros H. apply (f_equal (@List.length N)) in H. exfalso.
  destruct (numbered 1 r); rewrite !length_app in H;
    change (List.length (lit ". ")) with 2%nat in H; cbn [List.length] in H; lia.
Qed.

(** X23: the file list of the prompt has one line for each file, in
    order: line [i] (from 0) is the number [i + 1], a full stop, a space
    and the name of file [i].  The files can be read back from the list:
    different lists of files give different texts.  This holds for file
    names without a line feed; the list of no files is the empty string. *)
Theorem file_list_has_one_line_per_file (files : list jsstring) :
  Forall (fun file => ~ In LF file) files ->
  formatFileList [] = []
  /\ (files <> [] ->
      List.length (split LF (formatFileList files)) = List.length files
      /\ forall i file,
           nth_error files i = Some file ->
           nth_error (split LF (formatFileList files)) i
           = Some (numberToString (Z.of_nat i + 1) ++ lit ". " ++ file))
  /\ (forall files',
         Forall (fun file => ~ In LF file) files' ->
         formatFileList files' = formatFileList files -> files' = files).
Proof.
  intros H.
  assert (S : forall l, Forall (fun file => ~ In LF file) l -> l <> [] ->
                        split LF (formatFileList l) = numbered 0 l).
  { intros l Hl Hne. unfold formatFileList. apply split_join.
    - destruct l; [congruence | discriminate].
    - apply numbered_no_LF. exact Hl. }
  split; [reflexivity|]. split.
  - intros Hne. rewrite (S files H Hne). split; [apply numbered_length|].
    intros i file Hi. rewrite numbered_nth, Hi. reflexivity.
  - intros files' H' E. destruct files as [|f r].
    + apply formatFileList_empty. exact E.
    + destruct files' as [|f' r'].
      * symmetry in E. apply formatFileList_empty in E. discriminate E.
      * apply (numbered_inj _ _ 0).
        rewrite <- (S _ H' ltac:(discriminate)), <- (S _ H ltac:(discriminate)), E.
        reflexivity.
Qed.

Lemma file_list_has_one_line_per_file_witness :
  formatFileList [] = []
  /\ ([lit "src/App.tsx"; lit "README.md"] <> [] ->
      List.length (split LF (formatFileList [lit "src/App.tsx"; lit "README.md"]))
      = List.length [lit "src/App.tsx"; lit "README.md"]
      /\ forall i file,
           nth_error [lit "src/App.tsx"; lit "README.md"] i = Some file ->
           nth_error (split LF (formatFileList [lit "src/App.tsx"; lit "README.md"])) i
           = Some (numberToString (Z.of_nat i + 1) ++ lit ". " ++ file))
  /\ (forall files',
         Forall (fun file => ~ In LF file) files' ->
         formatFileList files' = formatFileList [lit "src/App.tsx"; lit "README.md"] ->
         files' = [lit "src/App.tsx"; lit "README.md"]).
Proof.
  apply (@file_list_has_one_line_per_file [lit "src/App.tsx"; lit "README.md"]).
  repeat constructor; vm_compute; intuition discriminate.
Defined.

Example formatFileList_ex :
  formatFileList [lit "src/App.tsx"; lit "README.md"]
  = lit "1. src/App.tsx" ++ [LF] ++ lit "2. README.md".
Proof. reflexivity. Qed.

End PromptFacts.

(** ** The screenshot collector *)

Module CollectorFacts.
Import Collector CollectorObs JSFacts.
Local Open Scope collector_scope.

Lemma received_app (l2 l1 : list Event) : received (l2 ++ l1) = received l1 ++ received l2.
Proof. unfold received. rewrite flat_map_app, rev_app_distr. reflexivity. Qed.

Lemma appended_app (l2 l1 : list Event) : appended (l2 ++ l1) = appended l1 ++ appended l2.
Proof. unfold appended. rewrite flat_map_app, rev_app_distr. reflexivity. Qed.

Section WithWorld.
Variables W Json : Type.
Variable env : Env W Json.

Local Abbreviation M := (C Locals W Event).
Local Abbreviation St := (Eff.St Locals W Event).

Lemma andThen_done {A B} (m : M A) (k : A -> M B) (s s1 : St) (a : A) :
  m s = (Done a, s1) -> andThen m k s = k a s1.
Proof. intros H. unfold andThen. rewrite H. reflexivity. Qed.

Lemma andThen_failed {A B} (m : M A) (k : A -> M B) (s s1 : St) (t : thrown) :
  m s = (Failed t, s1) -> andThen m k s = (Failed t, s1).
Proof. intros H. unfold andThen. rewrite H. reflexivity. Qed.

Lemma andThen_unfinished {A B} (m : M A) (k : A -> M B) (s s1 : St) :
  m s = (Unfinished, s1) -> andThen m k s = (Unfinished, s1).
Proof. intros H. unfold andThen. rewrite H. reflexivity. Qed.

(** *** Operations that finish *)

Lemma calm_done {A} (a : A) : calm env (done a : M A).
Proof.
  intros s. exists (Done a), s, []. repeat split; auto. discriminate.
Qed.

Lemma calm_fail {A} (t : thrown) : calm env (fail t : M A).
Proof.
  intros s. exists (Failed t), s, []. repeat split; auto. discriminate.
Qed.

Lemma calm_read {A} (f : W -> A * W) : calm env (read f : M A).
Proof.
  intros s. unfold read. destruct (f (world s)) as [a w].
  eexists _, _, []. repeat split; auto. discriminate.
Qed.

Lemma calm_getLocals : calm env (getLocals : M Locals).
Proof.
  intros s. exists (Done (prog s)), s, []. repeat split; auto. discriminate.
Qed.

Lemma calm_setLocals (g : Locals) : calm env (setLocals g : M unit).
Proof.
  intros s. eexists _, _, []. unfold setLocals. repeat split; auto. discriminate.
Qed.

Lemma calm_call {A} (e : Event) (f : W -> answer A * W) :
  proper env e -> isRequest e = false -> calm env (call e f : M A).
Proof.
  intros Hp Hq s. unfold call. destruct (f (world s)) as [[a|t] w];
    eexists _, _, [e]; cbn [trace app filter]; rewrite Hq;
    (repeat split; [constructor; [exact Hp | constructor] | discriminate]).
Qed.

Lemma calm_andThen {A B} (m : M A) (k : A -> M B) :
  calm env m -> (forall a, calm env (k a)) -> calm env (andThen m k).
Proof.
  intros Hm Hk s. destruct (Hm s) as (r & s1 & l1 & E1 & T1 & P1 & Q1 & U1).
  destruct r as [a|t|].
  - destruct (Hk a s1) as (r2 & s2 & l2 & E2 & T2 & P2 & Q2 & U2).
    exists r2, s2, (l2 ++ l1). unfold andThen at 1; rewrite E1, E2, T2, T1, app_assoc.
    repeat split; auto.
    + apply Forall_app; auto.
    + rewrite filter_app, Q1, Q2. reflexivity.
  - exists (Failed t), s1, l1. unfold andThen at 1; rewrite E1.
    repeat split; auto. discriminate.
  - congruence.
Qed.

Lemma calm_tryCatch {A} (m : M A) (h : thrown -> M A) :
  calm env m -> (forall t, calm env (h t)) -> calm env (tryCatch m h).
Proof.
  intros Hm Hh s. destruct (Hm s) as (r & s1 & l1 & E1 & T1 & P1 & Q1 & U1).
  unfold tryCatch. rewrite E1. destruct r as [a|t|].
  - exists (Done a), s1, l1. repeat split; auto.
  - destruct (Hh t s1) as (r2 & s2 & l2 & E2 & T2 & P2 & Q2 & U2).
    exists r2, s2, (l2 ++ l1). rewrite E2, T2, T1, app_assoc.
    repeat split; auto.
    + apply Forall_app; auto.
    + rewrite filter_app, Q1, Q2. reflexivity.
  - congruence.
Qed.

Lemma logToScreenshotCollector_calm (message : jsstring) :
  calm env (logToScreenshotCollector env message).
Proof.
  unfold logToScreenshotCollector.
  apply calm_andThen; [apply calm_read|]. intros timestamp.
  apply calm_andThen; [apply calm_call; reflexivity|]. intros _.
  apply calm_call; [|reflexivity].
  split; [reflexivity|]. exists message, timestamp. reflexivity.
Qed.

Lemma log_calm (level message : jsstring) (data : Payload) :
  calm env (log_ env level message data).
Proof. apply calm_call; [exact I | reflexivity]. Qed.

Lemma leaveLoop_calm {A} (t : thrown) : calm env (leaveLoop env t : M A).
Proof.
  intros s. eexists _, _, [ECloseStream]. unfold leaveLoop.
  repeat split; [repeat constructor | discriminate].
Qed.

Lemma readDescription_calm : calm env (readDescription env).
Proof.
  unfold readDescription. apply calm_tryCatch.
  - apply calm_andThen; [apply calm_call; reflexivity|]. intros d.
    apply calm_andThen; [apply calm_setLocals|]. intros _.
    destruct d as [d|]; [destruct (truthy d)|]; apply logToScreenshotCollector_calm.
  - intros t. apply calm_andThen; [apply logToScreenshotCollector_calm|].
    intros _. apply log_calm.
Qed.

Lemma collectionFailed_calm (error : thrown) : calm env (collectionFailed env error).
Proof.
  unfold collectionFailed.
  apply calm_andThen.
  - apply calm_tryCatch; [apply logToScreenshotCollector_calm|]. intros t. apply log_calm.
  - intros _. apply calm_andThen; [apply log_calm|]. intros _. apply calm_fail.
Qed.

(** *** Operations that may ask Codex *)

Lemma calm_tame {A} (m : M A) (n fuel : nat) : calm env m -> tame env n fuel m.
Proof.
  intros Hm s. destruct (Hm s) as (r & s1 & l1 & E1 & T1 & P1 & Q1 & U1).
  exists r, s1, l1. repeat split; auto.
  - rewrite Q1. simpl. lia.
  - intros; contradiction.
Qed.

Lemma tame_weaken {A} (m : M A) (n n' fuel : nat) :
  (n <= n')%nat -> tame env n fuel m -> tame env n' fuel m.
Proof.
  intros Hn Hm s. destruct (Hm s) as (r & s1 & l1 & E1 & T1 & P1 & Q1 & U1).
  exists r, s1, l1. repeat split; auto. lia.
Qed.

Lemma tame_andThen {A B} (m : M A) (k : A -> M B) (n1 n2 fuel : nat) :
  tame env n1 fuel m -> (forall a, tame env n2 fuel (k a)) ->
  tame env (n1 + n2) fuel (andThen m k).
Proof.
  intros Hm Hk s. destruct (Hm s) as (r & s1 & l1 & E1 & T1 & P1 & Q1 & U1).
  destruct r as [a|t|].
  - destruct (Hk a s1) as (r2 & s2 & l2 & E2 & T2 & P2 & Q2 & U2).
    exists r2, s2, (l2 ++ l1). unfold andThen at 1; rewrite E1, E2, T2, T1, app_assoc.
    repeat split; auto.
    + apply Forall_app; auto.
    + rewrite filter_app, length_app. lia.
    + intros H. specialize (U2 H). rewrite received_app, length_app. lia.
  - exists (Failed t), s1, l1. unfold andThen at 1; rewrite E1.
    repeat split; auto; [lia | discriminate].
  - exists Unfinished, s1, l1. unfold andThen at 1; rewrite E1.
    repeat split; auto. lia.
Qed.

(** After an operation that finishes, with what is known of its answer. *)
Lemma tame_after_call {A B} (e : Event) (f : W -> answer A * W) (k : A -> M B)
    (n fuel : nat) :
  proper env e -> isRequest e = false ->
  (forall a, (exists w, fst (f w) = Gives a) -> tame env n fuel (k a)) ->
  tame env n fuel (andThen (call e f) k).
Proof.
  intros Hp Hq Hk s. unfold andThen, call.
  destruct (f (world s)) as [[a|t] w] eqn:E.
  - match goal with |- context [k a ?st] => set (s1 := st) end.
    destruct (Hk a (ex_intro _ (world s) (f_equal fst E)) s1)
      as (r2 & s2 & l2 & E2 & T2 & P2 & Q2 & U2).
    exists r2, s2, (l2 ++ [e]). rewrite E2, T2. unfold s1. cbn [trace].
    rewrite <- app_assoc. repeat split; auto.
    + apply Forall_app. split; [exact P2 | constructor; [exact Hp | constructor]].
    + rewrite filter_app, length_app. cbn [filter]. rewrite Hq. simpl. lia.
    + intros H. specialize (U2 H). rewrite received_app, length_app. lia.
  - eexists _, _, [e]. cbn [trace app filter]. rewrite Hq.
    repeat split; [constructor; [exact Hp | constructor] | simpl; lia | discriminate].
Qed.

Lemma tame_after_read {A B} (f : W -> A) (k : A -> M B) (n fuel : nat) :
  (forall a, (exists w, f w = a) -> tame env n fuel (k a)) ->
  tame env n fuel (andThen (read (fun w => (f w, w))) k).
Proof.
  intros Hk s. unfold andThen, read.
  match goal with |- context [k _ ?st] => set (s1 := st) end.
  destruct (Hk (f (world s)) (ex_intro _ (world s) eq_refl) s1)
    as (r2 & s2 & l2 & E2 & T2 & P2 & Q2 & U2).
  exists r2, s2, l2. rewrite E2, T2. repeat split; auto.
Qed.

Lemma tame_tryCatch {A} (m : M A) (h : thrown -> M A) (n fuel : nat) :
  tame env n fuel m -> (forall t, calm env (h t)) -> tame env n fuel (tryCatch m h).
Proof.
  intros Hm Hh s. destruct (Hm s) as (r & s1 & l1 & E1 & T1 & P1 & Q1 & U1).
  unfold tryCatch. rewrite E1. destruct r as [a|t|].
  - exists (Done a), s1, l1. repeat split; auto.
  - destruct (Hh t s1) as (r2 & s2 & l2 & E2 & T2 & P2 & Q2 & U2).
    exists r2, s2, (l2 ++ l1). rewrite E2, T2, T1, app_assoc.
    repeat split; auto.
    + apply Forall_app; auto.
    + rewrite filter_app, length_app, Q2. simpl. lia.
    + intros; contradiction.
  - exists Unfinished, s1, l1. repeat split; auto.
Qed.

Lemma consumeEvents_tame (logEvent : jsstring -> M unit) (fuel : nat) (agentMessage : jsstring) :
  (forall message, calm env (logEvent message)) ->
  tame env 0 fuel (consumeEvents env logEvent fuel agentMessage).
Proof.
  intros Hlog. revert agentMessage. induction fuel as [|fuel IH]; intros agentMessage s.
  - exists Unfinished, s, []. cbn. repeat split; auto.
  - cbn [consumeEvents]. unfold andThen at 1. unfold nextOf.
    destruct (nextEvent env (world s)) as [[[event|]|t] w].
    + match goal with |- context [andThen _ _ ?st] => set (s1 := st) end.
      assert (Hc : calm env (tryCatch (logEvent (describeThreadEvent event))
                               (leaveLoop env (A := unit)))).
      { apply calm_tryCatch; [apply Hlog | intros t; apply leaveLoop_calm]. }
      destruct (Hc s1) as (r & s2 & l1 & E1 & T1 & P1 & Q1 & U1).
      destruct r as [[]|t|]; [| |congruence].
      * unfold andThen at 1; rewrite E1.
        match goal with |- context [consumeEvents _ _ _ ?m] => set (msg := m) end.
        destruct (IH msg s2) as (r2 & s3 & l2 & E2 & T2 & P2 & Q2 & U2).
        exists r2, s3, (l2 ++ l1 ++ [ECodexEvent event]).
        rewrite E2, T2, T1. unfold s1. cbn [trace]. rewrite <- !app_assoc.
        repeat split; auto.
        -- apply Forall_app. split; [exact P2|]. apply Forall_app.
           split; [exact P1 | constructor; [exact I | constructor]].
        -- rewrite !filter_app, !length_app, Q1. simpl. lia.
        -- intros H. specialize (U2 H).
           rewrite !received_app, !length_app. cbn. lia.
      * unfold andThen at 1; rewrite E1.
        exists (Failed t), s2, (l1 ++ [ECodexEvent event]).
        rewrite T1. unfold s1. cbn [trace]. rewrite <- app_assoc.
        repeat split; auto.
        -- apply Forall_app. split; [exact P1 | constructor; [exact I | constructor]].
        -- rewrite filter_app, length_app, Q1. simpl. lia.
        -- discriminate.
    + eexists _, _, []. repeat split; auto. discriminate.
    + eexists _, _, []. repeat split; auto. discriminate.
Qed.

Lemma runScreenshotAnalysis_tame (fuel : nat) (apiKey dir prompt : jsstring) :
  proper env (ERunStreamed apiKey dir CODEX_MODEL prompt) ->
  tame env 1 fuel
    (runScreenshotAnalysis env fuel apiKey dir prompt (logToScreenshotCollector env)).
Proof.
  intros Hp. unfold runScreenshotAnalysis.
  apply tame_andThen with (n1 := 0%nat) (n2 := 1%nat);
    [apply calm_tame, logToScreenshotCollector_calm|]. intros _.
  apply tame_andThen with (n1 := 1%nat) (n2 := 0%nat).
  { intros s. unfold call.
    destruct (runStreamed env apiKey dir CODEX_MODEL prompt (world s)) as [[a|t] w];
      eexists _, _, [_]; cbn [trace app];
      (repeat split; [constructor; [exact Hp | constructor] | simpl; lia | discriminate]). }
  intros _.
  apply tame_andThen with (n1 := 0%nat) (n2 := 0%nat);
    [apply consumeEvents_tame, logToScreenshotCollector_calm|]. intros agentMessage.
  apply calm_tame. cbv zeta.
  destruct (List.length (trim agentMessage) =? 0)%nat.
  - apply calm_andThen; [apply logToScreenshotCollector_calm | intros _; apply calm_fail].
  - destruct (JSON_parse env (trim agentMessage)) as [j|t].
    + destruct (safeParse env j) as [data|message].
      * apply calm_done.
      * apply calm_andThen; [apply logToScreenshotCollector_calm | intros _; apply calm_fail].
    + apply calm_andThen; [apply logToScreenshotCollector_calm | intros _; apply calm_fail].
Qed.
Ltac calm_step :=
  first [ apply logToScreenshotCollector_calm | apply log_calm
        | apply calm_setLocals | apply calm_getLocals | apply readDescription_calm
        | apply calm_done | apply calm_fail | apply calm_read ].

Ltac calm_then :=
  apply tame_andThen with (n1 := 0%nat) (n2 := 1%nat);
  [apply calm_tame; calm_step | intros ? ].

Ltac calm_end :=
  apply calm_tame; apply calm_andThen; [calm_step | intros ?; calm_step].

Lemma collect_tame (fuel : nat) : tame env 1 fuel (collect env fuel).
Proof.
  unfold collect.
  do 3 calm_then.
  apply tame_after_call; [reflexivity | reflexivity |].
  intros [baseBranch mergeBase] _.
  calm_then.
  apply tame_after_call;
    [split; [reflexivity | split; [reflexivity | eexists; reflexivity]] | reflexivity |].
  intros changedFilesOutput _.
  apply tame_after_call; [exact I | reflexivity |].
  intros changedFiles _.
  destruct (List.length changedFiles =? 0)%nat eqn:Ec; [calm_end|].
  assert (Hc : changedFiles <> []) by (intros ->; discriminate Ec).
  apply tame_after_call; [split; [reflexivity | exact Hc] | reflexivity |].
  intros textFiles Htext.
  calm_then.
  destruct (List.length textFiles =? 0)%nat eqn:Et; [calm_end|].
  assert (Ht : textFiles <> []) by (intros ->; discriminate Et).
  cbv zeta.
  do 6 calm_then.
  apply tame_after_read. intros openAiApiKey Hkey.
  destruct openAiApiKey as [apiKey|]; [|calm_end].
  destruct (truthy apiKey) eqn:Ek; [|calm_end].
  cbv zeta. calm_then.
  apply tame_andThen with (n1 := 1%nat) (n2 := 0%nat).
  - apply runScreenshotAnalysis_tame.
    split; [exact Ek|]. split; [exact Hkey|]. split; [reflexivity|].
    split; [reflexivity|].
    destruct Htext as [w Hw].
    eexists baseBranch, mergeBase, changedFiles, textFiles, _, w.
    split; [exact Hw|]. split; [exact Ht|]. split; [reflexivity|].
    intros file Hin. apply PromptFacts.prompt_names_files. exact Hin.
  - intros analysis. calm_end.
Qed.

(** X24: whatever the world does, the collector keeps to its task.  It
    writes to no file but its log, one time-stamped line at a time; it
    works in the workspace; the only command it runs is
    [git diff --name-only] from the merge base; it asks which files are
    text only when some file changed.  It asks Codex at most once, and only
    with a non-empty API key, about a non-empty list of changed text
    files, in a prompt that names each of them.  The run can only stay
    unfinished while the turn keeps delivering events. *)
Theorem collector_keeps_to_its_task (fuel : nat) (s : St) :
  exists r s' l,
    startScreenshotCollection env fuel s = (r, s')
    /\ trace s' = l ++ trace s
    /\ Forall (proper env) l
    /\ (List.length (filter isRequest l) <= 1)%nat
    /\ (r = Unfinished -> (fuel <= List.length (received l))%nat).
Proof.
  assert (H : tame env 1 fuel (startScreenshotCollection env fuel)).
  { unfold startScreenshotCollection.
    apply tame_tryCatch; [apply collect_tame | intros t; apply collectionFailed_calm]. }
  exact (H s).
Qed.
(** *** How a run ends *)

Lemma endsWith_andThen {A B} (Q : Event -> Prop) (m : M A) (k : A -> M B) :
  (forall a, endsWith Q (k a)) -> endsWith Q (andThen m k).
Proof.
  intros Hk s b s'. unfold andThen. destruct (m s) as [[a|t|] s1]; try discriminate.
  apply Hk.
Qed.

Lemma endsWith_log (Q : Event -> Prop) (level message : jsstring) (data : Payload) :
  Q (ELog level message data) -> endsWith Q (log_ env level message data).
Proof.
  intros HQ s a s'. unfold log_, call.
  destruct (log env level message data (world s)) as [[[]|t] w]; intros H; inversion H.
  eexists _, _. split; [reflexivity | exact HQ].
Qed.

Lemma endsWith_fail {A} (Q : Event -> Prop) (t : thrown) : endsWith Q (fail t : M A).
Proof. intros s a s'. discriminate. Qed.

Ltac outcome_end :=
  apply endsWith_andThen; intros ?; apply endsWith_log; cbn; tauto.

Lemma collect_ends (fuel : nat) : endsWith isOutcome (collect env fuel).
Proof.
  unfold collect.
  do 3 (apply endsWith_andThen; intros ?).
  apply endsWith_andThen. intros [baseBranch mergeBase].
  do 3 (apply endsWith_andThen; intros ?).
  destruct (List.length _ =? 0)%nat; [outcome_end|].
  do 2 (apply endsWith_andThen; intros ?).
  destruct (List.length _ =? 0)%nat; [outcome_end|].
  cbv zeta.
  do 7 (apply endsWith_andThen; intros ?).
  match goal with |- endsWith _ (match ?k with _ => _ end) => destruct k as [apiKey|] end;
    [|outcome_end].
  destruct (truthy apiKey); [|outcome_end].
  cbv zeta. do 2 (apply endsWith_andThen; intros ?). outcome_end.
Qed.

Lemma collectionFailed_ends (t0 : thrown) (s s' : St) (r : result unit) :
  collectionFailed env t0 s = (r, s') ->
  exists t l,
    r = Failed t
    /\ ((trace s' = failureEntry t0 :: l /\ (t = t0 \/ logThrew env t))
        \/ (exists data,
               trace s' = ELog ERROR (lit "Failed to write screenshot collector error log")
                            data :: l
               /\ logThrew env t)).
Proof.
  unfold collectionFailed. cbv zeta. unfold andThen at 1.
  destruct (tryCatch _ _ s) as [[[]|t1|] s1] eqn:E1.
  - unfold andThen, log_, call, fail.
    match goal with |- context [log env ?lv ?m ?d (world s1)] =>
      destruct (log env lv m d (world s1)) as [[[]|t2] w2] eqn:E2 end;
      intros H; inversion H; subst.
    + eexists _, _. split; [reflexivity|]. left. split; [reflexivity | left; reflexivity].
    + eexists _, _. split; [reflexivity|]. left. split; [reflexivity|].
      right. eexists _, _, _, _. rewrite E2. reflexivity.
  - intros H; inversion H; subst.
    revert E1. unfold tryCatch.
    destruct (logToScreenshotCollector env _ s) as [[[]|t2|] s2]; try discriminate.
    unfold log_, call.
    match goal with |- context [log env ?lv ?m ?d (world s2)] =>
      destruct (log env lv m d (world s2)) as [[[]|t3] w3] eqn:E3 end;
      intros H'; inversion H'; subst.
    eexists _, _. split; [reflexivity|]. right. eexists. split; [reflexivity|].
    eexists _, _, _, _. rewrite E3. reflexivity.
  - exfalso. revert E1. unfold tryCatch.
    pose proof (logToScreenshotCollector_calm
                  (lit "start-screenshot-collection failed: "
                   ++ messageOr (lit "unknown error") t0) s)
      as (r2 & s2 & l2 & E2 & _ & _ & _ & U2).
    rewrite E2. destruct r2 as [[]|t2|]; try discriminate; [|congruence].
    unfold log_, call.
    match goal with |- context [log env ?lv ?m ?d (world s2)] =>
      destruct (log env lv m d (world s2)) as [[[]|t3] w3] end; discriminate.
Qed.

(** X25: the last thing a run does tells how it ended.  When the
    collector returns, its last action is the [log] entry of one of four
    outcomes: no file changed, all changed files are binary, no API key,
    or the analysis completed.  When it throws, its last action is an
    ERROR entry: the one that records the failure with its reason, and then
    it throws the error that made the run fail (unless [log] itself threw);
    or, when [log] threw while recording that the log file could not be
    written, that entry. *)
Theorem run_ends_with_its_outcome (fuel : nat) (s s' : St) (r : result unit) :
  startScreenshotCollection env fuel s = (r, s') ->
  match r with
  | Done _ => exists e l, trace s' = e :: l /\ isOutcome e
  | Failed t =>
      exists l,
        (exists t0, trace s' = failureEntry t0 :: l /\ (t = t0 \/ logThrew env t))
        \/ (exists data,
               trace s' = ELog ERROR (lit "Failed to write screenshot collector error log")
                            data :: l
               /\ logThrew env t)
  | Unfinished => True
  end.
Proof.
  unfold startScreenshotCollection, tryCatch.
  destruct (collect env fuel s) as [[[]|t0|] s1] eqn:E.
  - intros H; inversion H; subst. exact (@collect_ends fuel _ _ _ E).
  - intros H. destruct (@collectionFailed_ends t0 _ _ _ H) as (t & l & -> & [[T D]|(data & T & D)]).
    + exists l. left. exists t0. split; assumption.
    + exists l. right. exists data. split; assumption.
  - intros H; inversion H; subst. exact I.
Qed.

(** *** The pull request description *)

Lemma logToScreenshotCollector_works (message : jsstring) (s : St) :
  logWorks env ->
  exists s',
    logToScreenshotCollector env message s = (Done tt, s')
    /\ prog s' = prog s
    /\ exists content,
         trace s' = EAppendFile SCREENSHOT_COLLECTOR_LOG_PATH content
                    :: EMkdir SCREENSHOT_COLLECTOR_LOG_DIRECTORY :: trace s
         /\ isEntry message content.
Proof.
  intros (Hm & Ha & _). unfold logToScreenshotCollector, andThen, read, call.
  destruct (isoNow env (world s)) as [timestamp w1]. cbn [world prog trace].
  pose proof (Hm SCREENSHOT_COLLECTOR_LOG_DIRECTORY w1) as H1.
  destruct (mkdir env _ w1) as [r1 w2]. cbn [fst] in H1. subst r1. cbn [world prog trace].
  match goal with |- context [appendFile env ?p ?c w2] =>
    pose proof (Ha p c w2) as H2; destruct (appendFile env p c w2) as [r2 w3] end.
  cbn [fst] in H2. subst r2.
  eexists. split; [reflexivity|]. split; [reflexivity|].
  eexists. split; [reflexivity|]. exists timestamp. reflexivity.
Qed.

(** X26: trouble with the pull request description does not stop the
    collection.  As long as the log can be written to, the [try] block
    that reads the description returns, whatever [readPrDescription]
    does.  When it returned a description, that is the value of
    [prDescription] afterwards; when it threw, the variable is left as it
    was, and the last action is the ERROR entry that records the message
    of what was thrown. *)
Theorem description_trouble_is_not_fatal (s : St) :
  logWorks env ->
  exists s' l,
    readDescription env s = (Done tt, s')
    /\ trace s' = l ++ trace s
    /\ match fst (readPrDescription env WORKSPACE_DIR (world s)) with
       | Gives description => prog s' = description
       | Throws t => prog s' = prog s /\ exists l', l = descriptionEntry t :: l'
       end.
Proof.
  intros Hw. unfold readDescription, tryCatch. unfold andThen at 1. unfold call at 1.
  cbv beta.
  destruct (readPrDescription env WORKSPACE_DIR (world s)) as [[description|t] w1].
  - cbn [fst]. cbv beta iota. unfold andThen at 1. unfold setLocals at 1.
    cbv beta iota. cbn [world prog trace].
    destruct description as [d|]; [destruct (truthy d)|];
      (cbv beta iota;
       match goal with |- context [logToScreenshotCollector env ?message ?st] =>
         destruct (logToScreenshotCollector_works message st Hw)
           as (s' & E & G & content & T & _)
       end;
       rewrite E; exists s'; eexists; split; [reflexivity|]; split; [|exact G];
       rewrite T; cbn [trace];
       change (?a :: ?b :: ?c :: trace s) with ([a; b; c] ++ trace s); reflexivity).
  - cbn [fst]. cbv beta iota. unfold andThen at 1.
    match goal with |- context [logToScreenshotCollector env ?message ?st] =>
      destruct (logToScreenshotCollector_works message st Hw)
        as (s1 & E & G & content & T & _)
    end.
    rewrite E. unfold log_, call. destruct Hw as (_ & _ & Hl).
    match goal with |- context [log env ?lv ?m ?d (world s1)] =>
      pose proof (Hl lv m d (world s1)) as H; destruct (log env lv m d (world s1)) as [r w2]
    end.
    cbn [fst] in H. subst r. eexists _, _. split; [reflexivity|]. cbn [prog trace].
    rewrite T. cbn [trace]. split; [|split; [exact G | eexists; reflexivity]].
    change (?a :: ?b :: ?c :: ?d :: trace s) with ([a; b; c; d] ++ trace s). reflexivity.
Qed.
(** *** The request to Codex *)

Lemma logToScreenshotCollector_outcome (message : jsstring) (s : St) :
  exists r s' l,
    logToScreenshotCollector env message s = (r, s')
    /\ trace s' = l ++ trace s
    /\ received l = []
    /\ match r with
       | Done _ => exists content, appended l = [content] /\ isEntry message content
       | Failed t => worldThrew env t
       | Unfinished => False
       end.
Proof.
  unfold logToScreenshotCollector, andThen, read, call.
  destruct (isoNow env (world s)) as [timestamp w1]. cbn [world prog trace].
  destruct (mkdir env SCREENSHOT_COLLECTOR_LOG_DIRECTORY w1) as [[[]|t] w2] eqn:E1.
  - cbn [world prog trace].
    match goal with |- context [appendFile env ?p ?c w2] =>
      destruct (appendFile env p c w2) as [[[]|t] w3] eqn:E2 end.
    + eexists _, _, [_; _]. split; [reflexivity|]. split; [reflexivity|].
      split; [reflexivity|]. eexists. split; [reflexivity|]. exists timestamp. reflexivity.
    + eexists _, _, [_; _]. split; [reflexivity|]. split; [reflexivity|].
      split; [reflexivity|]. exists w2. right. left. eexists _, _. rewrite E2. reflexivity.
  - eexists _, _, [_]. split; [reflexivity|]. split; [reflexivity|].
    split; [reflexivity|]. exists w1. left. eexists. rewrite E1. reflexivity.
Qed.

Lemma consumeEvents_outcome (fuel : nat) (agentMessage : jsstring) (s : St) :
  exists r s' l,
    consumeEvents env (logToScreenshotCollector env) fuel agentMessage s = (r, s')
    /\ trace s' = l ++ trace s
    /\ match r with
       | Done final =>
           final = fold_left assigned (received l) agentMessage
           /\ Forall2 isEntry (List.map describeThreadEvent (received l)) (appended l)
       | Failed t => worldThrew env t
       | Unfinished => List.length (received l) = fuel
       end.
Proof.
  revert agentMessage s. induction fuel as [|fuel IH]; intros agentMessage s.
  - exists Unfinished, s, []. repeat split.
  - cbn [consumeEvents]. unfold andThen at 1. unfold nextOf.
    destruct (nextEvent env (world s)) as [[[event|]|t] w] eqn:En.
    + match goal with |- context [andThen _ _ ?st] => set (s1 := st) end.
      unfold andThen at 1. unfold tryCatch.
      destruct (logToScreenshotCollector_outcome (describeThreadEvent event) s1)
        as (r1 & s2 & l1 & E1 & T1 & R1 & O1).
      rewrite E1. destruct r1 as [[]|t|]; [| |contradiction].
      * destruct O1 as (content & A1 & I1).
        fold (assigned agentMessage event).
        destruct (IH (assigned agentMessage event) s2) as (r2 & s3 & l2 & E2 & T2 & O2).
        exists r2, s3, (l2 ++ l1 ++ [ECodexEvent event]).
        rewrite E2. split; [reflexivity|].
        split; [rewrite T2, T1; unfold s1; cbn [trace]; rewrite <- !app_assoc; reflexivity|].
        rewrite !received_app, !appended_app, R1, A1. cbn [received appended flat_map rev app].
        destruct r2 as [final|t|].
        -- destruct O2 as [-> F]. split; [reflexivity|].
           cbn [List.map]. constructor; assumption.
        -- exact O2.
        -- cbn [List.length]. rewrite O2. reflexivity.
      * unfold leaveLoop. eexists _, _, (ECloseStream :: l1 ++ [ECodexEvent event]).
        split; [reflexivity|]. cbn [trace]. rewrite T1. unfold s1. cbn [trace].
        split; [cbn [app]; rewrite <- app_assoc; reflexivity | exact O1].
    + eexists _, _, []. split; [reflexivity|]. split; [reflexivity|].
      split; [reflexivity | constructor].
    + eexists _, _, []. split; [reflexivity|]. split; [reflexivity|].
      exists (world s). right. right. right. rewrite En. reflexivity.
Qed.

(** X27: what [runScreenshotAnalysis] returns is decided by the last agent
    message the turn completed.  It logs the request, then every event it
    receives, in order; when it returns an analysis, that is what parsing
    and checking the trimmed text of that last message gives.  Without
    such a message, or when its text is blank, cannot be parsed or does not
    match the schema, it logs an error and throws an [Error] with the
    message it logged.  Anything else it throws was thrown by the file
    system or by the Codex SDK.  It stays unfinished only while the turn
    keeps delivering events. *)
Theorem analysis_follows_last_agent_message
    (fuel : nat) (apiKey dir prompt : jsstring) (s : St) :
  exists r s' l,
    runScreenshotAnalysis env fuel apiKey dir prompt (logToScreenshotCollector env) s
    = (r, s')
    /\ trace s' = l ++ trace s
    /\ match r with
       | Done analysis =>
           verdict env (lastAgentMessage (received l)) = inl analysis
           /\ Forall2 isEntry
                (lit "Requesting Codex screenshot summary..."
                 :: List.map describeThreadEvent (received l))
                (appended l)
       | Failed t =>
           worldThrew env t
           \/ exists message,
                verdict env (lastAgentMessage (received l)) = inr message
                /\ t = Thrown (ErrorObj message)
                /\ Forall2 isEntry
                     (lit "Requesting Codex screenshot summary..."
                      :: List.map describeThreadEvent (received l) ++ [message])
                     (appended l)
       | Unfinished => List.length (received l) = fuel
       end.
Proof.
  unfold runScreenshotAnalysis. unfold andThen at 1.
  destruct (logToScreenshotCollector_outcome (lit "Requesting Codex screenshot summary...") s)
    as (r0 & s0 & l0 & E0 & T0 & R0 & O0).
  rewrite E0. destruct r0 as [[]|t|]; [| |contradiction].
  2:{ exists (Failed t), s0, l0. split; [reflexivity|]. split; [exact T0 | left; exact O0]. }
  destruct O0 as (c0 & A0 & I0).
  unfold andThen at 1. unfold call.
  destruct (runStreamed env apiKey dir CODEX_MODEL prompt (world s0)) as [[[]|t] w1] eqn:Er.
  2:{ eexists _, _, (_ :: l0). split; [reflexivity|]. cbn [trace]. rewrite T0.
      split; [reflexivity|]. left. exists (world s0). right. right. left.
      eexists _, _, _, _. rewrite Er. reflexivity. }
  match goal with |- context [andThen _ _ ?st] => set (s1 := st) end.
  unfold andThen at 1.
  destruct (consumeEvents_outcome fuel [] s1) as (r2 & s2 & l2 & E2 & T2 & O2).
  rewrite E2.
  assert (T : trace s2 = (l2 ++ ERunStreamed apiKey dir CODEX_MODEL prompt :: l0) ++ trace s).
  { rewrite T2. unfold s1. cbn [trace]. rewrite T0, <- app_assoc. reflexivity. }
  assert (R : received (l2 ++ ERunStreamed apiKey dir CODEX_MODEL prompt :: l0) = received l2).
  { change (?e :: l0) with ([e] ++ l0). rewrite !received_app, R0. reflexivity. }
  assert (A : appended (l2 ++ ERunStreamed apiKey dir CODEX_MODEL prompt :: l0)
              = c0 :: appended l2).
  { change (?e :: l0) with ([e] ++ l0). rewrite !appended_app, A0. reflexivity. }
  destruct r2 as [final|t|].
  2:{ eexists _, _, _. split; [reflexivity|]. split; [exact T | left; exact O2]. }
  2:{ eexists _, _, _. split; [reflexivity|]. split; [exact T|]. rewrite R. exact O2. }
  destruct O2 as [Hf F2]. fold (lastAgentMessage (received l2)) in Hf. cbv zeta.
  assert (Hfail : forall message,
             verdict env final = inr message ->
             exists r s' l,
               (logToScreenshotCollector env message;;
                fail (Thrown (ErrorObj message)) : M ScreenshotAnalysis) s2 = (r, s')
               /\ trace s' = l ++ trace s
               /\ match r with
                  | Done _ => False
                  | Failed t =>
                      worldThrew env t
                      \/ exists message,
                           verdict env (lastAgentMessage (received l)) = inr message
                           /\ t = Thrown (ErrorObj message)
                           /\ Forall2 isEntry
                                (lit "Requesting Codex screenshot summary..."
                                 :: List.map describeThreadEvent (received l) ++ [message])
                                (appended l)
                  | Unfinished => False
                  end).
  { intros message Hv. unfold andThen.
    destruct (logToScreenshotCollector_outcome message s2)
      as (r3 & s3 & l3 & E3 & T3 & R3 & O3).
    rewrite E3. destruct r3 as [[]|t|]; [| |contradiction].
    - destruct O3 as (c3 & A3 & I3). unfold fail.
      eexists _, _, (l3 ++ l2 ++ ERunStreamed apiKey dir CODEX_MODEL prompt :: l0).
      split; [reflexivity|]. split; [rewrite T3, T; apply app_assoc|].
      right. exists message. rewrite received_app, appended_app, R, A, R3, A3, app_nil_r.
      rewrite <- Hf. split; [exact Hv|]. split; [reflexivity|].
      constructor; [exact I0|]. apply Forall2_app; [exact F2|].
      constructor; [exact I3 | constructor].
    - eexists _, _, (l3 ++ l2 ++ ERunStreamed apiKey dir CODEX_MODEL prompt :: l0).
      split; [reflexivity|]. split; [rewrite T3, T; apply app_assoc|].
      left. exact O3. }
  assert (Hcast : forall message,
             verdict env final = inr message ->
             exists r s' l,
               (logToScreenshotCollector env message;;
                fail (Thrown (ErrorObj message)) : M ScreenshotAnalysis) s2 = (r, s')
               /\ trace s' = l ++ trace s
               /\ match r with
                  | Done analysis =>
                      verdict env (lastAgentMessage (received l)) = inl analysis
                      /\ Forall2 isEntry
                           (lit "Requesting Codex screenshot summary..."
                            :: List.map describeThreadEvent (received l))
                           (appended l)
                  | Failed t =>
                      worldThrew env t
                      \/ exists message,
                           verdict env (lastAgentMessage (received l)) = inr message
                           /\ t = Thrown (ErrorObj message)
                           /\ Forall2 isEntry
                                (lit "Requesting Codex screenshot summary..."
                                 :: List.map describeThreadEvent (received l) ++ [message])
                                (appended l)
                  | Unfinished => List.length (received l) = fuel
                  end).
  { intros message Hv. destruct (Hfail message Hv) as (r & s' & l & E & Tl & O).
    exists r, s', l. split; [exact E|]. split; [exact Tl|].
    destruct r; [contradiction | exact O | contradiction]. }
  clear Hfail. unfold verdict in Hcast. cbv zeta in Hcast.
  destruct (List.length (trim final) =? 0)%nat eqn:El.
  - apply Hcast. reflexivity.
  - destruct (JSON_parse env (trim final)) as [j|t] eqn:Ep.
    + destruct (safeParse env j) as [data|message] eqn:Es.
      * eexists _, _, _. split; [reflexivity|]. split; [exact T|].
        rewrite R, A, <- Hf. unfold verdict. cbv zeta. rewrite El, Ep, Es.
        split; [reflexivity|]. constructor; assumption.
      * apply Hcast. reflexivity.
    + apply Hcast. reflexivity.
Qed.
End WithWorld.

Import CollectorSim.

Example ui_run :
  fst uiRun = Done tt
  /\ received (trace (snd uiRun)) = turn uiChange
  /\ List.length (filter isRequest (trace (snd uiRun))) = 1%nat
  /\ List.length (logFile (world (snd uiRun))) = 16%nat
  /\ hd_error (trace (snd uiRun))
     = Some (ELog INFO (lit "Codex screenshot analysis completed")
               [(lit "response",
                 DAnalysis {| hasUiChanges := true;
                              uiChangesToScreenshotInstructions :=
                                lit "Capture the settings page" |});
                (lit "baseBranch", DString (lit "main"));
                (lit "mergeBase", DString (lit "4f2a9c1"))]).
Proof. vm_compute. repeat split. Qed.

Example silent_run :
  fst silentRun = Failed (Thrown (ErrorObj noResponse))
  /\ hd_error (trace (snd silentRun))
     = Some (failureEntry (Thrown (ErrorObj noResponse)))
  /\ In (descriptionEntry ThrownNull) (trace (snd silentRun)).
Proof.
  split; [vm_compute; reflexivity|]. split; [vm_compute; reflexivity|].
  vm_compute. tauto.
Qed.

Example disk_full_run :
  fst diskFullRun = Failed (Thrown noSpace)
  /\ filter isRequest (trace (snd diskFullRun)) = []
  /\ hd_error (trace (snd diskFullRun)) = Some (failureEntry (Thrown noSpace)).
Proof. vm_compute. repeat split. Qed.

Example short_run :
  fst shortRun = Unfinished
  /\ List.length (received (trace (snd shortRun))) = 3%nat.
Proof. vm_compute. repeat split. Qed.

Lemma run_ends_with_its_outcome_witness :
  exists l,
    (exists t0,
        trace (snd silentRun) = failureEntry t0 :: l
        /\ (Thrown (ErrorObj noResponse) = t0
            \/ logThrew (envOf silentCodex) (Thrown (ErrorObj noResponse))))
    \/ (exists data,
           trace (snd silentRun)
           = ELog ERROR (lit "Failed to write screenshot collector error log") data :: l
           /\ logThrew (envOf silentCodex) (Thrown (ErrorObj noResponse))).
Proof.
  apply (@run_ends_with_its_outcome _ _ (envOf silentCodex) 10 start (snd silentRun)
           (Failed (Thrown (ErrorObj noResponse)))).
  vm_compute. reflexivity.
Defined.

Lemma description_trouble_is_not_fatal_witness :
  exists s' l,
    readDescription (envOf silentCodex) start = (Done tt, s')
    /\ trace s' = l ++ trace start
    /\ prog s' = prog start /\ exists l', l = descriptionEntry ThrownNull :: l'.
Proof.
  apply (@description_trouble_is_not_fatal _ _ (envOf silentCodex) start).
  repeat split; intros; reflexivity.
Defined.

End CollectorFacts.
